(** * scanbd: the device-polling scheduler and trigger engine (src/scanbd/sane.c)

    A shallow embedding of the polling thread ([sane_poll]), the rule
    compiler ([sane_find_matching_options]), the option sampler
    ([get_sane_option_value]) and the external trigger entry point
    ([sane_trigger_action]), together with the properties of the
    specification that concern them.

    Conventions.
    - [unsigned long] is 64 bits wide (LP64); its wrap-around is written out
      with [to_ulong].  Plain [char] is signed, as on x86-64.
    - Array indices and loop counters that the code keeps non-negative are
      [nat]; [triggered_option] and the [action] argument, which can be
      negative, are [Z].
    - A [char*] is an [option string]: [None] is the NULL pointer.
    - The scanner access library, the regex library, the process environment
      and the configuration are external collaborators: they are parameters
      of the development (records of operations). *)

From Stdlib Require Import ZArith Lia Ascii String.
From stdpp Require Import base tactics option list strings pretty.

Local Open Scope Z_scope.

(** ** Machine arithmetic *)

Definition ULONG_WIDTH : Z := 64.
Definition ULONG_MODULUS : Z := 2 ^ ULONG_WIDTH.

(** Conversion to [unsigned long]. *)
Definition to_ulong (z : Z) : Z := z mod ULONG_MODULUS.

(** The value of a plain (signed) [char] converted to [int]. *)
Definition int_of_char (c : ascii) : Z :=
  let b := Z.of_N (N_of_ascii c) in
  if b <? 128 then b else b - 256.

(** ** Types of the scanner access library (sane/sane.h) *)

Inductive SANE_Value_Type : Set :=
| SANE_TYPE_BOOL
| SANE_TYPE_INT
| SANE_TYPE_FIXED
| SANE_TYPE_STRING
| SANE_TYPE_BUTTON
| SANE_TYPE_GROUP.

Inductive SANE_Status : Set :=
| SANE_STATUS_GOOD
| SANE_STATUS_UNSUPPORTED
| SANE_STATUS_CANCELLED
| SANE_STATUS_DEVICE_BUSY
| SANE_STATUS_INVAL
| SANE_STATUS_EOF
| SANE_STATUS_JAMMED
| SANE_STATUS_NO_DOCS
| SANE_STATUS_COVER_OPEN
| SANE_STATUS_IO_ERROR
| SANE_STATUS_NO_MEM
| SANE_STATUS_ACCESS_DENIED.

Definition status_good (s : SANE_Status) : bool :=
  match s with SANE_STATUS_GOOD => true | _ => false end.

Definition status_access_denied (s : SANE_Status) : bool :=
  match s with SANE_STATUS_ACCESS_DENIED => true | _ => false end.

Record SANE_Option_Descriptor : Type := {
  od_name : option string;
  od_type : SANE_Value_Type;
  od_size : Z;
  od_cap  : Z
}.

Definition SANE_CAP_INACTIVE : Z := 32.

Definition SANE_OPTION_IS_ACTIVE (cap : Z) : bool :=
  Z.land cap SANE_CAP_INACTIVE =? 0.

(** The test
    [type == BOOL || type == INT || type == FIXED || type == BUTTON]. *)
Definition is_numerical (t : SANE_Value_Type) : bool :=
  match t with
  | SANE_TYPE_BOOL | SANE_TYPE_INT | SANE_TYPE_FIXED | SANE_TYPE_BUTTON => true
  | _ => false
  end.

Definition is_string (t : SANE_Value_Type) : bool :=
  match t with SANE_TYPE_STRING => true | _ => false end.

(** The scanner access library.  [World] is the state of the library and of
    the attached devices; reading an option may change it (some backends
    reset a button when it is read).  A word read returns the content of the
    caller's [unsigned long] after the call, a string read the bytes the
    backend wrote to the caller's buffer. *)
Record sane_api (World Handle : Type) : Type := {
  sane_get_option_descriptor : World → Handle → nat → option SANE_Option_Descriptor;
  sane_control_option_word : World → Handle → nat → World * SANE_Status * Z;
  sane_control_option_string : World → Handle → nat → World * SANE_Status * list ascii;
  sane_control_option_count : World → Handle → World * SANE_Status * Z;
  sane_open : World → string → World * SANE_Status * option Handle;
  sane_close : World → Handle → World
}.
Arguments sane_get_option_descriptor {World Handle}.
Arguments sane_control_option_word {World Handle}.
Arguments sane_control_option_string {World Handle}.
Arguments sane_control_option_count {World Handle}.
Arguments sane_open {World Handle}.
Arguments sane_close {World Handle}.

(** The POSIX regex library: [regcomp] returns its error code (0 on success)
    and the content of the [regex_t] it was given; [regexec] returns 0 on a
    match. *)
Record regex_api (regex_t : Type) : Type := {
  regcomp : string → Z * regex_t;
  regexec : regex_t → string → Z
}.
Arguments regcomp {regex_t}.
Arguments regexec {regex_t}.

(** ** C strings *)

Definition NUL : ascii := Ascii.zero.

Definition is_nul (c : ascii) : bool := bool_decide (c = NUL).

(** The C string held by a buffer: the bytes before the first NUL. *)
Fixpoint cstring_of_buffer (buf : list ascii) : string :=
  match buf with
  | [] => EmptyString
  | c :: rest => if is_nul c then EmptyString else String c (cstring_of_buffer rest)
  end.

(** ** hash *)

(** One round of the loop body: [hash = ((hash << 5) + hash) + c]. *)
Definition hash_step (hash : Z) (c : ascii) : Z :=
  to_ulong (to_ulong (to_ulong (Z.shiftl hash 5) + hash) + to_ulong (int_of_char c)).

Fixpoint hash_loop (hash : Z) (str : string) : Z :=
  match str with
  | EmptyString => hash
  | String c rest => if is_nul c then hash else hash_loop (hash_step hash c) rest
  end.

Definition hash (str : string) : Z := hash_loop 5381 str.

(** The djb2 hash as the specification words it: [h] starts at 5381 and
    becomes [h * 33 + c] for each character, over the integers. *)
Definition djb2_from (h : Z) (l : list ascii) : Z :=
  fold_left (λ h c, h * 33 + int_of_char c) l h.

Definition djb2 (str : string) : Z := djb2_from 5381 (list_ascii_of_string str).

(** ** Option values *)

Section Values.
Context {regex_t : Type}.

Record sane_opt_value : Type := {
  num_value : Z;
  str_value_str : option string;
  str_value_reg : option regex_t
}.

Definition sane_option_value_init : sane_opt_value :=
  {| num_value := 0; str_value_str := None; str_value_reg := None |}.

(** [sane_option_value_free] releases and clears both pointers and leaves
    [num_value] as it is. *)
Definition sane_option_value_free (v : sane_opt_value) : sane_opt_value :=
  {| num_value := num_value v; str_value_str := None; str_value_reg := None |}.

End Values.
Arguments sane_opt_value : clear implicits.

(** ** get_sane_option_value *)

Definition SIZEOF_LONG : Z := 8.

(** The buffer [calloc(size + 1, 1)] after the backend wrote [written] to
    its start. *)
Definition string_buffer (size : Z) (written : list ascii) : list ascii :=
  take (Z.to_nat size + 1)%nat (written ++ replicate (Z.to_nat size + 1)%nat NUL).

Section Sampling.
Context {World Handle regex_t : Type}.
Variable sane : sane_api World Handle.

(** A NULL handle has no descriptors. *)
Definition get_option_descriptor (w : World) (h : option Handle) (index : nat)
  : option SANE_Option_Descriptor :=
  match h with
  | Some hd => sane_get_option_descriptor sane w hd index
  | None => None
  end.

Definition get_sane_option_value (w : World) (h : option Handle) (index : nat)
  : World * sane_opt_value regex_t :=
  let res := sane_option_value_init in
  match h with
  | None => (w, res)
  | Some hd =>
    match sane_get_option_descriptor sane w hd index with
    | None => (w, res)
    | Some odesc =>
      if is_numerical (od_type odesc) then
        if od_size odesc mod 2 ^ 32 <=? SIZEOF_LONG then
          let '(w', status, value) := sane_control_option_word sane w hd index in
          if status_good status then
            (w', {| num_value := to_ulong value;
                    str_value_str := str_value_str res;
                    str_value_reg := str_value_reg res |})
          else (w', res)
        else (w, res)
      else if is_string (od_type odesc) then
        let '(w', status, written) := sane_control_option_string sane w hd index in
        let buf := string_buffer (od_size odesc) written in
        if status_good status then
          let buf' := <[Z.to_nat (od_size odesc) := NUL]> buf in
          let s := cstring_of_buffer buf' in
          (w', {| num_value := hash s;
                  str_value_str := Some s;
                  str_value_reg := str_value_reg res |})
        else
          (w', {| num_value := num_value res;
                  str_value_str := Some (cstring_of_buffer buf);
                  str_value_reg := str_value_reg res |})
      else (w, res)
    end
  end.

End Sampling.

(** ** The polling thread's data *)

Record SANE_Device : Type := {
  dev_name : string;
  dev_vendor : string;
  dev_model : string;
  dev_type : string
}.

Section ThreadData.
Context {Handle regex_t : Type}.

Record sane_dev_option : Type := {
  opt_number : nat;
  from_value : sane_opt_value regex_t;
  to_value : sane_opt_value regex_t;
  value : sane_opt_value regex_t;
  script : option string;
  action_name : option string
}.

Record sane_dev_function : Type := {
  fn_number : nat;
  env : option string
}.

Record sane_thread : Type := {
  triggered : bool;
  triggered_option : Z;
  dev : SANE_Device;
  num_of_options : nat;
  h : option Handle;
  opts : list sane_dev_option;
  num_of_options_with_scripts : nat;
  functions : list sane_dev_function;
  num_of_options_with_functions : nat
}.

(** An element of a [calloc]ed array after its values were initialised. *)
Definition zero_option : sane_dev_option :=
  {| opt_number := 0%nat;
     from_value := sane_option_value_init;
     to_value := sane_option_value_init;
     value := sane_option_value_init;
     script := None;
     action_name := None |}.

Definition zero_function : sane_dev_function :=
  {| fn_number := 0%nat; env := None |}.

(** Field updates. *)
Definition set_trigger (t : sane_thread) (b : bool) (o : Z) : sane_thread :=
  {| triggered := b; triggered_option := o; dev := dev t;
     num_of_options := num_of_options t; h := h t; opts := opts t;
     num_of_options_with_scripts := num_of_options_with_scripts t;
     functions := functions t;
     num_of_options_with_functions := num_of_options_with_functions t |}.

Definition set_h (t : sane_thread) (hd : option Handle) : sane_thread :=
  {| triggered := triggered t; triggered_option := triggered_option t; dev := dev t;
     num_of_options := num_of_options t; h := hd; opts := opts t;
     num_of_options_with_scripts := num_of_options_with_scripts t;
     functions := functions t;
     num_of_options_with_functions := num_of_options_with_functions t |}.

Definition set_opts (t : sane_thread) (os : list sane_dev_option) (n : nat) : sane_thread :=
  {| triggered := triggered t; triggered_option := triggered_option t; dev := dev t;
     num_of_options := num_of_options t; h := h t; opts := os;
     num_of_options_with_scripts := n;
     functions := functions t;
     num_of_options_with_functions := num_of_options_with_functions t |}.

Definition set_functions (t : sane_thread) (fs : list sane_dev_function) (n : nat)
  : sane_thread :=
  {| triggered := triggered t; triggered_option := triggered_option t; dev := dev t;
     num_of_options := num_of_options t; h := h t; opts := opts t;
     num_of_options_with_scripts := num_of_options_with_scripts t;
     functions := fs;
     num_of_options_with_functions := n |}.

Definition set_num_of_options (t : sane_thread) (n : nat) : sane_thread :=
  {| triggered := triggered t; triggered_option := triggered_option t; dev := dev t;
     num_of_options := n; h := h t; opts := opts t;
     num_of_options_with_scripts := num_of_options_with_scripts t;
     functions := functions t;
     num_of_options_with_functions := num_of_options_with_functions t |}.

Definition set_value (o : sane_dev_option) (v : sane_opt_value regex_t) : sane_dev_option :=
  {| opt_number := opt_number o; from_value := from_value o; to_value := to_value o;
     value := v; script := script o; action_name := action_name o |}.

(** The slot of a device as [start_sane_threads] fills it in before the
    polling thread is created. *)
Definition start_slot (d : SANE_Device) : sane_thread :=
  {| triggered := false; triggered_option := -1; dev := d;
     num_of_options := 0%nat; h := None; opts := [];
     num_of_options_with_scripts := 0%nat;
     functions := [];
     num_of_options_with_functions := 0%nat |}.

(** The first index [o < limit] with [opts[o].number == number]: the loops
    [for (o = 0; o < limit; o += 1) if (opts[o].number == number) break;]. *)
Definition find_option (os : list sane_dev_option) (limit number : nat) : option nat :=
  fst <$> list_find (λ o, opt_number o = number) (take limit os).

Definition find_function (fs : list sane_dev_function) (limit number : nat) : option nat :=
  fst <$> list_find (λ f, fn_number f = number) (take limit fs).

(** *** The critical section of an external trigger

    What [sane_trigger_action] does to the slot once it holds the device
    mutex and finds no action active. *)
Definition action_in_range (t : sane_thread) (action : Z) : bool :=
  (0 <=? action) && (action <? Z.of_nat (num_of_options_with_scripts t)).

Definition external_trigger (t : sane_thread) (action : Z) : sane_thread :=
  if action_in_range t action && negb (triggered t)
  then set_trigger t true action
  else t.

(** The invariant on the trigger fields. *)
Definition trigger_inv (t : sane_thread) : Prop :=
  if triggered t
  then 0 <= triggered_option t < Z.of_nat (num_of_options_with_scripts t)
  else triggered_option t = -1.

End ThreadData.
Arguments sane_dev_option : clear implicits.
Arguments sane_thread : clear implicits.

(** ** Events of a polling thread *)

Inductive dbus_signal : Set :=
| SCANBD_DBUS_SIGNAL_SCAN_BEGIN
| SCANBD_DBUS_SIGNAL_SCAN_END
| SCANBD_DBUS_SIGNAL_TRIGGER.

Inductive event : Type :=
| EvSaneOpen (status : SANE_Status)
| EvSaneClose
| EvGetValue (index : nat) (num : Z) (str : option string)
| EvCondBroadcast
| EvMutexLock
| EvMutexUnlock
| EvUsleep (ms : Z)
| EvDbusSignal (sig : dbus_signal) (arg : string)
| EvDbusSignalArgv (sig : dbus_signal) (argv : list (option string))
| EvForkFailed
| EvFork (path : string) (envp : list (option string))
| EvWaitpid.

(** The child process runs from its [fork] until [waitpid] returns. *)
Definition child_running (e : event) : bool :=
  match e with EvFork _ _ | EvWaitpid => true | _ => false end.

(** ** The state of a run of the polling thread, and its monad *)

Section Monad.
Context {World Handle regex_t : Type}.

(** [trace] records each event with the slot as it is when the event
    happens.  [external] holds, for each time the thread acquires the device
    mutex, the action (if any) with which another thread ran the critical
    section of [sane_trigger_action] just before. *)
Record PState : Type := {
  world : World;
  st : sane_thread Handle regex_t;
  trace : list (event * sane_thread Handle regex_t);
  external : list (option Z)
}.

(** A computation returns, or ends the thread with [pthread_exit], or
    aborts the process (a failed [assert], a NULL dereference, an access
    outside an array). *)
Inductive Res (A : Type) : Type :=
| Ok (a : A) (s : PState)
| Exit (s : PState)
| Abort (s : PState).
Arguments Ok {A}. Arguments Exit {A}. Arguments Abort {A}.

Definition M (A : Type) : Type := PState → Res A.

Definition ret {A} (a : A) : M A := λ s, Ok a s.

Definition bind {A B} (m : M A) (f : A → M B) : M B :=
  λ s, match m s with
       | Ok a s' => f a s'
       | Exit s' => Exit s'
       | Abort s' => Abort s'
       end.

Definition final {A} (r : Res A) : PState :=
  match r with Ok _ s | Exit s | Abort s => s end.

Definition get_st : M (sane_thread Handle regex_t) := λ s, Ok (st s) s.
Definition get_world : M World := λ s, Ok (world s) s.

Definition modify_st (f : sane_thread Handle regex_t → sane_thread Handle regex_t) : M unit :=
  λ s, Ok tt {| world := world s; st := f (st s); trace := trace s; external := external s |}.

Definition put_world (w : World) : M unit :=
  λ s, Ok tt {| world := w; st := st s; trace := trace s; external := external s |}.

Definition emit (e : event) : M unit :=
  λ s, Ok tt {| world := world s; st := st s;
                trace := trace s ++ [(e, st s)]; external := external s |}.

Definition assert (b : bool) : M unit := λ s, if b then Ok tt s else Abort s.
Definition abort {A} : M A := λ s, Abort s.
Definition pthread_exit {A} : M A := λ s, Exit s.

Definition pthread_mutex_unlock : M unit := emit EvMutexUnlock.

(** The slot as the thread finds it when it gets the device mutex. *)
Definition interfere (requests : list (option Z)) (t : sane_thread Handle regex_t)
  : sane_thread Handle regex_t :=
  match requests with
  | Some action :: _ => external_trigger t action
  | _ => t
  end.

Definition pthread_mutex_lock : M unit :=
  λ s, emit EvMutexLock
         {| world := world s; st := interfere (external s) (st s);
            trace := trace s; external := tail (external s) |}.

Definition pthread_cond_broadcast : M unit := emit EvCondBroadcast.
Definition usleep (ms : Z) : M unit := emit (EvUsleep ms).

Fixpoint for_each {A} (l : list A) (body : A → M unit) : M unit :=
  match l with
  | [] => ret tt
  | x :: rest => bind (body x) (λ _, for_each rest body)
  end.

End Monad.
Arguments PState : clear implicits.
Arguments Res : clear implicits.
Arguments M : clear implicits.
Arguments Ok {World Handle regex_t A}.
Arguments Exit {World Handle regex_t A}.
Arguments Abort {World Handle regex_t A}.

Declare Scope poll_scope.
Delimit Scope poll_scope with poll.
Notation "'let*' x ':=' m 'in' k" := (bind m (λ x, k))
  (at level 10, x name, m at level 100, k at level 200) : poll_scope.
Notation "m >> k" := (bind m (λ _, k))
  (at level 100, k at level 200, right associativity) : poll_scope.

(** ** Configuration (the parsed libconfuse tree) *)

Record cfg_action : Type := {
  action_title : option string;
  action_filter : string;
  action_script : option string;
  numerical_from_value : Z;
  numerical_to_value : Z;
  string_from_value : string;
  string_to_value : string
}.

Record cfg_function : Type := {
  function_title : option string;
  function_filter : string;
  function_env : string
}.

(** A section that holds actions and functions: the global section or a
    device section ([section_filter] is used for device sections only). *)
Record cfg_section : Type := {
  section_title : option string;
  section_filter : string;
  section_actions : list cfg_action;
  section_functions : list cfg_function
}.

Record cfg_t : Type := {
  cfg_global : cfg_section;
  cfg_timeout : Z;
  cfg_multiple_actions : bool;
  cfg_environment_device : option string;
  cfg_environment_action : option string;
  cfg_devices : list cfg_section
}.

(** ** The process environment seen by the dispatcher *)

Record passwd : Type := { pw_name : string; pw_dir : string }.

Record process_env : Type := {
  getenv : string → option string;
  getcwd : option string;
  getpwuid_geteuid : option passwd
}.

(** The operating system's part of the world: whether [fork] succeeds, and
    the world after the child ran the script and was waited for. *)
Record os_api (World : Type) : Type := {
  fork_succeeds : World → bool;
  child_run : World → string → list (option string) → World
}.
Arguments fork_succeeds {World}.
Arguments child_run {World}.

Definition NAME_MAX : nat := 255.

(** [snprintf(buf, NAME_MAX, ...)] keeps at most [NAME_MAX - 1] characters. *)
Definition snprintf_NAME_MAX (s : string) : string :=
  String.substring 0 (NAME_MAX - 1) s.

(** ["%s"] applied to a NULL pointer prints [(null)] (glibc). *)
Definition printf_s (s : option string) : string := default "(null)" s.

(** ["%lu"]. *)
Definition printf_lu (n : Z) : string := pretty (Z.to_N n).

Definition format_env_s (name : option string) (v : option string) : string :=
  snprintf_NAME_MAX (printf_s name +:+ "=" +:+ printf_s v).

Definition format_env_lu (name : option string) (v : Z) : string :=
  snprintf_NAME_MAX (printf_s name +:+ "=" +:+ printf_lu v).

(** ** The rule compiler and the polling thread *)

Section Poller.
Context {World Handle regex_t : Type}.
Variable sane : sane_api World Handle.
Variable rx : regex_api regex_t.
Variable os : os_api World.
Variable penv : process_env.
Variable cfg : cfg_t.
(** Two macros of scanbd.h and a helper of another file of the daemon. *)
Variable SCANBD_NULL_STRING : string.
Variable C_TIMEOUT_DEF : Z.
Variable make_script_path_abs : string → option string.

Notation thread := (sane_thread Handle regex_t).
Notation option_rule := (sane_dev_option regex_t).
Notation opt_value := (sane_opt_value regex_t).
Notation M := (M World Handle regex_t).
Local Open Scope poll_scope.

Fixpoint fold_each {A B} (l : list A) (acc : B) (body : B → A → M B) : M B :=
  match l with
  | [] => ret acc
  | x :: rest => let* acc' := body acc x in fold_each rest acc' body
  end.

(** A call of [get_sane_option_value(st->h, index)]; the event records
    the number and the string of the value it returned. *)
Definition query_option_value (index : nat) : M opt_value :=
  let* t := get_st in
  let* w := get_world in
  let r := get_sane_option_value (regex_t := regex_t) sane w (h t) index in
  emit (EvGetValue index (num_value (snd r)) (str_value_str (snd r))) >>
  put_world (fst r) >>
  ret (snd r).

(** *** Matching options against a filter

    The checks both compiler loops apply to option number [opt]: the
    descriptor exists, the option is active and named, its type is one of
    BOOL, INT, FIXED, STRING, BUTTON, and its name matches the filter. *)
Definition match_option (creg : regex_t) (w : World) (t : thread) (opt : nat)
  : option SANE_Option_Descriptor :=
  match get_option_descriptor sane w (h t) opt with
  | None => None
  | Some odesc =>
    if negb (SANE_OPTION_IS_ACTIVE (od_cap odesc)) then None
    else match od_name odesc with
         | None => None
         | Some name =>
           if negb (is_numerical (od_type odesc) || is_string (od_type odesc)) then None
           else if negb (regexec rx creg name =? 0) then None
           else Some odesc
         end
  end.

(** *** sane_find_matching_functions *)

Definition install_function (function_i : cfg_function) (opt : nat) : M unit :=
  let* t := get_st in
  let count := num_of_options_with_functions t in
  let n := default count (find_function (functions t) count opt) in
  if (n <? length (functions t))%nat then
    modify_st (λ t, set_functions t
                      (<[n := {| fn_number := opt; env := Some (function_env function_i) |}]>
                         (functions t))
                      (if (n =? count)%nat then S count else count))
  else abort.

Definition sane_find_matching_functions (sec : cfg_section) : M unit :=
  for_each (section_functions sec) (λ function_i,
    let rc := regcomp rx (function_filter function_i) in
    if fst rc <? 0 then ret tt
    else
      let* t0 := get_st in
      for_each (seq 1 (num_of_options t0 - 1)) (λ opt,
        let* t := get_st in
        let* w := get_world in
        match match_option (snd rc) w t opt with
        | None => ret tt
        | Some _ => install_function function_i opt
        end)).

(** *** sane_find_matching_options *)

(** The index [n] left by the search loop over the installed actions. *)
Definition find_action_slot (t : thread) (opt : nat) : nat :=
  let count := num_of_options_with_scripts t in
  match find_option (opts t) count opt with
  | Some n =>
    if cfg_multiple_actions cfg
    then (if (n <? num_of_options t)%nat then count else n)
    else n
  | None => count
  end.

Definition write_option (n : nat) (o : option_rule) (count : nat) : M unit :=
  modify_st (λ t, set_opts t (<[n := o]> (opts t)) count).

Definition with_num (v : opt_value) (n : Z) : opt_value :=
  {| num_value := n; str_value_str := str_value_str v; str_value_reg := str_value_reg v |}.

Definition with_pattern (v : opt_value) (pattern : string) (r : regex_t) : opt_value :=
  {| num_value := num_value v; str_value_str := Some pattern; str_value_reg := Some r |}.

(** The script of an action: [SCANBD_NULL_STRING] when none is given. *)
Definition script_of_action (action_i : cfg_action) : string :=
  match action_script action_i with
  | Some s => if bool_decide (s = EmptyString) then SCANBD_NULL_STRING else s
  | None => SCANBD_NULL_STRING
  end.

(** [st->opts[n]] after number, name and script are assigned and the three
    values are freed. *)
Definition cleared_option (old : option_rule) (opt : nat) (action_i : cfg_action)
    (title : string) : option_rule :=
  {| opt_number := opt;
     from_value := sane_option_value_free (from_value old);
     to_value := sane_option_value_free (to_value old);
     value := sane_option_value_free (value old);
     script := Some (script_of_action action_i);
     action_name := Some title |}.

(** ... after the numerical trigger is read from the configuration. *)
Definition numerical_option (o : option_rule) (action_i : cfg_action) : option_rule :=
  {| opt_number := opt_number o;
     from_value := with_num (from_value o) (to_ulong (numerical_from_value action_i));
     to_value := with_num (to_value o) (to_ulong (numerical_to_value action_i));
     value := value o;
     script := script o;
     action_name := action_name o |}.

(** ... after both patterns of the string trigger are duplicated and
    compiled. *)
Definition textual_option (o : option_rule) (action_i : cfg_action) : option_rule :=
  {| opt_number := opt_number o;
     from_value := with_pattern (from_value o) (string_from_value action_i)
                     (snd (regcomp rx (string_from_value action_i)));
     to_value := with_pattern (to_value o) (string_to_value action_i)
                   (snd (regcomp rx (string_to_value action_i)));
     value := value o;
     script := script o;
     action_name := action_name o |}.

(** The test [valid] of the string branch. *)
Definition string_trigger_valid (action_i : cfg_action) : bool :=
  negb (fst (regcomp rx (string_from_value action_i)) <? 0) &&
  negb (fst (regcomp rx (string_to_value action_i)) <? 0).

(** ... after the three values are freed again because [valid] is false. *)
Definition freed_option (o : option_rule) (v : opt_value) : option_rule :=
  {| opt_number := opt_number o;
     from_value := sane_option_value_free (from_value o);
     to_value := sane_option_value_free (to_value o);
     value := sane_option_value_free v;
     script := script o;
     action_name := action_name o |}.

(** [if (n == st->num_of_options_with_scripts) st->num_of_options_with_scripts += 1]. *)
Definition count_after (n count : nat) : nat :=
  if (n =? count)%nat then S count else count.

Definition install_action (action_i : cfg_action) (title : string) (opt : nat)
    (odesc : SANE_Option_Descriptor) : M unit :=
  let* t := get_st in
  let count := num_of_options_with_scripts t in
  let n := find_action_slot t opt in
  if (n =? num_of_options t)%nat then ret tt (* no space left in array *)
  else
    match opts t !! n with
    | None => abort
    | Some old =>
      let cleared := cleared_option old opt action_i title in
      if is_numerical (od_type odesc) then
        write_option n (numerical_option cleared action_i) count >>
        let* v := query_option_value opt in
        write_option n (set_value (numerical_option cleared action_i) v)
          (count_after n count)
      else if is_string (od_type odesc) then
        write_option n (textual_option cleared action_i) count >>
        let* v := query_option_value opt in
        if string_trigger_valid action_i then
          write_option n (set_value (textual_option cleared action_i) v)
            (count_after n count)
        else
          write_option n (freed_option (textual_option cleared action_i) v) count
      else abort
    end.

Definition sane_find_matching_options (sec : cfg_section) : M unit :=
  for_each (section_actions sec) (λ action_i,
    let title := default "(none)" (action_title action_i) in
    let rc := regcomp rx (action_filter action_i) in
    if fst rc <? 0 then ret tt
    else
      let* t0 := get_st in
      for_each (seq 1 (num_of_options t0 - 1)) (λ opt,
        let* t := get_st in
        let* w := get_world in
        match match_option (snd rc) w t opt with
        | None => ret tt
        | Some odesc => install_action action_i title opt odesc
        end)).

(** *** Start of sane_poll: open the device and compile the rules *)

Definition open_device : M SANE_Status :=
  let* t := get_st in
  let* w := get_world in
  let r := sane_open sane w (dev_name (dev t)) in
  put_world (fst (fst r)) >>
  modify_st (λ t, set_h t (snd r)) >>
  emit (EvSaneOpen (snd (fst r))) >>
  ret (snd (fst r)).

Definition close_device : M unit :=
  let* t := get_st in
  let* w := get_world in
  emit EvSaneClose >>
  put_world (match h t with Some hd => sane_close sane w hd | None => w end) >>
  modify_st (λ t, set_h t None).

Definition allocate_rules (n : nat) : M unit :=
  modify_st (λ t,
    set_functions
      (set_opts (set_num_of_options t n) (replicate n zero_option) 0%nat)
      (replicate n zero_function) 0%nat).

Definition sane_poll_startup : M Z :=
  pthread_mutex_lock >>
  let* status := open_device in
  if negb (status_good status) then pthread_exit
  else
    let* t := get_st in
    let* w := get_world in
    match h t with
    | None => abort
    | Some hd =>
      let r := sane_control_option_count sane w hd in
      put_world (fst (fst r)) >>
      if negb (status_good (snd (fst r))) then pthread_exit
      else if snd r =? 0 then pthread_exit
      else if snd r <? 0 then abort
      else
        allocate_rules (Z.to_nat (snd r)) >>
        sane_find_matching_options (cfg_global cfg) >>
        sane_find_matching_functions (cfg_global cfg) >>
        for_each (cfg_devices cfg) (λ loc_i,
          let rc := regcomp rx (section_filter loc_i) in
          if fst rc <? 0 then ret tt
          else
            let* t := get_st in
            if regexec rx (snd rc) (dev_name (dev t)) =? 0 then
              sane_find_matching_options loc_i >>
              sane_find_matching_functions loc_i
            else ret tt) >>
        ret (if cfg_timeout cfg <=? 0 then C_TIMEOUT_DEF else cfg_timeout cfg)
    end.

(** *** The environment of the action script *)

(** The test on the type of a function's option:
    [fdesc->type == BOOL || fdesc->type == INT || fdesc->type == FIXED ||
     odesc->type == BUTTON]; the last disjunct looks at the descriptor of
    the action being polled. *)
Definition function_is_numerical (fdesc odesc : SANE_Option_Descriptor) : bool :=
  match od_type fdesc with
  | SANE_TYPE_BOOL | SANE_TYPE_INT | SANE_TYPE_FIXED => true
  | _ => match od_type odesc with SANE_TYPE_BUTTON => true | _ => false end
  end.

(** The value [v] a function's entry is formatted from: queried when no
    installed action has the function's option number, and otherwise left
    as [sane_option_value_init] made it. *)
Definition function_value (number : nat) : M opt_value :=
  let* t := get_st in
  match find_option (opts t) (num_of_options_with_scripts t) number with
  | None => query_option_value number
  | Some _ => ret sane_option_value_init
  end.

Definition function_entry (odesc : SANE_Option_Descriptor) (e : nat) : M string :=
  let* t := get_st in
  let* w := get_world in
  match functions t !! e with
  | None => abort
  | Some f =>
    match get_option_descriptor sane w (h t) (fn_number f) with
    | None => abort
    | Some fdesc =>
      let* v := function_value (fn_number f) in
      if function_is_numerical fdesc odesc then
        ret (format_env_lu (env f) (num_value v))
      else if is_string (od_type fdesc) then
        ret (format_env_s (env f) (str_value_str v))
      else abort
    end
  end.

(** The array [env] and the index [e] of the next entry. *)
Definition env_array : Type := list (option string) * nat.

Definition put_entry (a : env_array) (entry : string) : env_array :=
  (<[snd a := Some entry]> (fst a), S (snd a)).

Definition env_PATH (a : env_array) : env_array :=
  match getenv penv "PATH" with
  | Some v => put_entry a (format_env_s (Some "PATH") (Some v))
  | None => put_entry a (format_env_s (Some "PATH") (Some "/usr/sbin:/usr/bin:/sbin:/bin"))
  end.

Definition env_PWD (a : env_array) : env_array :=
  match getenv penv "PWD" with
  | Some v => put_entry a (format_env_s (Some "PWD") (Some v))
  | None =>
    match getcwd penv with
    | None => a
    | Some ptr => put_entry a (format_env_s (Some "PWD") (Some ptr))
    end
  end.

Definition env_USER (a : env_array) : option env_array :=
  match getenv penv "USER" with
  | Some v => Some (put_entry a (format_env_s (Some "USER") (Some v)))
  | None =>
    match getpwuid_geteuid penv with
    | None => None
    | Some pwd => Some (put_entry a (format_env_s (Some "USER") (Some (pw_name pwd))))
    end
  end.

Definition env_HOME (a : env_array) : option env_array :=
  match getenv penv "HOME" with
  | Some v => Some (put_entry a (format_env_s (Some "HOME") (Some v)))
  | None =>
    match getpwuid_geteuid penv with
    | None => None
    | Some pwd => Some (put_entry a (format_env_s (Some "HOME") (Some (pw_dir pwd))))
    end
  end.

Definition env_configured (name : option string) (v : option string) (a : env_array)
  : env_array :=
  match name with
  | Some ev => put_entry a (format_env_s (Some ev) v)
  | None => a
  end.

(** The entries after the functions' entries, the sentinel, and
    [assert(e == number_of_envs-1)]: [None] when an assertion fails. *)
Definition finish_env (t : thread) (fired : option_rule) (filled : list (option string))
  : option (list (option string)) :=
  let number_of_envs := (num_of_options_with_functions t + 4 + 2 + 1)%nat in
  let a2 := env_PWD (env_PATH (filled, num_of_options_with_functions t)) in
  match env_USER a2 with
  | None => None
  | Some a3 =>
    match env_HOME a3 with
    | None => None
    | Some a4 =>
      let a6 := env_configured (cfg_environment_action cfg) (action_name fired)
                  (env_configured (cfg_environment_device cfg)
                     (Some (dev_name (dev t))) a4) in
      if (snd a6 =? number_of_envs - 1)%nat
      then Some (<[snd a6 := None]> (fst a6))
      else None
    end
  end.

Definition build_env (odesc : SANE_Option_Descriptor) (fired : option_rule)
  : M (list (option string)) :=
  let* t := get_st in
  let number_of_envs := (num_of_options_with_functions t + 4 + 2 + 1)%nat in
  let* filled :=
    fold_each (seq 0 (num_of_options_with_functions t))
      (replicate number_of_envs (Some EmptyString))
      (λ envp e, let* entry := function_entry odesc e in
                 ret (<[e := Some entry]> envp)) in
  match finish_env t fired filled with
  | None => abort
  | Some envp => ret envp
  end.

(** *** The dispatcher: the body of [if (st->triggered && ...)] *)

Definition run_script (timeout : Z) (script_abs : string) (envp : list (option string))
  : M unit :=
  if bool_decide (script_abs = SCANBD_NULL_STRING) then ret tt
  else
    assert (0 <? timeout) >>
    usleep timeout >>
    let* w := get_world in
    if fork_succeeds os w then
      emit (EvFork script_abs envp) >>
      put_world (child_run os w script_abs envp) >>
      emit EvWaitpid
    else emit EvForkFailed.

Definition dispatch (timeout : Z) (odesc : SANE_Option_Descriptor) : M unit :=
  let* t := get_st in
  assert (0 <=? triggered_option t) >>
  assert (triggered_option t <? Z.of_nat (num_of_options_with_scripts t)) >>
  match opts t !! Z.to_nat (triggered_option t) with
  | None => abort
  | Some fired =>
    let* envp := build_env odesc fired in
    emit (EvDbusSignal SCANBD_DBUS_SIGNAL_SCAN_BEGIN (dev_name (dev t))) >>
    emit (EvDbusSignalArgv SCANBD_DBUS_SIGNAL_TRIGGER envp) >>
    close_device >>
    match script fired with
    | None => abort
    | Some script_ =>
      assert (negb (bool_decide (script_ = EmptyString))) >>
      match make_script_path_abs script_ with
      | None => abort
      | Some script_abs =>
        pthread_mutex_unlock >>
        run_script timeout script_abs envp >>
        pthread_mutex_lock >>
        modify_st (λ t, set_trigger t false (-1)) >>
        pthread_cond_broadcast >>
        pthread_mutex_unlock >>
        usleep timeout >>
        emit (EvDbusSignal SCANBD_DBUS_SIGNAL_SCAN_END (dev_name (dev t))) >>
        pthread_mutex_lock >>
        let* status := open_device in
        if negb (status_good status) && status_access_denied status
        then pthread_exit
        else ret tt
      end
    end
  end.

(** *** One pass of the loop over the installed actions *)

(** The copy made of an earlier action's value: the number, and a
    duplicate of the string if there is one. *)
Definition copy_value (v : opt_value) : opt_value :=
  {| num_value := num_value v; str_value_str := str_value_str v; str_value_reg := None |}.

(** The current value of action [si]'s option: queried, unless an earlier
    action in the array has the same option number. *)
Definition sample (si : nat) (o : option_rule) : M opt_value :=
  let* t := get_st in
  match find_option (opts t) si (opt_number o) with
  | None => query_option_value (opt_number o)
  | Some first =>
    match opts t !! first with
    | None => abort
    | Some earlier => ret (copy_value (value earlier))
    end
  end.

(** Whether the comparison of rule [o] with the sample [v] fires: [None]
    when it dereferences a NULL pointer or meets a type it asserts
    impossible. *)
Definition value_trigger (odesc : SANE_Option_Descriptor) (o : option_rule) (v : opt_value)
  : option bool :=
  if is_numerical (od_type odesc) then
    Some ((num_value (from_value o) =? num_value (value o)) &&
          (num_value (to_value o) =? num_value v))
  else if is_string (od_type odesc) then
    match str_value_reg (from_value o), str_value_str (value o) with
    | Some from_reg, Some last =>
      if regexec rx from_reg last =? 0 then
        match str_value_reg (to_value o), str_value_str v with
        | Some to_reg, Some current => Some (regexec rx to_reg current =? 0)
        | _, _ => None
        end
      else Some false
    | _, _ => None
    end
  else None.

Definition compare (odesc : SANE_Option_Descriptor) (si : nat) (o : option_rule)
    (v : opt_value) : M unit :=
  match value_trigger odesc o v with
  | None => abort
  | Some true =>
    modify_st (λ t, set_trigger t true (Z.of_nat si)) >>
    pthread_cond_broadcast
  | Some false => ret tt
  end.

Definition store_value (si : nat) (v : opt_value) : M unit :=
  modify_st (λ t, set_opts t (alter (λ o, set_value o v) si (opts t))
                    (num_of_options_with_scripts t)).

(** The part of the loop body up to [st->opts[si].value = value]. *)
Definition sample_and_compare (odesc : SANE_Option_Descriptor) (si : nat) (o : option_rule)
  : M unit :=
  let* v := sample si o in
  compare odesc si o v >>
  store_value si v.

Definition poll_option (timeout : Z) (si : nat) : M unit :=
  let* t := get_st in
  let* w := get_world in
  match opts t !! si with
  | None => abort
  | Some o =>
    match get_option_descriptor sane w (h t) (opt_number o) with
    | None => abort
    | Some odesc =>
      match script o with
      | None => ret tt
      | Some script_ =>
        if bool_decide (script_ = EmptyString) then ret tt
        else
          sample_and_compare odesc si o >>
          let* t' := get_st in
          if triggered t' && (0 <=? triggered_option t')
          then dispatch timeout odesc
          else ret tt
      end
    end
  end.

(** One iteration of [while (true)], for a thread that is not cancelled at
    its cancellation point. *)
Definition sane_poll_iteration (timeout : Z) : M unit :=
  let* t := get_st in
  for_each (seq 0 (num_of_options_with_scripts t)) (poll_option timeout) >>
  pthread_mutex_unlock >>
  usleep timeout >>
  pthread_mutex_lock.

Fixpoint sane_poll_loop (iterations : nat) (timeout : Z) : M unit :=
  match iterations with
  | O => ret tt
  | S n => sane_poll_iteration timeout >> sane_poll_loop n timeout
  end.

(** [sane_poll], observed for a number of iterations of its loop. *)
Definition sane_poll (iterations : nat) : M unit :=
  let* timeout := sane_poll_startup in
  sane_poll_loop iterations timeout.

End Poller.

(** ** sane_trigger_action

    The function runs in another thread than the poller (the bus listener).
    What it sees of the shared variables is given by views: the globals when
    it acquires [sane_mutex] and after each wake-up on [sane_cv], and the
    device slot when it acquires the slot's mutex and after each wake-up on
    the slot's condition variable. *)

Inductive mutex : Set := sane_mutex | device_mutex (number_of_dev : nat).
Inductive condvar : Set := sane_cv | device_cv (number_of_dev : nat).

Inductive trigger_event : Set :=
| TLock (m : mutex)
| TUnlock (m : mutex)
| TCondWait (cv : condvar) (m : mutex)
| TCondBroadcast (cv : condvar)
| TSetTriggered (number_of_dev : nat) (action : Z).

(** [num_devices], and [sane_poll_threads]: NULL or an array of that many
    slots. *)
Record globals : Set := {
  num_devices : Z;
  sane_poll_threads : option nat
}.

Section Trigger.
Context {Handle regex_t : Type}.
Notation thread := (sane_thread Handle regex_t).

Inductive trigger_outcome : Type :=
| AssertionFailed
| NoDevices
| NoSuchDevice
| WaitingForPolling     (* still in [pthread_cond_wait(&sane_cv, ...)] *)
| OutsideArray
| NoSuchAction
| WaitingForAction      (* still in [pthread_cond_wait(&st->cv, ...)] *)
| Triggered (t : thread).

(** [while (sane_poll_threads == NULL) pthread_cond_wait(&sane_cv, &sane_mutex)]:
    the number of waits and the globals found at the end, if any. *)
Fixpoint wait_for_polling (g : globals) (wakeups : list globals) : nat * option globals :=
  match sane_poll_threads g with
  | Some _ => (0%nat, Some g)
  | None =>
    match wakeups with
    | [] => (0%nat, None)
    | g' :: rest =>
      let r := wait_for_polling g' rest in (S (fst r), snd r)
    end
  end.

(** [while (st->triggered == true) pthread_cond_wait(&st->cv, &st->mutex)]. *)
Fixpoint wait_while_triggered (t : thread) (wakeups : list thread) : nat * option thread :=
  if triggered t then
    match wakeups with
    | [] => (0%nat, None)
    | t' :: rest =>
      let r := wait_while_triggered t' rest in (S (fst r), snd r)
    end
  else (0%nat, Some t).

Definition sane_trigger_action (number_of_dev action : Z)
    (g : globals) (g_wakeups : list globals)
    (t : thread) (t_wakeups : list thread)
  : trigger_outcome * list trigger_event :=
  if negb ((0 <=? number_of_dev) && (0 <=? action)) then (AssertionFailed, [])
  else
    let d := Z.to_nat number_of_dev in
    if num_devices g <=? 0 then (NoDevices, [TLock sane_mutex; TUnlock sane_mutex])
    else if num_devices g <=? number_of_dev then
      (NoSuchDevice, [TLock sane_mutex; TUnlock sane_mutex])
    else
      let gw := wait_for_polling g g_wakeups in
      let waits_g := replicate (fst gw) (TCondWait sane_cv sane_mutex) in
      match snd gw with
      | None => (WaitingForPolling, TLock sane_mutex :: waits_g)
      | Some g' =>
        if negb (d <? default 0%nat (sane_poll_threads g'))%nat then
          (OutsideArray, TLock sane_mutex :: waits_g)
        else if Z.of_nat (num_of_options_with_scripts t) <=? action then
          (NoSuchAction,
           TLock sane_mutex :: waits_g ++
           [TLock (device_mutex d); TUnlock (device_mutex d); TUnlock sane_mutex])
        else
          let tw := wait_while_triggered t t_wakeups in
          let waits_t := replicate (fst tw) (TCondWait (device_cv d) (device_mutex d)) in
          match snd tw with
          | None =>
            (WaitingForAction,
             TLock sane_mutex :: waits_g ++ TLock (device_mutex d) :: waits_t)
          | Some t' =>
            (Triggered (set_trigger t' true action),
             TLock sane_mutex :: waits_g ++ TLock (device_mutex d) :: waits_t ++
             [TSetTriggered d action; TCondBroadcast (device_cv d);
              TUnlock (device_mutex d); TUnlock sane_mutex])
          end
      end.

End Trigger.

(** ** A scripted device, for running the model on concrete inputs *)

Module Bench.

Inductive reading : Type :=
| Word (status : SANE_Status) (v : Z)
| Text (status : SANE_Status) (written : string).

(** Option descriptors, the readings each option will give in turn, and
    the results of the coming [sane_open] calls. *)
Record scripted : Type := {
  descriptors : list (option SANE_Option_Descriptor);
  readings : list (nat * list reading);
  opens : list SANE_Status
}.

Definition next_reading (w : scripted) (index : nat) : option reading * scripted :=
  match list_find (λ p, fst p = index) (readings w) with
  | Some (i, (_, r :: rest)) =>
    (Some r, {| descriptors := descriptors w;
                readings := <[i := (index, rest)]> (readings w);
                opens := opens w |})
  | _ => (None, w)
  end.

Definition sane : sane_api scripted unit := {|
  sane_get_option_descriptor := λ w _ index, mjoin (descriptors w !! index);
  sane_control_option_word := λ w _ index,
    match next_reading w index with
    | (Some (Word status v), w') => (w', status, v)
    | (_, w') => (w', SANE_STATUS_IO_ERROR, 0)
    end;
  sane_control_option_string := λ w _ index,
    match next_reading w index with
    | (Some (Text status s), w') => (w', status, list_ascii_of_string s)
    | (_, w') => (w', SANE_STATUS_IO_ERROR, [])
    end;
  sane_control_option_count := λ w _,
    (w, SANE_STATUS_GOOD, Z.of_nat (length (descriptors w)));
  sane_open := λ w _,
    match opens w with
    | [] => (w, SANE_STATUS_GOOD, Some tt)
    | status :: rest =>
      ({| descriptors := descriptors w; readings := readings w; opens := rest |},
       status, if status_good status then Some tt else None)
    end;
  sane_close := λ w _, w
|}.

(** A small regex engine: a pattern is a literal, optionally anchored
    with [^] and [$]; a pattern with an unmatched parenthesis does not
    compile ([REG_EPAREN], which is 8 in glibc). *)
Definition REG_EPAREN : Z := 8.
Definition REG_NOMATCH : Z := 1.

Fixpoint paren_depth (s : string) (depth : nat) : option nat :=
  match s with
  | EmptyString => Some depth
  | String c rest =>
    if bool_decide (c = "("%char) then paren_depth rest (S depth)
    else if bool_decide (c = ")"%char) then
      match depth with O => None | S d => paren_depth rest d end
    else paren_depth rest depth
  end.

Fixpoint contains (needle hay : string) : bool :=
  String.prefix needle hay ||
  match hay with
  | EmptyString => false
  | String _ rest => contains needle rest
  end.

Definition strip_end (s : string) : option string :=
  match String.length s with
  | O => None
  | S n => if bool_decide (String.get n s = Some "$"%char)
           then Some (String.substring 0 n s) else None
  end.

Definition matches (pattern s : string) : bool :=
  match pattern with
  | String "^" p =>
    match strip_end p with
    | Some lit => bool_decide (lit = s)
    | None => String.prefix p s
    end
  | _ =>
    match strip_end pattern with
    | Some lit => contains lit s &&
                  bool_decide (String.substring (String.length s - String.length lit)
                                 (String.length lit) s = lit)
    | None => contains pattern s
    end
  end.

Definition rx : regex_api string := {|
  regcomp := λ pattern,
    (if bool_decide (paren_depth pattern 0 = Some 0%nat) then 0 else REG_EPAREN, pattern);
  regexec := λ r s, if matches r s then 0 else REG_NOMATCH
|}.

Definition os : os_api scripted := {|
  fork_succeeds := λ _, true;
  child_run := λ w _ _, w
|}.

Definition penv : process_env := {|
  getenv := λ name,
    if bool_decide (name = "PATH") then Some "/usr/bin:/bin"
    else if bool_decide (name = "HOME") then Some "/root"
    else None;
  getcwd := Some "/";
  getpwuid_geteuid := Some {| pw_name := "root"; pw_dir := "/root" |}
|}.

Definition SCANBD_NULL_STRING : string := "(null)".
Definition C_TIMEOUT_DEF : Z := 500.
Definition make_script_path_abs (s : string) : option string := Some s.

Definition scanner : SANE_Device :=
  {| dev_name := "test:0"; dev_vendor := "ACME"; dev_model := "S1";
     dev_type := "flatbed scanner" |}.

Definition descriptor (name : string) (t : SANE_Value_Type) (size : Z)
  : option SANE_Option_Descriptor :=
  Some {| od_name := Some name; od_type := t; od_size := size; od_cap := 5 |}.

(** Option 0 is the option count; option 3 is the button, option 5 the
    mode. *)
Definition scanner_options : list (option SANE_Option_Descriptor) :=
  [ descriptor "" SANE_TYPE_INT 4;
    descriptor "resolution" SANE_TYPE_INT 4;
    descriptor "depth" SANE_TYPE_INT 4;
    descriptor "button" SANE_TYPE_BOOL 4;
    descriptor "source" SANE_TYPE_GROUP 0;
    descriptor "mode" SANE_TYPE_STRING 32 ].

Definition numerical_action (title filter script_ : string) (from to : Z) : cfg_action :=
  {| action_title := Some title; action_filter := filter;
     action_script := Some script_;
     numerical_from_value := from; numerical_to_value := to;
     string_from_value := ""; string_to_value := "" |}.

Definition string_action (title filter script_ from to : string) : cfg_action :=
  {| action_title := Some title; action_filter := filter;
     action_script := Some script_;
     numerical_from_value := 0; numerical_to_value := 1;
     string_from_value := from; string_to_value := to |}.

Definition config (actions : list cfg_action) (fns : list cfg_function)
    (multiple : bool) : cfg_t :=
  {| cfg_global := {| section_title := None; section_filter := "";
                      section_actions := actions; section_functions := fns |};
     cfg_timeout := 100;
     cfg_multiple_actions := multiple;
     cfg_environment_device := Some "SCANBD_DEVICE";
     cfg_environment_action := Some "SCANBD_ACTION";
     cfg_devices := [] |}.

Definition initial (w : scripted) : PState scripted unit string :=
  {| world := w; st := start_slot scanner; trace := []; external := [] |}.

Definition run_sane_poll (c : cfg_t) (iterations : nat) (w : scripted)
  : Res scripted unit string unit :=
  sane_poll sane rx os penv c SCANBD_NULL_STRING C_TIMEOUT_DEF make_script_path_abs
    iterations (initial w).

Definition events {A} (r : Res scripted unit string A) : list event :=
  fst <$> trace (final r).

(** The [trigger] bus signals and the scripts spawned among some events. *)
Definition trigger_signals (evs : list event) : nat :=
  length (omap (λ e, match e with
                     | EvDbusSignalArgv SCANBD_DBUS_SIGNAL_TRIGGER argv => Some argv
                     | _ => None
                     end) evs).

Definition spawned (evs : list event) : list string :=
  omap (λ e, match e with EvFork path _ => Some path | _ => None end) evs.

(** The values [get_sane_option_value] returned for option [index]. *)
Definition values_read (index : nat) (evs : list event) : list (Z * option string) :=
  omap (λ e, match e with
             | EvGetValue i num str => if (i =? index)%nat then Some (num, str) else None
             | _ => None
             end) evs.

(** The events of iteration [k] (counted from 1) of a run. *)
Definition iteration_events (c : cfg_t) (w : scripted) (k : nat) : list event :=
  drop (length (events (run_sane_poll c (k - 1) w))) (events (run_sane_poll c k w)).

(** The installed actions at the end of a run, and what each last
    observed. *)
Definition installed {A} (r : Res scripted unit string A) : list (sane_dev_option string) :=
  take (num_of_options_with_scripts (st (final r))) (opts (st (final r))).

Definition last_observed {A} (r : Res scripted unit string A)
  : list (Z * option string) :=
  (λ o, (num_value (value o), str_value_str (value o))) <$> installed r.

Definition good (v : Z) : reading := Word SANE_STATUS_GOOD v.

Definition device (rs : list (nat * list reading)) : scripted :=
  {| descriptors := scanner_options; readings := rs; opens := [] |}.

End Bench.

(** ** Scenarios *)

Module Scenario.
Import Bench.

(** Scenario 1 of the specification: the button (option 3) is 0 when the
    rule is installed and then reads 0, 0, 1, 1, 0; the rule is
    [^button$], from 0 to 1, script [/tmp/s.sh]. *)
Definition button_config : cfg_t :=
  config [numerical_action "scan" "^button$" "/tmp/s.sh" 0 1] [] false.

Definition button_device : scripted :=
  device [(3%nat, [good 0; good 0; good 0; good 1; good 1; good 0])].

(** A rule from 1 to 0 on a button that is 1 when the rule is installed
    and whose next read fails. *)
Definition release_config : cfg_t :=
  config [numerical_action "release" "^button$" "/tmp/s.sh" 1 0] [] false.

Definition failing_device : scripted :=
  device [(3%nat, [good 1; Word SANE_STATUS_IO_ERROR 1])].

(** A string rule whose from-pattern has an unmatched parenthesis. *)
Definition broken_pattern_config : cfg_t :=
  config [string_action "color" "^mode$" "/tmp/s.sh" "(" "^scan-.*"] [] false.

Definition mode_device : scripted :=
  device [(5%nat, [Text SANE_STATUS_GOOD "idle"; Text SANE_STATUS_GOOD "idle"])].

(** A function and an action on the same option. *)
Definition shared_config : cfg_t :=
  config [numerical_action "scan" "^button$" "/tmp/s.sh" 0 1]
         [{| function_title := Some "button"; function_filter := "^button$";
             function_env := "SCANBD_FUNCTION_BUTTON" |}]
         false.

Definition pressed_device : scripted :=
  device [(3%nat, [good 0; good 1; good 1])].

(** An action on the button and a function on the resolution. *)
Definition resolution_config : cfg_t :=
  config [numerical_action "scan" "^button$" "/tmp/s.sh" 0 1]
         [{| function_title := Some "resolution"; function_filter := "^resolution$";
             function_env := "SCANBD_FUNCTION_RESOLUTION" |}]
         false.

Definition resolution_device : scripted :=
  device [(3%nat, [good 0; good 1; good 1]); (1%nat, [good 300; good 300])].

Definition resolution_env : list (option string) :=
  [Some "SCANBD_FUNCTION_RESOLUTION=300"; Some "PATH=/usr/bin:/bin"; Some "PWD=/";
   Some "USER=root"; Some "HOME=/root"; Some "SCANBD_DEVICE=test:0";
   Some "SCANBD_ACTION=scan"; None].

(** Two actions on the button and one on the mode, with
    [multiple_actions]. *)
Definition multiple_config : cfg_t :=
  config [numerical_action "a" "^button$" "/tmp/a.sh" 0 1;
          numerical_action "b" "^button$" "/tmp/b.sh" 0 1;
          string_action "color" "^mode$" "/tmp/c.sh" "^idle$" "^scan-"]
         [] true.

Definition multiple_device : scripted :=
  device [(3%nat, [good 0; good 0; good 1; good 1]);
          (5%nat, [Text SANE_STATUS_GOOD "idle"; Text SANE_STATUS_GOOD "idle";
                   Text SANE_STATUS_GOOD "scan-color"])].

(** States, rules and values of these scenarios that the statements below
    refer to. *)

(** The event and the slot at position [i] of a run. *)
Definition event_at (c : cfg_t) (w : scripted) (iterations i : nat) : event :=
  default EvMutexLock (fst <$> trace (final (run_sane_poll c iterations w)) !! i).

Definition slot_at (c : cfg_t) (w : scripted) (iterations i : nat)
  : sane_thread unit string :=
  default (start_slot scanner)
    (snd <$> trace (final (run_sane_poll c iterations w)) !! i).

(** The button scenario when the loop starts its third iteration. *)
Definition third_iteration : PState scripted unit string :=
  final (run_sane_poll button_config 2 button_device).

Definition button_rule : sane_dev_option string :=
  {| opt_number := 3;
     from_value := {| num_value := 0; str_value_str := None; str_value_reg := None |};
     to_value := {| num_value := 1; str_value_str := None; str_value_reg := None |};
     value := {| num_value := 0; str_value_str := None; str_value_reg := None |};
     script := Some "/tmp/s.sh";
     action_name := Some "scan" |}.

Definition button_descriptor : SANE_Option_Descriptor :=
  {| od_name := Some "button"; od_type := SANE_TYPE_BOOL; od_size := 4; od_cap := 5 |}.

Definition one : sane_opt_value string :=
  {| num_value := 1; str_value_str := None; str_value_reg := None |}.

(** The slot of the button scenario while the script runs, and after the
    dispatcher cleared the trigger. *)
Definition busy_slot : sane_thread unit string :=
  slot_at button_config button_device 3 18.

Definition idle_slot : sane_thread unit string :=
  slot_at button_config button_device 3 22.

(** The release scenario when the loop starts. *)
Definition release_start : PState scripted unit string :=
  final (run_sane_poll release_config 0 failing_device).

Definition release_rule : sane_dev_option string :=
  {| opt_number := 3;
     from_value := {| num_value := 1; str_value_str := None; str_value_reg := None |};
     to_value := {| num_value := 0; str_value_str := None; str_value_reg := None |};
     value := {| num_value := 1; str_value_str := None; str_value_reg := None |};
     script := Some "/tmp/s.sh";
     action_name := Some "release" |}.

(** The button scenario after one iteration, with a request of another
    thread for action 0. *)
Definition requested : PState scripted unit string :=
  let s := final (run_sane_poll button_config 1 button_device) in
  {| world := world s; st := external_trigger (st s) 0;
     trace := trace s; external := external s |}.

(** The scenario with several actions when the loop starts. *)
Definition multiple_start : PState scripted unit string :=
  final (run_sane_poll multiple_config 0 multiple_device).

End Scenario.

(** * Specification predicates *)

(** ** Reasoning about runs of the polling thread *)

Section WP.
Context {World Handle regex_t : Type}.

(** [wp m Q E s]: from [s], [m] returns a value and a state that satisfy
    [Q], or ends the thread or the process in a state that satisfies [E]. *)
Definition wp {A} (m : M World Handle regex_t A)
    (Q : A → PState World Handle regex_t → Prop)
    (E : PState World Handle regex_t → Prop) (s : PState World Handle regex_t) : Prop :=
  match m s with
  | Ok a s' => Q a s'
  | Exit s' => E s'
  | Abort s' => E s'
  end.

End WP.

(** ** What every event of a run satisfies *)

Section TraceInvariant.
Context {World Handle regex_t : Type}.
Variable sane : sane_api World Handle.
Variable cfg : cfg_t.
Notation thread := (sane_thread Handle regex_t).
Notation PState := (PState World Handle regex_t).

(** An installed action of [t] has the option of the function [f]. *)
Definition shared (t : thread) (f : sane_dev_function) : Prop :=
  is_Some (find_option (opts t) (num_of_options_with_scripts t) (fn_number f)).

(** [odesc] is a descriptor the library gives for the option of an
    installed action of [t]. *)
Definition polled_descriptor (t : thread) (odesc : SANE_Option_Descriptor) : Prop :=
  ∃ w hd si o,
    (si < num_of_options_with_scripts t)%nat ∧
    opts t !! si = Some o ∧
    sane_get_option_descriptor sane w hd (opt_number o) = Some odesc.

(** [entry] is the entry of the function [f] for the value [v]: the name
    [env] of the function and, after [=], the number of the value as
    [%lu] or its string as [%s], by the test on the types of the
    descriptors that the library gives for the option of the function
    ([fdesc]) and for the option of the action that is polled
    ([odesc]). *)
Definition entry_of (t : thread) (f : sane_dev_function) (v : sane_opt_value regex_t)
    (entry : string) : Prop :=
  ∃ w hd fdesc odesc,
    sane_get_option_descriptor sane w hd (fn_number f) = Some fdesc ∧
    polled_descriptor t odesc ∧
    if function_is_numerical fdesc odesc
    then entry = format_env_lu (env f) (num_value v)
    else is_string (od_type fdesc) = true ∧
         entry = format_env_s (env f) (str_value_str v).

(** The first slots of the environment hold the entries of the functions
    of [t], in the order of the array, for the values [vs]; the value of a
    function whose option an installed action has is the one
    [sane_option_value_init] makes. *)
Definition function_entries (t : thread) (vs : list (sane_opt_value regex_t))
    (envp : list (option string)) : Prop :=
  length vs = num_of_options_with_functions t ∧
  ∀ k, (k < num_of_options_with_functions t)%nat →
    ∃ f v entry,
      functions t !! k = Some f ∧ vs !! k = Some v ∧
      envp !! k = Some (Some entry) ∧
      entry_of t f v entry ∧
      (shared t f → v = sane_option_value_init).

(** The shape of the environment handed to the bus and to the script, for
    the slot [t] at that moment. *)
Definition env_shape (t : thread) (envp : list (option string)) : Prop :=
  let F := num_of_options_with_functions t in
  length envp = (F + 6 + 1)%nat ∧
  (∃ vs, function_entries t vs envp) ∧
  (∃ v, envp !! F = Some (Some (format_env_s (Some "PATH") (Some v)))) ∧
  (∃ v, envp !! (F + 1)%nat = Some (Some (format_env_s (Some "PWD") (Some v)))) ∧
  (∃ v, envp !! (F + 2)%nat = Some (Some (format_env_s (Some "USER") (Some v)))) ∧
  (∃ v, envp !! (F + 3)%nat = Some (Some (format_env_s (Some "HOME") (Some v)))) ∧
  (∃ ev, cfg_environment_device cfg = Some ev ∧
         envp !! (F + 4)%nat
         = Some (Some (format_env_s (Some ev) (Some (dev_name (dev t)))))) ∧
  (∃ ev fired, cfg_environment_action cfg = Some ev ∧
               opts t !! Z.to_nat (triggered_option t) = Some fired ∧
               envp !! (F + 5)%nat
               = Some (Some (format_env_s (Some ev) (action_name fired)))) ∧
  envp !! (F + 6)%nat = Some None.

(** The calls of [get_sane_option_value] that the assembly of the
    environment makes for the values [vs]: one for each function whose
    option no installed action has, in the order of the array. *)
Definition function_read (t : thread) (f : sane_dev_function) (v : sane_opt_value regex_t)
  : list event :=
  match find_option (opts t) (num_of_options_with_scripts t) (fn_number f) with
  | Some _ => []
  | None => [EvGetValue (fn_number f) (num_value v) (str_value_str v)]
  end.

Definition function_reads (t : thread) (vs : list (sane_opt_value regex_t)) : list event :=
  mjoin (zip_with (function_read t)
           (take (num_of_options_with_functions t) (functions t)) vs).

(** The environment of the [trigger] signal at index [i] of a trace is
    made of the values that were read just before: the entries of the
    functions are those for values [vs], and the events before the signal
    are the reads of these values and the [scan-begin] signal. *)
Definition env_read (tr : list (event * thread)) (i : nat) (t : thread)
    (envp : list (option string)) : Prop :=
  ∃ vs j t',
    function_entries t vs envp ∧
    (∀ m ev, function_reads t vs !! m = Some ev →
             ∃ t'', tr !! (j + m)%nat = Some (ev, t'')) ∧
    tr !! (j + length (function_reads t vs))%nat
    = Some (EvDbusSignal SCANBD_DBUS_SIGNAL_SCAN_BEGIN (dev_name (dev t)), t') ∧
    i = (j + length (function_reads t vs) + 1)%nat.

Definition event_ok (e : event) (t : thread) : Prop :=
  trigger_inv t ∧
  match e with
  | EvFork _ envp => h t = None ∧ env_shape t envp
  | EvWaitpid => h t = None
  | EvDbusSignalArgv _ envp => env_shape t envp
  | _ => True
  end.

Definition is_fork (e : event) : bool :=
  match e with EvFork _ _ => true | _ => false end.

(** The window in which the child process of a script runs: the [fork]
    at index [i] comes right after [sane_close], the release of the
    device mutex and the sleep, and [waitpid] returns right after it; from
    the release of the mutex on, the handle is NULL. *)
Definition script_window (tr : list (event * thread)) (i : nat) : Prop :=
  ∃ j t1 t2 ms t3 t4,
    i = (j + 3)%nat ∧
    tr !! j = Some (EvSaneClose, t1) ∧
    tr !! (j + 1)%nat = Some (EvMutexUnlock, t2) ∧ h t2 = None ∧
    tr !! (j + 2)%nat = Some (EvUsleep ms, t3) ∧ h t3 = None ∧
    tr !! (j + 4)%nat = Some (EvWaitpid, t4) ∧ h t4 = None.

Definition is_argv (e : event) : bool :=
  match e with EvDbusSignalArgv _ _ => true | _ => false end.

(** The environment of the [fork] at index [i] is the one of the
    [trigger] signal sent before the device was closed. *)
Definition env_signalled (tr : list (event * thread)) (i : nat)
    (envp : list (option string)) : Prop :=
  ∃ j t, i = (j + 4)%nat ∧
         tr !! j = Some (EvDbusSignalArgv SCANBD_DBUS_SIGNAL_TRIGGER envp, t).

Definition events_ok (tr : list (event * thread)) : Prop :=
  Forall (λ et, event_ok (fst et) (snd et)) tr ∧
  (∀ i e t, tr !! i = Some (e, t) → is_fork e = true → script_window tr i) ∧
  (∀ i sig envp t, tr !! i = Some (EvDbusSignalArgv sig envp, t) →
                   sig = SCANBD_DBUS_SIGNAL_TRIGGER ∧ env_read tr i t envp) ∧
  (∀ i path envp t, tr !! i = Some (EvFork path envp, t) → env_signalled tr i envp).

Definition trace_ok (s : PState) : Prop := events_ok (trace s).

(** No action is active. *)
Definition idle (t : thread) : Prop :=
  triggered t = false ∧ triggered_option t = -1.

(** While the rules are compiled. *)
Definition compiling (s : PState) : Prop := idle (st s) ∧ trace_ok s.

(** While the loop runs over [count] installed actions. *)
Definition polling (count : nat) (s : PState) : Prop :=
  num_of_options_with_scripts (st s) = count ∧ trigger_inv (st s) ∧ trace_ok s.

End TraceInvariant.

(** ** The states of a device slot that other threads can observe *)

Section Observable.
Context {World Handle regex_t : Type}.
Variable sane : sane_api World Handle.
Variable rx : regex_api regex_t.
Variable os : os_api World.
Variable penv : process_env.
Variable cfg : cfg_t.
Variable SCANBD_NULL_STRING : string.
Variable C_TIMEOUT_DEF : Z.
Variable make_script_path_abs : string → option string.

Notation thread := (sane_thread Handle regex_t).

(** The state in which [start_sane_threads] creates the polling thread of
    device [d]. *)
Definition started (w : World) (d : SANE_Device) (requests : list (option Z))
  : PState World Handle regex_t :=
  {| world := w; st := start_slot d; trace := []; external := requests |}.

(** The trace of [sane_poll] on device [d], observed for a number of
    iterations. *)
Definition poll_trace (w : World) (d : SANE_Device) (requests : list (option Z))
    (iterations : nat) : list (event * thread) :=
  trace (final (sane_poll sane rx os penv cfg SCANBD_NULL_STRING C_TIMEOUT_DEF
                  make_script_path_abs iterations (started w d requests))).

(** A slot is observed when it is created, at each event of its polling
    thread, and when [sane_trigger_action] has set the trigger; the views
    [sane_trigger_action] has of the slot are themselves observed states,
    with the number of installed actions it validated the action against. *)
Inductive observable : thread → Prop :=
| observable_start d :
    observable (start_slot d)
| observable_poll w d requests iterations i e t :
    poll_trace w d requests iterations !! i = Some (e, t) →
    observable t
| observable_trigger number_of_dev action g g_wakeups t t_wakeups t' tr :
    observable t →
    Forall (λ v, observable v ∧
                 num_of_options_with_scripts v = num_of_options_with_scripts t)
           t_wakeups →
    sane_trigger_action number_of_dev action g g_wakeups t t_wakeups = (Triggered t', tr) →
    observable t'.

End Observable.

(** ** The comparison step *)

Section Comparison.
Context {Handle regex_t : Type}.
Notation thread := (sane_thread Handle regex_t).

(** The slot after [st->opts[si].value = value]. *)
Definition stored (t : thread) (si : nat) (v : sane_opt_value regex_t) : thread :=
  set_opts t (alter (λ o, set_value o v) si (opts t)) (num_of_options_with_scripts t).

(** The condition of the numerical comparison, as the specification words
    it: the last observed value is the rule's from-value and the current
    value is its to-value. *)
Definition numeric_transition (o : sane_dev_option regex_t) (current : sane_opt_value regex_t)
  : Prop :=
  num_value (value o) = num_value (from_value o) ∧
  num_value current = num_value (to_value o).

End Comparison.

(** ** Reads of an option within one pass over the actions *)

Section Reads.
Context {World Handle regex_t : Type}.
Notation thread := (sane_thread Handle regex_t).
Notation PState := (PState World Handle regex_t).

(** The number and the string of a value. *)
Definition reading_of (v : sane_opt_value regex_t) : Z * option string :=
  (num_value v, str_value_str v).

(** The values [get_sane_option_value] returned for option [number] in a
    trace. *)
Definition reads_of (number : nat) (tr : list (event * thread)) : list (Z * option string) :=
  omap (λ et, match fst et with
              | EvGetValue index num str =>
                if (index =? number)%nat then Some (num, str) else None
              | _ => None
              end) tr.

(** [number] is the option number of an installed action of [t]. *)
Definition polled (t : thread) (number : nat) : Prop :=
  is_Some (find_option (opts t) (num_of_options_with_scripts t) number).

(** Every installed action has a script. *)
Definition scripts_present (t : thread) : Prop :=
  ∀ i o, (i < num_of_options_with_scripts t)%nat → opts t !! i = Some o →
         ∃ script_, script o = Some script_ ∧ script_ ≠ EmptyString.

(** What a pass leaves alone: the option number and the script of each
    action, and the number of installed actions. *)
Definition same_rules (t t' : thread) : Prop :=
  (λ o, (opt_number o, script o)) <$> opts t' = (λ o, (opt_number o, script o)) <$> opts t ∧
  num_of_options_with_scripts t' = num_of_options_with_scripts t.

(** From [s] to [s'] the actions are unchanged and no option of an
    installed action is read. *)
Definition no_polled_read (s s' : PState) : Prop :=
  opts (st s') = opts (st s) ∧
  num_of_options_with_scripts (st s') = num_of_options_with_scripts (st s) ∧
  ∃ new, trace s' = trace s ++ new ∧
         ∀ number, polled (st s) number → reads_of number new = [].

(** The state of a pass that started in [s] after the first [k] actions:
    the option of each action among them was read once, and each of these
    actions holds the value of that read; the options of the later actions
    were not read yet. *)
Definition pass_inv (s : PState) (k : nat) (s' : PState) : Prop :=
  same_rules (st s) (st s') ∧
  ∃ new, trace s' = trace s ++ new ∧
         ∀ number, polled (st s) number →
           match find_option (opts (st s)) k number with
           | None => reads_of number new = []
           | Some _ =>
             ∃ r, reads_of number new = [r] ∧
                  ∀ i o, (i < k)%nat → opts (st s') !! i = Some o →
                         opt_number o = number → reading_of (value o) = r
           end.

(** In a pass that is cut short no option of an installed action was read
    twice. *)
Definition pass_cut (s s' : PState) : Prop :=
  ∃ new, trace s' = trace s ++ new ∧
         ∀ number, polled (st s) number → (length (reads_of number new) ≤ 1)%nat.

(** The outcome of a pass that started in [s]: when it is completed, the
    option of every installed action was read exactly once and every
    action with that option holds the value of that read; when it is cut
    short (the thread ended or the process aborted), no such option was
    read twice. *)
Definition read_once (s : PState) (r : Res World Handle regex_t unit) : Prop :=
  match r with
  | Ok _ s' =>
    ∃ new, trace s' = trace s ++ new ∧
      ∀ si o, (si < num_of_options_with_scripts (st s))%nat →
              opts (st s) !! si = Some o →
        ∃ r, reads_of (opt_number o) new = [r] ∧
             ∀ i o', (i < num_of_options_with_scripts (st s))%nat →
                     opts (st s') !! i = Some o' →
                     opt_number o' = opt_number o →
                     reading_of (value o') = r
  | Exit s' | Abort s' =>
    ∃ new, trace s' = trace s ++ new ∧
      ∀ si o, (si < num_of_options_with_scripts (st s))%nat →
              opts (st s) !! si = Some o →
              (length (reads_of (opt_number o) new) ≤ 1)%nat
  end.

End Reads.

(** ** The locking strategy

    The strategy the source states for its mutexes: first [sane_mutex],
    then the mutex of one device, never more than these two; a condition
    variable is waited on and broadcast, and the trigger fields of a device
    are written, by the holder of the mutex that belongs to it. *)

#[global] Instance mutex_eq_dec : EqDecision mutex.
Proof. solve_decision. Defined.




(** ** What the polling thread does with the device and with scripts *)

Section TraceFacts.
Context {Handle regex_t : Type}.
Variable SCANBD_NULL_STRING : string.
Variable make_script_path_abs : string → option string.
Notation thread := (sane_thread Handle regex_t).

(** An entry of the environment fits the buffer of [NAME_MAX + 1] bytes
    that is allocated for it. *)
Definition entry_fits (x : option string) : Prop :=
  ∀ entry, x = Some entry → (String.length entry < NAME_MAX)%nat.

(** [path] is the script of the action that is triggered in [t], made
    absolute, and is not [SCANBD_NULL_STRING]. *)
Definition spawned_from (t : thread) (path : string) : Prop :=
  path ≠ SCANBD_NULL_STRING ∧
  ∃ fired script_,
    opts t !! Z.to_nat (triggered_option t) = Some fired ∧
    script fired = Some script_ ∧
    make_script_path_abs script_ = Some path.

Definition event_fine (e : event) (t : thread) : Prop :=
  match e with
  | EvGetValue _ _ _ | EvSaneClose => is_Some (h t)
  | EvDbusSignalArgv _ envp => triggered t = true ∧ Forall entry_fits envp
  | EvFork path envp =>
    triggered t = true ∧ spawned_from t path ∧ Forall entry_fits envp
  | EvWaitpid => triggered t = true
  | _ => True
  end.

Definition events_fine (tr : list (event * thread)) : Prop :=
  Forall (λ et, event_fine (fst et) (snd et)) tr.

End TraceFacts.

(** ** The arrays of installed actions and functions *)

Section Tables.
Context {World Handle regex_t : Type}.
Variable cfg : cfg_t.
Notation thread := (sane_thread Handle regex_t).

(** The option numbers of the installed actions and of the installed
    functions, in the order of the arrays. *)
Definition action_numbers (t : thread) : list nat :=
  opt_number <$> take (num_of_options_with_scripts t) (opts t).

Definition function_numbers (t : thread) : list nat :=
  fn_number <$> take (num_of_options_with_functions t) (functions t).

(** The option numbers the compilers loop over:
    [for (int opt = 1; opt < st->num_of_options; opt += 1)]. *)
Definition option_number_ok (t : thread) (number : nat) : Prop :=
  (1 ≤ number < num_of_options t)%nat.

(** Both arrays have [num_of_options] elements and the installed actions
    and functions lie within them; the installed actions and functions
    are for options the compilers loop over; no two installed functions
    are for the same option, and no two installed actions either unless
    [multiple_actions] is set. *)
Definition tables_ok (t : thread) : Prop :=
  length (opts t) = num_of_options t ∧
  length (functions t) = num_of_options t ∧
  (num_of_options_with_scripts t ≤ num_of_options t)%nat ∧
  (num_of_options_with_functions t ≤ num_of_options t)%nat ∧
  Forall (option_number_ok t) (action_numbers t) ∧
  Forall (option_number_ok t) (function_numbers t) ∧
  NoDup (function_numbers t) ∧
  (cfg_multiple_actions cfg = false → NoDup (action_numbers t)).

#[global] Instance option_number_ok_dec t number : Decision (option_number_ok t number).
Proof. unfold option_number_ok. apply _. Defined.

#[global] Instance tables_ok_dec t : Decision (tables_ok t).
Proof. unfold tables_ok. apply _. Defined.

(** The arrays are as [tables_ok] says in the slot, and in every snapshot
    of the trace if they were in those of the trace before ([before]). *)
Definition tables_inv (before : Prop) (s : PState World Handle regex_t) : Prop :=
  tables_ok (st s) ∧ (before → Forall (λ et, tables_ok (snd et)) (trace s)).

(** The slot [n] that the search of [sane_find_matching_options] leaves
    for option [number]: the first free one, or the one of the action
    that is overridden. *)
Definition slot_for (t : thread) (n number : nat) : Prop :=
  (n = num_of_options_with_scripts t ∧
   (cfg_multiple_actions cfg = false → number ∉ action_numbers t)) ∨
  ((n < num_of_options_with_scripts t)%nat ∧
   ∃ old, opts t !! n = Some old ∧ opt_number old = number).

End Tables.

(** * Properties *)

(** ** The hash of a sampled string *)

Lemma to_ulong_idem z : to_ulong (to_ulong z) = to_ulong z.
Proof. unfold to_ulong. apply Z.mod_mod. discriminate. Qed.

Lemma to_ulong_eq z z' : to_ulong z = to_ulong z' → ∀ k c, to_ulong (z * k + c) = to_ulong (z' * k + c).
Proof.
  unfold to_ulong. intros E k c.
  rewrite (Z.add_mod (z * k)), (Z.add_mod (z' * k)) by discriminate.
  rewrite (Z.mul_mod z), (Z.mul_mod z') by discriminate.
  by rewrite E.
Qed.

Lemma hash_step_spec h c : hash_step h c = to_ulong (h * 33 + int_of_char c).
Proof.
  unfold hash_step, to_ulong. rewrite Z.shiftl_mul_pow2 by lia.
  assert (ULONG_MODULUS ≠ 0) as Hm by discriminate.
  rewrite Z.add_mod_idemp_r, Z.add_mod_idemp_l by done.
  rewrite <- Z.add_assoc, Z.add_mod_idemp_l by done.
  f_equal. change (2 ^ 5) with 32. lia.
Qed.

Lemma djb2_from_congr l : ∀ h h', to_ulong h = to_ulong h' →
  to_ulong (djb2_from h l) = to_ulong (djb2_from h' l).
Proof.
  induction l as [|c l IH]; intros h h' E; simpl; [done|].
  apply IH. by apply to_ulong_eq.
Qed.

Lemma hash_loop_spec s : ∀ h,
  Forall (λ c, c ≠ NUL) (list_ascii_of_string s) →
  to_ulong (hash_loop h s) = to_ulong (djb2_from h (list_ascii_of_string s)).
Proof.
  induction s as [|c s IH]; intros h Hs; simpl; [done|].
  inversion Hs as [|? ? Hc Hrest]; subst.
  unfold is_nul. rewrite bool_decide_eq_false_2 by done.
  rewrite IH by done. apply djb2_from_congr.
  rewrite hash_step_spec. apply to_ulong_idem.
Qed.

Lemma hash_loop_range s : ∀ h, to_ulong h = h → to_ulong (hash_loop h s) = hash_loop h s.
Proof.
  induction s as [|c s IH]; intros h Hh; simpl; [done|].
  destruct (is_nul c); [done|]. apply IH. unfold hash_step. apply to_ulong_idem.
Qed.

Lemma cstring_of_buffer_no_nul buf :
  Forall (λ c, c ≠ NUL) (list_ascii_of_string (cstring_of_buffer buf)).
Proof.
  induction buf as [|c buf IH]; simpl; [constructor|].
  unfold is_nul. case_bool_decide; simpl; [constructor|]. by constructor.
Qed.

Lemma hash_djb2 s :
  Forall (λ c, c ≠ NUL) (list_ascii_of_string s) → hash s = to_ulong (djb2 s).
Proof.
  intros Hs. unfold hash, djb2. rewrite <- hash_loop_range by done.
  by apply hash_loop_spec.
Qed.

(** C10: a string option that is sampled successfully yields the string and,
    as its number, the djb2 hash of that string ([h] starts at 5381 and
    becomes [h * 33 + c] for each character, in [unsigned long]
    arithmetic); the value of a numerical option has no string. *)
Theorem get_sane_option_value_hash {World Handle regex_t : Type}
    (sane : sane_api World Handle) (w : World) (hd : Handle) (index : nat)
    (odesc : SANE_Option_Descriptor) :
  sane_get_option_descriptor sane w hd index = Some odesc →
  (od_type odesc = SANE_TYPE_STRING →
   status_good (snd (fst (sane_control_option_string sane w hd index))) = true →
   let s := cstring_of_buffer
              (<[Z.to_nat (od_size odesc) := NUL]>
                 (string_buffer (od_size odesc)
                    (snd (sane_control_option_string sane w hd index)))) in
   snd (get_sane_option_value (regex_t := regex_t) sane w (Some hd) index)
   = {| num_value := to_ulong (djb2 s); str_value_str := Some s; str_value_reg := None |})
  ∧ (is_numerical (od_type odesc) = true →
     str_value_str (snd (get_sane_option_value (regex_t := regex_t) sane w (Some hd) index))
     = None).
Proof.
  intros Hdesc. split.
  - intros Htype Hgood s. unfold get_sane_option_value. rewrite Hdesc, Htype. simpl.
    destruct (sane_control_option_string sane w hd index) as [[w' status] written].
    simpl in *. rewrite Hgood. simpl. fold s.
    by rewrite (hash_djb2 s) by apply cstring_of_buffer_no_nul.
  - intros Hnum. unfold get_sane_option_value. rewrite Hdesc, Hnum.
    destruct (_ <=? _); [|done].
    destruct (sane_control_option_word sane w hd index) as [[w' status] v].
    by destruct (status_good status).
Qed.


Lemma get_sane_option_value_hash_witness :
  snd (get_sane_option_value (regex_t := string) Bench.sane Scenario.mode_device (Some tt) 5)
  = {| num_value := to_ulong (djb2 "idle"); str_value_str := Some "idle";
       str_value_reg := None |}.
Proof.
  refine (proj1 (get_sane_option_value_hash (regex_t := string) Bench.sane
                   Scenario.mode_device tt 5
                   {| od_name := Some "mode"; od_type := SANE_TYPE_STRING;
                      od_size := 32; od_cap := 5 |} _) _ _); reflexivity.
Defined.

(** ** Rules of [wp] *)

Section WPRules.
Context {World Handle regex_t : Type}.
Notation PState := (PState World Handle regex_t).
Notation M := (M World Handle regex_t).

Lemma wp_ret {A} (a : A) Q E (s : PState) : Q a s → wp (ret a) Q E s.
Proof. done. Qed.

Lemma wp_bind {A B} (m : M A) (f : A → M B) Q E s :
  wp m (λ a s', wp (f a) Q E s') E s → wp (bind m f) Q E s.
Proof. unfold wp, bind. by destruct (m s). Qed.

Lemma wp_mono {A} (m : M A) (Q Q' : A → PState → Prop) (E E' : PState → Prop) s :
  wp m Q E s → (∀ a s', Q a s' → Q' a s') → (∀ s', E s' → E' s') → wp m Q' E' s.
Proof. unfold wp. destruct (m s); auto. Qed.

Lemma wp_get_st Q E (s : PState) : Q (st s) s → wp get_st Q E s.
Proof. done. Qed.

Lemma wp_get_world Q E (s : PState) : Q (world s) s → wp get_world Q E s.
Proof. done. Qed.

Lemma wp_modify_st f Q E (s : PState) :
  Q tt {| world := world s; st := f (st s); trace := trace s; external := external s |} →
  wp (modify_st f) Q E s.
Proof. done. Qed.

Lemma wp_put_world w Q E (s : PState) :
  Q tt {| world := w; st := st s; trace := trace s; external := external s |} →
  wp (put_world w) Q E s.
Proof. done. Qed.

Lemma wp_emit e Q E (s : PState) :
  Q tt {| world := world s; st := st s; trace := trace s ++ [(e, st s)];
          external := external s |} →
  wp (emit e) Q E s.
Proof. done. Qed.

Lemma wp_assert b Q E (s : PState) :
  (b = true → Q tt s) → (b = false → E s) → wp (assert b) Q E s.
Proof. unfold wp, assert. destruct b; auto. Qed.

Lemma wp_abort {A} (Q : A → PState → Prop) E (s : PState) : E s → wp abort Q E s.
Proof. done. Qed.

Lemma wp_pthread_exit {A} (Q : A → PState → Prop) E (s : PState) : E s → wp pthread_exit Q E s.
Proof. done. Qed.

Lemma wp_for_each {A} (I : PState → Prop) (l : list A) (body : A → M unit) E s :
  I s →
  (∀ x s', x ∈ l → I s' → wp (body x) (λ _, I) E s') →
  wp (for_each l body) (λ _, I) E s.
Proof.
  revert s. induction l as [|x l IH]; intros s Hs Hbody; simpl; [done|].
  apply wp_bind. eapply wp_mono; [apply Hbody; [left|done]| |done].
  intros ? s' Hs'. apply IH; [done|]. intros y s'' Hy. apply Hbody. by right.
Qed.

(** The same with an invariant that knows how far the loop got. *)
Lemma wp_for_each_seq (I : nat → PState → Prop) (n : nat) (body : nat → M unit) E s :
  I 0%nat s →
  (∀ k s', (k < n)%nat → I k s' → wp (body k) (λ _, I (S k)) E s') →
  wp (for_each (seq 0 n) body) (λ _, I n) E s.
Proof.
  intros Hs Hbody.
  assert (∀ m k s', (k + m = n)%nat → I k s' →
            wp (for_each (seq k m) body) (λ _, I n) E s') as Hgen.
  { intros m. induction m as [|m IH]; intros k s' Hk Hs'; simpl.
    - replace k with n in Hs' by lia. exact Hs'.
    - apply wp_bind. eapply wp_mono; [apply Hbody; [lia|done]| |done].
      intros ? s'' Hs''. apply IH; [lia|done]. }
  by apply Hgen.
Qed.

Lemma wp_fold_each {A B} (I : B → PState → Prop) (l : list A) (acc : B)
    (body : B → A → M B) E s :
  I acc s →
  (∀ acc' x s', x ∈ l → I acc' s' → wp (body acc' x) I E s') →
  wp (fold_each l acc body) I E s.
Proof.
  revert acc s. induction l as [|x l IH]; intros acc s Hs Hbody; simpl; [done|].
  apply wp_bind. eapply wp_mono; [apply Hbody; [left|done]| |done].
  intros acc' s' Hs'. apply IH; [done|]. intros acc'' y s'' Hy. apply Hbody. by right.
Qed.

(** The same with an invariant that knows how far the loop got. *)
Lemma wp_fold_each_seq {B} (I : nat → B → PState → Prop) (n : nat) (acc : B)
    (body : B → nat → M B) E s :
  I 0%nat acc s →
  (∀ k acc' s', (k < n)%nat → I k acc' s' → wp (body acc' k) (I (S k)) E s') →
  wp (fold_each (seq 0 n) acc body) (I n) E s.
Proof.
  intros Hs Hbody.
  assert (∀ m k acc' s', (k + m = n)%nat → I k acc' s' →
            wp (fold_each (seq k m) acc' body) (I n) E s') as Hgen.
  { intros m. induction m as [|m IH]; intros k acc' s' Hk Hs'; simpl.
    - replace k with n in Hs' by lia. exact Hs'.
    - apply wp_bind. eapply wp_mono; [apply Hbody; [lia|done]| |done].
      intros acc'' s'' Hs''. apply IH; [lia|done]. }
  by apply Hgen.
Qed.

Lemma wp_query_option_value (sane : sane_api World Handle) index
    (Q : sane_opt_value regex_t → PState → Prop) E s :
  (let r := get_sane_option_value (regex_t := regex_t) sane (world s) (h (st s)) index in
   Q (snd r)
     {| world := fst r; st := st s;
        trace := trace s ++ [(EvGetValue index (num_value (snd r)) (str_value_str (snd r)),
                              st s)];
        external := external s |}) →
  wp (query_option_value sane index) Q E s.
Proof. done. Qed.

Lemma wp_pthread_mutex_lock (Q : unit → PState → Prop) E s :
  Q tt {| world := world s; st := interfere (external s) (st s);
          trace := trace s ++ [(EvMutexLock, interfere (external s) (st s))];
          external := tail (external s) |} →
  wp pthread_mutex_lock Q E s.
Proof. done. Qed.

End WPRules.

Ltac wp_step :=
  lazymatch goal with
  | |- wp (bind _ _) _ _ _ => apply wp_bind
  | |- wp (ret _) _ _ _ => apply wp_ret
  | |- wp get_st _ _ _ => apply wp_get_st
  | |- wp get_world _ _ _ => apply wp_get_world
  | |- wp (modify_st _) _ _ _ => apply wp_modify_st
  | |- wp (put_world _) _ _ _ => apply wp_put_world
  | |- wp (emit _) _ _ _ => apply wp_emit
  | |- wp pthread_mutex_unlock _ _ _ => apply wp_emit
  | |- wp pthread_cond_broadcast _ _ _ => apply wp_emit
  | |- wp (usleep _) _ _ _ => apply wp_emit
  | |- wp abort _ _ _ => apply wp_abort
  | |- wp pthread_exit _ _ _ => apply wp_pthread_exit
  | |- wp (assert _) _ _ _ => apply wp_assert; intros ?
  | |- wp (if ?b then _ else _) _ _ _ => destruct b eqn:?
  | |- wp (match ?x with _ => _ end) _ _ _ => destruct x eqn:?
  end; cbv beta; cbn [st trace world external].

(** All the steps up to the calls of the functions of this file, which
    have lemmas of their own. *)
Ltac wp_go :=
  repeat first
    [ wp_step
    | lazymatch goal with
      | |- wp (query_option_value _ _) _ _ _ =>
        apply wp_query_option_value; cbv zeta; cbn [st trace world external]
      | |- wp (write_option _ _ _) _ _ _ =>
        apply wp_modify_st; cbn [st trace world external]
      | |- wp pthread_mutex_lock _ _ _ =>
        apply wp_pthread_mutex_lock; cbn [st trace world external]
      end ].

Create HintDb poll discriminated.

Section TraceInvariantFacts.
Context {World Handle regex_t : Type}.
Variable sane : sane_api World Handle.
Variable cfg : cfg_t.
Notation thread := (sane_thread Handle regex_t).
Notation PState := (PState World Handle regex_t).

Lemma idle_trigger_inv (t : thread) : idle t → trigger_inv t.
Proof. intros [Ht Ho]. unfold trigger_inv. by rewrite Ht. Qed.

Lemma idle_fields_trigger_inv (t : thread) :
  triggered t = false → triggered_option t = -1 → trigger_inv t.
Proof. intros. by apply idle_trigger_inv. Qed.

Lemma events_ok_nil : events_ok sane cfg ([] : list (event * thread)).
Proof.
  split; [constructor|].
  split; [|split]; intros; by rewrite lookup_nil in *.
Qed.

Lemma script_window_app (tr new : list (event * thread)) i :
  script_window tr i → script_window (tr ++ new) i.
Proof.
  intros (j & t1 & t2 & ms & t3 & t4 & -> & H1 & H2 & ? & H3 & ? & H4 & ?).
  exists j, t1, t2, ms, t3, t4.
  repeat split; try done; by apply lookup_app_l_Some.
Qed.

Lemma env_read_app (tr new : list (event * thread)) i t envp :
  env_read sane tr i t envp → env_read sane (tr ++ new) i t envp.
Proof.
  intros (vs & j & t' & Hentries & Hreads & Hbegin & ->).
  exists vs, j, t'. split; [done|]. split; [|split; [by apply lookup_app_l_Some|done]].
  intros m ev Hm. destruct (Hreads m ev Hm) as [t'' Hlook].
  exists t''. by apply lookup_app_l_Some.
Qed.

Lemma env_signalled_app (tr new : list (event * thread)) i envp :
  env_signalled tr i envp → env_signalled (tr ++ new) i envp.
Proof.
  intros (j & t & -> & Hj). exists j, t. split; [done|]. by apply lookup_app_l_Some.
Qed.

Lemma events_ok_app (tr new : list (event * thread)) :
  events_ok sane cfg tr →
  Forall (λ et, event_ok sane cfg (fst et) (snd et)) new →
  (∀ k e t, new !! k = Some (e, t) → is_fork e = true →
            script_window (tr ++ new) (length tr + k)) →
  (∀ k sig envp t, new !! k = Some (EvDbusSignalArgv sig envp, t) →
                   sig = SCANBD_DBUS_SIGNAL_TRIGGER ∧
                   env_read sane (tr ++ new) (length tr + k) t envp) →
  (∀ k path envp t, new !! k = Some (EvFork path envp, t) →
                    env_signalled (tr ++ new) (length tr + k) envp) →
  events_ok sane cfg (tr ++ new).
Proof.
  intros (Hall & Hwin & Hread & Hsig) Hnew Hwin' Hread' Hsig'. split; [|split; [|split]].
  - by apply Forall_app.
  - intros i e t Hi Hfork. apply lookup_app_Some in Hi as [Hi|[Hlen Hi]].
    + apply script_window_app. by eapply Hwin.
    + replace i with (length tr + (i - length tr))%nat by lia. by eapply Hwin'.
  - intros i sig envp t Hi. apply lookup_app_Some in Hi as [Hi|[Hlen Hi]].
    + destruct (Hread _ _ _ _ Hi) as [-> Hr]. split; [done|]. by apply env_read_app.
    + replace i with (length tr + (i - length tr))%nat by lia. by eapply Hread'.
  - intros i path envp t Hi. apply lookup_app_Some in Hi as [Hi|[Hlen Hi]].
    + apply env_signalled_app. by eapply Hsig.
    + replace i with (length tr + (i - length tr))%nat by lia. by eapply Hsig'.
Qed.

Lemma events_ok_snoc (tr : list (event * thread)) e t :
  events_ok sane cfg tr → event_ok sane cfg e t →
  is_fork e = false → is_argv e = false →
  events_ok sane cfg (tr ++ [(e, t)]).
Proof.
  intros Htr He Hfork Hargv. apply events_ok_app;
    [done|repeat (apply Forall_cons; split; [done|]); constructor|..].
  - intros k e' t' Hk. apply list_lookup_singleton_Some in Hk as [_ Hk].
    simplify_eq/=. congruence.
  - intros k sig envp t' Hk. apply list_lookup_singleton_Some in Hk as [_ Hk].
    by simplify_eq/=.
  - intros k path envp t' Hk. apply list_lookup_singleton_Some in Hk as [_ Hk].
    by simplify_eq/=.
Qed.

(** The [scan-begin] and [trigger] signals of a dispatch, after the reads
    of the values of the functions. *)
Lemma events_ok_argv (tr tr0 : list (event * thread)) (t : thread) vs envp :
  events_ok sane cfg tr →
  tr = tr0 ++ ((λ ev, (ev, t)) <$> function_reads t vs) →
  function_entries sane t vs envp →
  event_ok sane cfg (EvDbusSignal SCANBD_DBUS_SIGNAL_SCAN_BEGIN (dev_name (dev t))) t →
  event_ok sane cfg (EvDbusSignalArgv SCANBD_DBUS_SIGNAL_TRIGGER envp) t →
  events_ok sane cfg
    ((tr ++ [(EvDbusSignal SCANBD_DBUS_SIGNAL_SCAN_BEGIN (dev_name (dev t)), t)])
       ++ [(EvDbusSignalArgv SCANBD_DBUS_SIGNAL_TRIGGER envp, t)]).
Proof.
  intros Htr Hreads Hentries Hbegin Hargv. subst tr.
  rewrite <- (assoc_L (++) (_ ++ _)). simpl.
  apply events_ok_app;
    [done|repeat (apply Forall_cons; split; [done|]); constructor|..].
  - intros [|[|k]] e t' Hk; simplify_eq/=; done.
  - intros [|[|k]] sig envp' t' Hk; [done| |done].
    simpl in Hk. injection Hk as <- <- <-. split; [done|].
    exists vs, (length tr0), t. split; [done|].
    assert (length (tr0 ++ ((λ ev, (ev, t)) <$> function_reads t vs))
            = length tr0 + length (function_reads t vs))%nat as Hlen
      by (by rewrite length_app, length_fmap).
    split; [|split].
    + intros m ev Hm. exists t.
      apply lookup_app_l_Some. rewrite lookup_app_r by lia.
      replace (length tr0 + m - length tr0)%nat with m by lia.
      by rewrite list_lookup_fmap, Hm.
    + rewrite <- Hlen. by apply list_lookup_middle.
    + lia.
  - intros [|[|k]] path envp' t' Hk; simplify_eq/=.
Qed.

(** The events of a script that is run, from [sane_close] to the return of
    [waitpid]. *)
Lemma events_ok_script (tr : list (event * thread)) ta t1 t2 ms t3 path envp t4 t5 :
  events_ok sane cfg (tr ++ [(EvDbusSignalArgv SCANBD_DBUS_SIGNAL_TRIGGER envp, ta)]) →
  event_ok sane cfg EvSaneClose t1 →
  event_ok sane cfg EvMutexUnlock t2 → h t2 = None →
  event_ok sane cfg (EvUsleep ms) t3 → h t3 = None →
  event_ok sane cfg (EvFork path envp) t4 →
  event_ok sane cfg EvWaitpid t5 →
  events_ok sane cfg
    ((((((tr ++ [(EvDbusSignalArgv SCANBD_DBUS_SIGNAL_TRIGGER envp, ta)])
           ++ [(EvSaneClose, t1)]) ++ [(EvMutexUnlock, t2)])
        ++ [(EvUsleep ms, t3)]) ++ [(EvFork path envp, t4)])
      ++ [(EvWaitpid, t5)]).
Proof.
  intros Htr H1 H2 Hh2 H3 Hh3 H4 H5.
  set (tr' := tr ++ [(EvDbusSignalArgv SCANBD_DBUS_SIGNAL_TRIGGER envp, ta)]) in *.
  assert (length tr' = S (length tr)) as Hlen
    by (unfold tr'; rewrite length_app; simpl; lia).
  rewrite <- !(assoc_L (++)). simpl.
  apply events_ok_app;
    [done|repeat (apply Forall_cons; split; [done|]); constructor|..].
  - intros [|[|[|[|[|k]]]]] e t Hk; simplify_eq/=; try done. intros _.
    exists (length tr'), t1, t2, ms, t3, t5.
    destruct H5 as [_ Hh5].
    repeat split; try done; try lia;
      rewrite lookup_app_r by lia;
      match goal with
      | |- _ !! ?n = _ => by replace n with 0%nat by lia
      | |- _ !! ?n = _ => by replace n with 1%nat by lia
      | |- _ !! ?n = _ => by replace n with 2%nat by lia
      | |- _ !! ?n = _ => by replace n with 4%nat by lia
      end.
  - intros [|[|[|[|[|k]]]]] sig envp' t Hk; simplify_eq/=.
  - intros [|[|[|[|[|k]]]]] path' envp' t Hk; simplify_eq/=.
    exists (length tr), ta. split; [lia|].
    apply lookup_app_l_Some. unfold tr'. by rewrite list_lookup_middle.
Qed.

Lemma external_trigger_inv (t : thread) a : trigger_inv t → trigger_inv (external_trigger t a).
Proof.
  unfold external_trigger, action_in_range. intros Ht.
  destruct (_ && _) eqn:Hc; [|done].
  unfold trigger_inv. simpl.
  apply andb_true_iff in Hc as [Hr _]. apply andb_true_iff in Hr as [H0 H1]. lia.
Qed.

Lemma trigger_inv_interfere x (t : thread) : trigger_inv t → trigger_inv (interfere x t).
Proof. destruct x as [|[a|] x]; simpl; auto using external_trigger_inv. Qed.

Lemma interfere_count x (t : thread) :
  num_of_options_with_scripts (interfere x t) = num_of_options_with_scripts t.
Proof.
  destruct x as [|[a|] x]; simpl; try done.
  unfold external_trigger. by destruct (_ && _).
Qed.

Lemma interfere_h x (t : thread) : h (interfere x t) = h t.
Proof.
  destruct x as [|[a|] x]; simpl; try done.
  unfold external_trigger. by destruct (_ && _).
Qed.

Lemma interfere_no_actions x (t : thread) :
  num_of_options_with_scripts t = 0%nat → interfere x t = t.
Proof.
  intros H0. destruct x as [|[a|] x]; simpl; try done.
  unfold external_trigger, action_in_range. rewrite H0.
  destruct (Z.leb_spec 0 a), (Z.ltb_spec a (Z.of_nat 0)); simpl; try done. lia.
Qed.

Lemma trigger_inv_set_h (t : thread) hd : trigger_inv t → trigger_inv (set_h t hd).
Proof. done. Qed.

Lemma trigger_inv_set_opts (t : thread) os :
  trigger_inv t → trigger_inv (set_opts t os (num_of_options_with_scripts t)).
Proof. done. Qed.

Lemma trigger_inv_fire (t : thread) si :
  (si < num_of_options_with_scripts t)%nat → trigger_inv (set_trigger t true (Z.of_nat si)).
Proof. unfold trigger_inv. simpl. lia. Qed.

Lemma trigger_inv_clear (t : thread) : trigger_inv (set_trigger t false (-1)).
Proof. done. Qed.

Lemma env_shape_set_h (t : thread) hd envp :
  env_shape sane cfg t envp → env_shape sane cfg (set_h t hd) envp.
Proof. done. Qed.

End TraceInvariantFacts.

#[export] Hint Resolve idle_trigger_inv external_trigger_inv trigger_inv_interfere
  trigger_inv_set_h trigger_inv_set_opts trigger_inv_fire trigger_inv_clear
  env_shape_set_h : poll.

(** ** The environment has its shape *)

Section EnvShape.
Context {World Handle regex_t : Type}.
Variable sane : sane_api World Handle.
Variable penv : process_env.
Variable cfg : cfg_t.
Notation thread := (sane_thread Handle regex_t).

Lemma env_PATH_put a :
  ∃ v, env_PATH penv a = put_entry a (format_env_s (Some "PATH") (Some v)).
Proof. unfold env_PATH. destruct (getenv penv "PATH"); eauto. Qed.

Lemma env_PWD_put a :
  env_PWD penv a = a ∨
  ∃ v, env_PWD penv a = put_entry a (format_env_s (Some "PWD") (Some v)).
Proof.
  unfold env_PWD. destruct (getenv penv "PWD"); [eauto|].
  destruct (getcwd penv); eauto.
Qed.

Lemma env_USER_put a a' :
  env_USER penv a = Some a' →
  ∃ v, a' = put_entry a (format_env_s (Some "USER") (Some v)).
Proof.
  unfold env_USER. destruct (getenv penv "USER"); [intros [= <-]; eauto|].
  destruct (getpwuid_geteuid penv); [intros [= <-]; eauto|done].
Qed.

Lemma env_HOME_put a a' :
  env_HOME penv a = Some a' →
  ∃ v, a' = put_entry a (format_env_s (Some "HOME") (Some v)).
Proof.
  unfold env_HOME. destruct (getenv penv "HOME"); [intros [= <-]; eauto|].
  destruct (getpwuid_geteuid penv); [intros [= <-]; eauto|done].
Qed.

Lemma function_entries_insert (t : thread) vs envp n x :
  (num_of_options_with_functions t ≤ n)%nat →
  function_entries sane t vs envp → function_entries sane t vs (<[n := x]> envp).
Proof.
  intros Hn [Hlen Hentries]. split; [done|]. intros k Hk.
  destruct (Hentries k Hk) as (f & v & entry & ? & ? & ? & ?).
  exists f, v, entry. by rewrite list_lookup_insert_ne by lia.
Qed.

Lemma finish_env_shape (t : thread) fired filled vs envp :
  length filled = (num_of_options_with_functions t + 4 + 2 + 1)%nat →
  function_entries sane t vs filled →
  opts t !! Z.to_nat (triggered_option t) = Some fired →
  finish_env penv cfg t fired filled = Some envp →
  env_shape sane cfg t envp ∧ function_entries sane t vs envp.
Proof.
  intros Hlen Hall Hfired. unfold finish_env.
  set (F := num_of_options_with_functions t) in *.
  destruct (env_PATH_put (filled, F)) as [vpath ->].
  destruct (env_USER penv _) as [a3|] eqn:Huser; [|done].
  destruct (env_HOME penv _) as [a4|] eqn:Hhome; [|done].
  apply env_USER_put in Huser as [vuser ->].
  apply env_HOME_put in Hhome as [vhome ->].
  unfold env_configured.
  destruct (env_PWD_put (put_entry (filled, F) (format_env_s (Some "PATH") (Some vpath))))
    as [->|[vpwd ->]];
    destruct (cfg_environment_device cfg) as [evd|] eqn:Hevd;
    destruct (cfg_environment_action cfg) as [eva|] eqn:Heva;
    unfold put_entry; cbn [fst snd];
    (match goal with
     | |- context [(?a =? ?b)%nat] => destruct (Nat.eqb_spec a b) as [He|He]
     end; [try (exfalso; lia)|done]).
  intros [= <-]. unfold env_shape. fold F.
  replace (F + 1)%nat with (S F) by lia.
  replace (F + 2)%nat with (S (S F)) by lia.
  replace (F + 3)%nat with (S (S (S F))) by lia.
  replace (F + 4)%nat with (S (S (S (S F)))) by lia.
  replace (F + 5)%nat with (S (S (S (S (S F))))) by lia.
  replace (F + 6)%nat with (S (S (S (S (S (S F)))))) by lia.
  assert (function_entries sane t vs
            (<[S (S (S (S (S (S F))))):=None]>
               (<[S (S (S (S (S F)))):=Some (format_env_s (Some eva) (action_name fired))]>
                  (<[S (S (S (S F))):=Some (format_env_s (Some evd)
                                              (Some (dev_name (dev t))))]>
                     (<[S (S (S F)):=Some (format_env_s (Some "HOME") (Some vhome))]>
                        (<[S (S F):=Some (format_env_s (Some "USER") (Some vuser))]>
                           (<[S F:=Some (format_env_s (Some "PWD") (Some vpwd))]>
                              (<[F:=Some (format_env_s (Some "PATH") (Some vpath))]>
                                 filled)))))))) as Hentries.
  { repeat (apply function_entries_insert; [fold F; lia|]). done. }
  split; [|done]. repeat split.
  - rewrite !length_insert. lia.
  - by exists vs.
  - exists vpath. rewrite !list_lookup_insert_ne by lia.
    apply list_lookup_insert_eq. lia.
  - exists vpwd. rewrite !list_lookup_insert_ne by lia.
    apply list_lookup_insert_eq. rewrite !length_insert. lia.
  - exists vuser. rewrite !list_lookup_insert_ne by lia.
    apply list_lookup_insert_eq. rewrite !length_insert. lia.
  - exists vhome. rewrite !list_lookup_insert_ne by lia.
    apply list_lookup_insert_eq. rewrite !length_insert. lia.
  - exists evd. split; [done|]. rewrite !list_lookup_insert_ne by lia.
    apply list_lookup_insert_eq. rewrite !length_insert. lia.
  - exists eva, fired. split; [done|]. split; [done|].
    rewrite !list_lookup_insert_ne by lia.
    apply list_lookup_insert_eq. rewrite !length_insert. lia.
  - apply list_lookup_insert_eq. rewrite !length_insert. lia.
Qed.

End EnvShape.

(** ** Every run of the Polling thread keeps the trace invariant *)

Section PollerSound.
Context {World Handle regex_t : Type}.
Variable sane : sane_api World Handle.
Variable rx : regex_api regex_t.
Variable os : os_api World.
Variable penv : process_env.
Variable cfg : cfg_t.
Variable SCANBD_NULL_STRING : string.
Variable C_TIMEOUT_DEF : Z.
Variable make_script_path_abs : string → option string.

Notation thread := (sane_thread Handle regex_t).
Notation PState := (PState World Handle regex_t).
Notation M := (M World Handle regex_t).
Notation Compiling := (compiling (World := World) (Handle := Handle) (regex_t := regex_t) sane cfg).
Notation Polling := (polling (World := World) (Handle := Handle) (regex_t := regex_t) sane cfg).
Notation Trace_ok := (trace_ok (World := World) (Handle := Handle) (regex_t := regex_t) sane cfg).

Lemma compiling_trace_ok (s : PState) : Compiling s → Trace_ok s.
Proof. by intros [_ ?]. Qed.

Lemma polling_trace_ok c (s : PState) : Polling c s → Trace_ok s.
Proof. by intros (_ & _ & ?). Qed.

Ltac solve_inv :=
  repeat match goal with
         | H : Compiling _ |- _ => destruct H as [[? ?] ?]
         | H : Polling _ _ |- _ => destruct H as (? & ? & ?)
         | H : Trace_ok _ |- _ => unfold trace_ok in H
         | H : idle _ |- _ => destruct H
         | H : _ ∧ _ |- _ => destruct H
         end;
  cbn [st trace world external] in *;
  repeat match goal with
         | |- Compiling _ => split
         | |- Polling _ _ => split; [|split]
         | |- idle _ => split
         | |- Trace_ok _ => unfold trace_ok; cbn [st trace world external]
         | |- events_ok _ _ (_ ++ [(EvWaitpid, _)]) => apply events_ok_script
         | |- events_ok _ _ (_ ++ [(EvDbusSignalArgv _ _, _)]) =>
           eapply events_ok_argv; [|eassumption|eassumption|..]
         | |- events_ok _ _ (_ ++ _) => apply events_ok_snoc
         | |- event_ok _ _ _ _ => split; cbn [st trace world external]
         | |- _ ∧ _ => split
         | |- num_of_options_with_scripts (interfere _ _) = _ => rewrite interfere_count
         | |- h (interfere _ _) = _ => rewrite interfere_h
         | |- _ => done
         | |- _ => solve [eauto with poll]
         | |- trigger_inv _ => solve [apply idle_fields_trigger_inv; simpl; done]
         | |- _ => progress cbn [st trace world external]
         | |- _ => progress simpl
         end.

(** *** Compiling the rules *)

Lemma install_function_compiling function_i opt (s : PState) :
  Compiling s →
  wp (install_function function_i opt) (λ _, Compiling) Trace_ok s.
Proof. intros Hs. unfold install_function. cbv zeta. wp_go; solve_inv. Qed.

Lemma install_action_compiling action_i title opt odesc (s : PState) :
  Compiling s →
  wp (install_action sane rx cfg SCANBD_NULL_STRING action_i title opt odesc)
     (λ _, Compiling) Trace_ok s.
Proof. intros Hs. unfold install_action. cbv zeta. wp_go; solve_inv. Qed.

Lemma sane_find_matching_functions_compiling sec (s : PState) :
  Compiling s →
  wp (sane_find_matching_functions sane rx sec) (λ _, Compiling) Trace_ok s.
Proof.
  intros Hs. unfold sane_find_matching_functions.
  apply wp_for_each; [done|]. intros function_i s1 _ Hs1. cbv zeta.
  wp_go; [done|].
  apply wp_for_each; [done|]. intros opt s2 _ Hs2.
  wp_go; [|done]. by apply install_function_compiling.
Qed.

Lemma sane_find_matching_options_compiling sec (s : PState) :
  Compiling s →
  wp (sane_find_matching_options sane rx cfg SCANBD_NULL_STRING sec)
     (λ _, Compiling) Trace_ok s.
Proof.
  intros Hs. unfold sane_find_matching_options.
  apply wp_for_each; [done|]. intros action_i s1 _ Hs1. cbv zeta.
  wp_go; [done|].
  apply wp_for_each; [done|]. intros opt s2 _ Hs2.
  wp_go; [|done]. by apply install_action_compiling.
Qed.

Lemma sane_poll_startup_sound (s : PState) :
  idle (st s) → num_of_options_with_scripts (st s) = 0%nat → Trace_ok s →
  wp (sane_poll_startup sane rx cfg SCANBD_NULL_STRING C_TIMEOUT_DEF)
     (λ _ s', ∃ c, Polling c s') Trace_ok s.
Proof.
  intros Hidle Hcount Htrace. unfold sane_poll_startup, open_device, allocate_rules.
  cbv zeta. rewrite <- (interfere_no_actions (external s) (st s) Hcount) in Hidle.
  assert (∀ s1 : PState, Compiling s1 →
            wp (ret (if cfg_timeout cfg <=? 0 then C_TIMEOUT_DEF else cfg_timeout cfg))
               (λ (_ : Z) s', ∃ c, Polling c s') Trace_ok s1) as Hend.
  { intros s1 [[? ?] ?]. apply wp_ret. eexists. split; [done|].
    split; [|done]. by apply idle_trigger_inv. }
  wp_go; try solve [solve_inv].
  eapply wp_mono; [apply sane_find_matching_options_compiling; solve_inv| |done].
  intros ? s1 Hs1. cbv beta. wp_go.
  eapply wp_mono; [by apply sane_find_matching_functions_compiling| |done].
  intros ? s2 Hs2. cbv beta. wp_go.
  eapply wp_mono;
    [apply wp_for_each with (I := Compiling); [done|]
    |intros ? s3 Hs3; by apply Hend
    |done].
  intros loc_i s3 _ Hs3. wp_go; try done.
  eapply wp_mono; [by apply sane_find_matching_options_compiling| |done].
  intros ? s4 Hs4. by apply sane_find_matching_functions_compiling.
Qed.

(** *** Dispatching *)

Lemma function_entry_sound odesc e (s : PState) :
  trigger_inv (st s) → Trace_ok s → polled_descriptor sane (st s) odesc →
  wp (function_entry sane odesc e)
     (λ entry s',
        st s' = st s ∧ Trace_ok s' ∧
        ∃ f v, functions (st s) !! e = Some f ∧
               entry_of sane (st s) f v entry ∧
               (shared (st s) f → v = sane_option_value_init) ∧
               trace s' = trace s ++ ((λ ev, (ev, st s)) <$> function_read (st s) f v))
     Trace_ok s.
Proof.
  intros Hinv Htrace Hpolled. unfold function_entry, function_value.
  wp_go; try solve [solve_inv];
    (split; [done|]; split; [solve [solve_inv]|]);
    match goal with
    | Hf : functions (st s) !! e = Some ?f,
      Hd : get_option_descriptor sane (world s) (h (st s)) (fn_number ?f) = Some ?fdesc
      |- _ =>
      unfold get_option_descriptor in Hd;
      destruct (h (st s)) as [hd|] eqn:Hh; [|done];
      exists f; eexists; split; [done|]; split;
        [ exists (world s), hd, fdesc, odesc; split; [done|]; split; [done|];
          match goal with
          | Hn : function_is_numerical fdesc odesc = _ |- _ => rewrite Hn
          end; first [reflexivity | split; [assumption|reflexivity]]
        | unfold shared, function_read;
          match goal with
          | Ho : find_option _ _ _ = _ |- _ => rewrite Ho
          end;
          split; [first [done | by intros [? ?]]|];
          first [reflexivity | symmetry; apply app_nil_r] ]
    end.
Qed.

Lemma build_env_sound odesc fired (s : PState) :
  trigger_inv (st s) → Trace_ok s → polled_descriptor sane (st s) odesc →
  opts (st s) !! Z.to_nat (triggered_option (st s)) = Some fired →
  wp (build_env sane penv cfg odesc fired)
     (λ envp s',
        st s' = st s ∧ Trace_ok s' ∧
        ∃ vs, env_shape sane cfg (st s) envp ∧
              function_entries sane (st s) vs envp ∧
              trace s' = trace s ++ ((λ ev, (ev, st s)) <$> function_reads (st s) vs))
     Trace_ok s.
Proof.
  intros Hinv Htrace Hpolled Hfired. unfold build_env. cbv zeta. wp_go.
  set (F := num_of_options_with_functions (st s)).
  eapply wp_mono;
    [apply wp_fold_each_seq with
       (I := λ k envp s',
          st s' = st s ∧ Trace_ok s' ∧ length envp = (F + 4 + 2 + 1)%nat ∧
          ∃ vs, length vs = k ∧
                (∀ j, (j < k)%nat →
                   ∃ f v entry,
                     functions (st s) !! j = Some f ∧ vs !! j = Some v ∧
                     envp !! j = Some (Some entry) ∧
                     entry_of sane (st s) f v entry ∧
                     (shared (st s) f → v = sane_option_value_init)) ∧
                trace s' = trace s ++
                           ((λ ev, (ev, st s)) <$>
                            mjoin (zip_with (function_read (st s))
                                     (take k (functions (st s))) vs)))| |done].
  - split; [done|]. split; [done|]. split; [by rewrite length_replicate|].
    exists []. split; [done|]. split; [intros j Hj; lia|].
    rewrite take_0. simpl. by rewrite app_nil_r.
  - intros k envp s1 Hk (Hst & Htr & Hlen & vs & Hvs & Hentries & Hreads). wp_go.
    eapply wp_mono;
      [apply function_entry_sound; [by rewrite Hst|done|by rewrite Hst]| |done].
    intros entry s2 (Hst2 & Htr2 & f & v & Hf & Hentry & Hshared & Hread). wp_go.
    rewrite Hst in Hf, Hentry, Hshared, Hread.
    split; [congruence|]. split; [done|]. split; [by rewrite length_insert|].
    exists (vs ++ [v]). split; [rewrite length_app; simpl; lia|]. split.
    + intros j Hj. destruct (decide (j = k)) as [->|Hne].
      * exists f, v, entry. split; [done|].
        split; [by apply list_lookup_middle|].
        split; [apply list_lookup_insert_eq; lia|done].
      * destruct (Hentries j) as (f' & v' & entry' & ? & ? & ? & ?); [lia|].
        exists f', v', entry'. split; [done|].
        split; [by apply lookup_app_l_Some|].
        by rewrite list_lookup_insert_ne by done.
    + rewrite Hread, Hreads, <- (assoc_L (++)). f_equal.
      rewrite (take_S_r _ _ _ Hf).
      rewrite zip_with_app
        by (rewrite length_take, Hvs; apply lookup_lt_Some in Hf; lia).
      rewrite join_app, fmap_app. simpl. by rewrite app_nil_r.
  - intros filled s1 (Hst & Htr & Hlen & vs & Hvs & Hentries & Hreads). cbv beta.
    destruct (finish_env penv cfg (st s) fired filled) as [envp|] eqn:Hfin; wp_go; [|done].
    split; [done|]. split; [done|]. exists vs.
    destruct (finish_env_shape sane penv cfg (st s) fired filled vs envp) as [Hshape Hfn];
      try done.
Qed.

Lemma dispatch_sound timeout odesc c (s : PState) :
  Polling c s → polled_descriptor sane (st s) odesc →
  wp (dispatch sane os penv cfg SCANBD_NULL_STRING make_script_path_abs timeout odesc)
     (λ _, Polling c) Trace_ok s.
Proof.
  intros (Hc & Hinv & Htrace) Hpolled. unfold dispatch. wp_go; try done.
  eapply wp_mono; [by apply build_env_sound| |done].
  intros envp s1 (Hst & Htr1 & vs & Hshape & Hentries & Hreads). cbv beta.
  unfold close_device, run_script, open_device. cbv zeta.
  wp_go; rewrite ?Hst in *; solve_inv.
Qed.

(** *** The loop *)

Lemma poll_option_sound timeout c si (s : PState) :
  Polling c s → (si < c)%nat →
  wp (poll_option sane rx os penv cfg SCANBD_NULL_STRING make_script_path_abs timeout si)
     (λ _, Polling c) Trace_ok s.
Proof.
  intros Hs Hsi. pose proof (polling_trace_ok _ _ Hs) as Htrace.
  unfold poll_option, sample_and_compare, sample, compare, store_value.
  destruct Hs as (Hc & Hinv & _). subst c.
  wp_go; try done;
    try (apply dispatch_sound;
         [|match goal with
           | Ho : opts (st s) !! si = Some ?o,
             Hd : get_option_descriptor sane (world s) (h (st s)) (opt_number ?o)
                  = Some ?odesc
             |- polled_descriptor _ _ ?odesc =>
             unfold get_option_descriptor in Hd;
             destruct (h (st s)) as [hd|]; [|done];
             exists (world s), hd, si; eexists;
             split; [simpl; lia|];
             split; [simpl; rewrite list_lookup_alter_eq, Ho; reflexivity|];
             exact Hd
           end]);
    solve_inv.
Qed.

Lemma sane_poll_iteration_sound timeout c (s : PState) :
  Polling c s →
  wp (sane_poll_iteration sane rx os penv cfg SCANBD_NULL_STRING make_script_path_abs
        timeout)
     (λ _, Polling c) Trace_ok s.
Proof.
  intros Hs. unfold sane_poll_iteration. wp_go.
  eapply wp_mono; [apply wp_for_each with (I := Polling c); [done|]| |done].
  - intros si s1 Hsi Hs1. apply poll_option_sound; [done|].
    apply elem_of_seq in Hsi. destruct Hs as [Hc _]. lia.
  - intros ? s1 Hs1. cbv beta in *. clear Hs. wp_go. solve_inv.
Qed.

Lemma sane_poll_loop_sound iterations timeout c (s : PState) :
  Polling c s →
  wp (sane_poll_loop sane rx os penv cfg SCANBD_NULL_STRING make_script_path_abs
        iterations timeout)
     (λ _, Polling c) Trace_ok s.
Proof.
  revert s. induction iterations as [|n IH]; intros s Hs; simpl; [done|].
  apply wp_bind. eapply wp_mono; [by apply sane_poll_iteration_sound| |done].
  intros ? s1 Hs1. by apply IH.
Qed.

(** Every event of a run of [sane_poll] that starts from a freshly
    initialised slot satisfies [event_ok]. *)
Lemma sane_poll_sound iterations (s : PState) :
  idle (st s) → num_of_options_with_scripts (st s) = 0%nat → trace s = [] →
  Trace_ok
    (final (sane_poll sane rx os penv cfg SCANBD_NULL_STRING C_TIMEOUT_DEF
              make_script_path_abs iterations s)).
Proof.
  intros Hidle Hcount Htrace.
  assert (wp (sane_poll sane rx os penv cfg SCANBD_NULL_STRING C_TIMEOUT_DEF
                make_script_path_abs iterations)
             (λ _, Trace_ok) Trace_ok s) as Hwp.
  { unfold sane_poll. apply wp_bind.
    eapply wp_mono; [apply sane_poll_startup_sound; try done| |done].
    - unfold trace_ok. rewrite Htrace. apply events_ok_nil.
    - intros timeout s1 [c Hs1]. cbv beta.
      eapply wp_mono; [by apply sane_poll_loop_sound| |done].
      intros ? s2 Hs2. exact (polling_trace_ok _ _ Hs2). }
  unfold wp in Hwp. by destruct (sane_poll _ _ _ _ _ _ _ _ _ s).
Qed.

End PollerSound.

(** ** The claims about whole runs of the polling thread *)

Section Runs.
Context {World Handle regex_t : Type}.
Variable sane : sane_api World Handle.
Variable rx : regex_api regex_t.
Variable os : os_api World.
Variable penv : process_env.
Variable cfg : cfg_t.
Variable SCANBD_NULL_STRING : string.
Variable C_TIMEOUT_DEF : Z.
Variable make_script_path_abs : string → option string.

Notation thread := (sane_thread Handle regex_t).
Notation Poll_trace :=
  (poll_trace sane rx os penv cfg SCANBD_NULL_STRING C_TIMEOUT_DEF make_script_path_abs).
Notation Observable :=
  (observable sane rx os penv cfg SCANBD_NULL_STRING C_TIMEOUT_DEF make_script_path_abs).

Lemma poll_trace_event_ok w d requests iterations i e (t : thread) :
  Poll_trace w d requests iterations !! i = Some (e, t) → event_ok sane cfg e t.
Proof.
  intros Hi.
  pose proof (sane_poll_sound sane rx os penv cfg SCANBD_NULL_STRING C_TIMEOUT_DEF
                make_script_path_abs iterations (started w d requests)) as Hok.
  destruct (Hok (conj eq_refl eq_refl) eq_refl eq_refl) as [Hall _].
  rewrite Forall_lookup in Hall. by apply (Hall i (e, t)).
Qed.

Lemma poll_trace_script_window w d requests iterations i e (t : thread) :
  Poll_trace w d requests iterations !! i = Some (e, t) →
  is_fork e = true →
  script_window (Poll_trace w d requests iterations) i.
Proof.
  intros Hi Hfork.
  pose proof (sane_poll_sound sane rx os penv cfg SCANBD_NULL_STRING C_TIMEOUT_DEF
                make_script_path_abs iterations (started w d requests)) as Hok.
  destruct (Hok (conj eq_refl eq_refl) eq_refl eq_refl) as (_ & Hwin & _).
  by eapply Hwin.
Qed.

Lemma poll_trace_env_read w d requests iterations i sig envp (t : thread) :
  Poll_trace w d requests iterations !! i = Some (EvDbusSignalArgv sig envp, t) →
  sig = SCANBD_DBUS_SIGNAL_TRIGGER ∧
  env_read sane (Poll_trace w d requests iterations) i t envp.
Proof.
  intros Hi.
  pose proof (sane_poll_sound sane rx os penv cfg SCANBD_NULL_STRING C_TIMEOUT_DEF
                make_script_path_abs iterations (started w d requests)) as Hok.
  destruct (Hok (conj eq_refl eq_refl) eq_refl eq_refl) as (_ & _ & Hread & _).
  by eapply Hread.
Qed.

Lemma poll_trace_env_signalled w d requests iterations i path envp (t : thread) :
  Poll_trace w d requests iterations !! i = Some (EvFork path envp, t) →
  env_signalled (Poll_trace w d requests iterations) i envp.
Proof.
  intros Hi.
  pose proof (sane_poll_sound sane rx os penv cfg SCANBD_NULL_STRING C_TIMEOUT_DEF
                make_script_path_abs iterations (started w d requests)) as Hok.
  destruct (Hok (conj eq_refl eq_refl) eq_refl eq_refl) as (_ & _ & _ & Hsig).
  by eapply Hsig.
Qed.

Lemma wait_while_triggered_view (t : thread) t_wakeups n v :
  wait_while_triggered t t_wakeups = (n, Some v) →
  triggered v = false ∧ (v = t ∨ v ∈ t_wakeups).
Proof.
  revert t n. induction t_wakeups as [|t' rest IH]; intros t n; simpl.
  - destruct (triggered t) eqn:Ht; [done|]. intros [= _ <-]. auto.
  - destruct (triggered t) eqn:Ht; [|intros [= _ <-]; auto].
    destruct (wait_while_triggered t' rest) as [n' o] eqn:Hw. simpl.
    intros [= _ ->]. destruct (IH _ _ Hw) as [Hv [->|Hin]]; split; auto.
    + right. left.
    + right. by right.
Qed.

Lemma sane_trigger_action_triggered number_of_dev action g gw (t : thread) tw t' tr :
  sane_trigger_action number_of_dev action g gw t tw = (Triggered t', tr) →
  ∃ n v, 0 <= action < Z.of_nat (num_of_options_with_scripts t) ∧
         wait_while_triggered t tw = (n, Some v) ∧
         t' = set_trigger v true action.
Proof.
  unfold sane_trigger_action.
  destruct (Z.leb_spec 0 number_of_dev), (Z.leb_spec 0 action); simpl; try done.
  destruct (num_devices g <=? 0); [done|].
  destruct (num_devices g <=? number_of_dev); [done|].
  destruct (wait_for_polling g gw) as [k [g'|]]; simpl; [|done].
  destruct (negb _); [done|].
  destruct (Z.leb_spec (Z.of_nat (num_of_options_with_scripts t)) action); [done|].
  destruct (wait_while_triggered t tw) as [n [v|]] eqn:Hw; simpl; [|done].
  intros [= <- _]. exists n, v. split; [lia|done].
Qed.

(** C3: [triggered_option] is the index of an installed action whenever
    [triggered] is set, and -1 otherwise, in every Observable state of a
    device slot: as created by [start_sane_threads], at each event of the
    polling thread (in particular after a comparison or an external
    trigger set the trigger and after the dispatcher cleared it), and after
    [sane_trigger_action] set the trigger. *)
Theorem trigger_fields_invariant (t : thread) :
  Observable t → trigger_inv t.
Proof.
  induction 1 as [d|w d requests iterations i e t Hi
                 |number_of_dev action g gw t tw t' tr Ht IHt Hviews Hrun].
  - done.
  - by destruct (poll_trace_event_ok _ _ _ _ _ _ _ Hi).
  - destruct (sane_trigger_action_triggered _ _ _ _ _ _ _ _ Hrun)
      as (n & v & Ha & Hw & ->).
    destruct (wait_while_triggered_view _ _ _ _ Hw) as [Hv Hin].
    assert (num_of_options_with_scripts v = num_of_options_with_scripts t) as Hcount.
    { destruct Hin as [->|Hin]; [done|].
      rewrite Forall_forall in Hviews. by destruct (Hviews _ Hin). }
    unfold trigger_inv. simpl. by rewrite Hcount.
Qed.

(** C7: while the child process of an action script runs (from its [fork]
    until [waitpid] returns), the handle of the device is NULL, in every
    run of the polling thread; the [fork] comes right after [sane_close],
    the release of the device mutex and the sleep, with the handle NULL
    from the release on, and [waitpid] returns right after the [fork], so
    that the device is reopened only later. *)
Theorem device_closed_while_script_runs w d requests iterations i e (t : thread) :
  Poll_trace w d requests iterations !! i = Some (e, t) →
  child_running e = true →
  h t = None ∧
  (is_fork e = true → script_window (Poll_trace w d requests iterations) i).
Proof.
  intros Hi Hchild. split.
  - destruct (poll_trace_event_ok _ _ _ _ _ _ _ Hi) as [_ He].
    destruct e; try done. by destruct He.
  - by apply (poll_trace_script_window _ _ _ _ _ _ _ Hi).
Qed.

End Runs.

Section RunsEnv.
Context {World Handle regex_t : Type}.
Variable sane : sane_api World Handle.
Variable rx : regex_api regex_t.
Variable os : os_api World.
Variable penv : process_env.
Variable cfg : cfg_t.
Variable SCANBD_NULL_STRING : string.
Variable C_TIMEOUT_DEF : Z.
Variable make_script_path_abs : string → option string.

Notation thread := (sane_thread Handle regex_t).
Notation Poll_trace :=
  (poll_trace sane rx os penv cfg SCANBD_NULL_STRING C_TIMEOUT_DEF make_script_path_abs).

(** The assertions of the last part of the assembly hold when the working
    directory and the user can be determined and both names of the
    environment section are configured. *)
Lemma finish_env_total (t : thread) fired filled :
  is_Some (getenv penv "PWD") ∨ is_Some (getcwd penv) →
  is_Some (getenv penv "USER") ∨ is_Some (getpwuid_geteuid penv) →
  is_Some (getenv penv "HOME") ∨ is_Some (getpwuid_geteuid penv) →
  is_Some (cfg_environment_device cfg) →
  is_Some (cfg_environment_action cfg) →
  is_Some (finish_env penv cfg t fired filled).
Proof.
  intros Hpwd Huser Hhome [evd Hevd] [eva Heva].
  unfold finish_env, env_PATH, env_PWD, env_USER, env_HOME, env_configured.
  rewrite Hevd, Heva.
  destruct (getenv penv "PATH"); destruct (getenv penv "PWD");
    destruct (getcwd penv); destruct (getenv penv "USER");
    destruct (getpwuid_geteuid penv); destruct (getenv penv "HOME");
    try (by destruct Hpwd as [[? ?]|[? ?]]);
    try (by destruct Huser as [[? ?]|[? ?]]);
    try (by destruct Hhome as [[? ?]|[? ?]]);
    unfold put_entry; cbn [fst snd];
    (match goal with
     | |- context [(?a =? ?b)%nat] => destruct (Nat.eqb_spec a b) as [He|He]
     end; [by eexists|lia]).
Qed.

(** C9: in every run of the polling thread, the environment handed to the
    bus signal and to the script of a dispatch has exactly F + 6 + 1
    entries for the F function rules of the device: F function entries,
    PATH, PWD, USER, HOME, the configured device variable, the configured
    action variable, and the NULL sentinel in the last slot.  The entry
    in slot k is the one of the function in slot k of the array, its
    [env] name and its value formatted by the type of its option; the
    value is the one [sane_option_value_init] makes when an installed
    action has the option, and otherwise the one that was read from the
    device for this dispatch, just before the [scan-begin] and [trigger]
    signals; the script gets the environment of the [trigger] signal. *)
Theorem environment_has_F_plus_7_entries w d requests iterations i e (t : thread) envp :
  Poll_trace w d requests iterations !! i = Some (e, t) →
  (∃ sig, e = EvDbusSignalArgv sig envp) ∨ (∃ path, e = EvFork path envp) →
  env_shape sane cfg t envp ∧
  ∃ j t', (j = i ∨ i = (j + 4)%nat) ∧
          Poll_trace w d requests iterations !! j
          = Some (EvDbusSignalArgv SCANBD_DBUS_SIGNAL_TRIGGER envp, t') ∧
          env_read sane (Poll_trace w d requests iterations) j t' envp.
Proof.
  intros Hi He. split.
  - destruct (poll_trace_event_ok _ _ _ _ _ _ _ _ _ _ _ _ _ _ _ Hi) as [_ Hok].
    destruct He as [[sig ->]|[path ->]]; [done|by destruct Hok].
  - destruct He as [[sig ->]|[path ->]].
    + destruct (poll_trace_env_read sane rx os penv cfg SCANBD_NULL_STRING C_TIMEOUT_DEF
                  make_script_path_abs _ _ _ _ _ _ _ _ Hi) as [-> Hread].
      exists i, t. auto.
    + destruct (poll_trace_env_signalled sane rx os penv cfg SCANBD_NULL_STRING
                  C_TIMEOUT_DEF make_script_path_abs _ _ _ _ _ _ _ _ Hi)
        as (j & t' & -> & Hj).
      destruct (poll_trace_env_read sane rx os penv cfg SCANBD_NULL_STRING C_TIMEOUT_DEF
                  make_script_path_abs _ _ _ _ _ _ _ _ Hj) as [_ Hread].
      exists j, t'. auto.
Qed.

End RunsEnv.

(** ** sane_trigger_action *)

Section TriggerFacts.
Context {Handle regex_t : Type}.
Notation thread := (sane_thread Handle regex_t).

Lemma wait_for_polling_spec nulls : ∀ g gw g' grest,
  g :: gw = nulls ++ g' :: grest →
  Forall (λ x, sane_poll_threads x = None) nulls →
  is_Some (sane_poll_threads g') →
  wait_for_polling g gw = (length nulls, Some g').
Proof.
  induction nulls as [|x nulls IH]; intros g gw g' grest Hviews Hnulls [len Hlen];
    simplify_eq/=.
  - destruct grest; simpl; by rewrite Hlen.
  - inversion Hnulls as [|? ? Hx Hrest]; subst.
    destruct nulls as [|y nulls]; simplify_eq/=; rewrite Hx.
    + by rewrite (IH g' grest g' grest eq_refl Hrest (ex_intro _ len Hlen)).
    + by rewrite (IH y (nulls ++ g' :: grest) g' grest eq_refl Hrest
                    (ex_intro _ len Hlen)).
Qed.

Lemma wait_while_triggered_spec busy : ∀ (t : thread) tw v trest,
  t :: tw = busy ++ v :: trest →
  Forall (λ x, triggered x = true) busy →
  triggered v = false →
  wait_while_triggered t tw = (length busy, Some v).
Proof.
  induction busy as [|x busy IH]; intros t tw v trest Hviews Hbusy Hv;
    simplify_eq/=.
  - destruct trest; simpl; by rewrite Hv.
  - inversion Hbusy as [|? ? Hx Hrest]; subst.
    destruct busy as [|y busy]; simplify_eq/=; rewrite Hx.
    + by rewrite (IH v trest v trest eq_refl Hrest Hv).
    + by rewrite (IH y (busy ++ v :: trest) v trest eq_refl Hrest Hv).
Qed.

(** C2: for a device number below [num_devices] and an action number below
    the number of installed actions of the device, [sane_trigger_action]
    waits on [sane_cv] as long as there are no polling threads, locks the
    slot, waits on the slot's condition variable as long as [triggered] is
    set, and then sets [triggered] and [triggered_option = action] and
    broadcasts the slot's condition variable before it unlocks the slot's
    mutex and then [sane_mutex]. *)
Theorem sane_trigger_action_sets_trigger
    number_of_dev action g g_wakeups (t : thread) t_wakeups
    nulls g' g_rest len busy v t_rest :
  0 <= number_of_dev < num_devices g →
  0 <= action < Z.of_nat (num_of_options_with_scripts t) →
  g :: g_wakeups = nulls ++ g' :: g_rest →
  Forall (λ x, sane_poll_threads x = None) nulls →
  sane_poll_threads g' = Some len →
  (Z.to_nat number_of_dev < len)%nat →
  t :: t_wakeups = busy ++ v :: t_rest →
  Forall (λ x, triggered x = true) busy →
  triggered v = false →
  let d := Z.to_nat number_of_dev in
  sane_trigger_action number_of_dev action g g_wakeups t t_wakeups
  = (Triggered (set_trigger v true action),
     TLock sane_mutex ::
     replicate (length nulls) (TCondWait sane_cv sane_mutex) ++
     TLock (device_mutex d) ::
     replicate (length busy) (TCondWait (device_cv d) (device_mutex d)) ++
     [TSetTriggered d action; TCondBroadcast (device_cv d);
      TUnlock (device_mutex d); TUnlock sane_mutex]).
Proof.
  intros Hdev Haction Hg Hnulls Hlen Hd Ht Hbusy Hv d.
  unfold sane_trigger_action. fold d.
  destruct (Z.leb_spec 0 number_of_dev); [|lia].
  destruct (Z.leb_spec 0 action); [|lia]. simpl.
  destruct (Z.leb_spec (num_devices g) 0); [lia|].
  destruct (Z.leb_spec (num_devices g) number_of_dev); [lia|].
  rewrite (wait_for_polling_spec _ _ _ _ _ Hg Hnulls (ex_intro _ len Hlen)).
  cbn [fst snd]. rewrite Hlen. simpl.
  destruct (Nat.ltb_spec d len); [|lia]. simpl.
  destruct (Z.leb_spec (Z.of_nat (num_of_options_with_scripts t)) action); [lia|].
  by rewrite (wait_while_triggered_spec _ _ _ _ _ Ht Hbusy Hv).
Qed.

(** X5: [sane_trigger_action] sets the trigger only for a device number
    below [num_devices] and an action number below the number of
    installed actions of the device. *)
Lemma sane_trigger_action_validates
    number_of_dev action g g_wakeups (t : thread) t_wakeups t' tr :
  sane_trigger_action number_of_dev action g g_wakeups t t_wakeups = (Triggered t', tr) →
  0 <= number_of_dev < num_devices g ∧
  0 <= action < Z.of_nat (num_of_options_with_scripts t).
Proof.
  unfold sane_trigger_action.
  destruct (Z.leb_spec 0 number_of_dev), (Z.leb_spec 0 action); simpl; try done.
  destruct (Z.leb_spec (num_devices g) 0); [done|].
  destruct (Z.leb_spec (num_devices g) number_of_dev); [done|].
  destruct (wait_for_polling g g_wakeups) as [k [g'|]]; simpl; [|done].
  destruct (negb _); [done|].
  destruct (Z.leb_spec (Z.of_nat (num_of_options_with_scripts t)) action); [done|].
  destruct (wait_while_triggered t t_wakeups) as [n [v|]]; simpl; [|done].
  intros _. lia.
Qed.


End TriggerFacts.

Section ComparisonFacts.
Context {World Handle regex_t : Type}.
Variable sane : sane_api World Handle.
Variable rx : regex_api regex_t.
Variable os : os_api World.
Variable penv : process_env.
Variable cfg : cfg_t.
Variable SCANBD_NULL_STRING : string.
Variable make_script_path_abs : string → option string.

Notation thread := (sane_thread Handle regex_t).
Notation PState := (PState World Handle regex_t).
Notation option_rule := (sane_dev_option regex_t).
Notation Poll_option :=
  (poll_option sane rx os penv cfg SCANBD_NULL_STRING make_script_path_abs).
Notation Dispatch :=
  (dispatch sane os penv cfg SCANBD_NULL_STRING make_script_path_abs).

Lemma sample_st si (o : option_rule) (s : PState) v s1 :
  sample sane si o s = Ok v s1 → st s1 = st s ∧ external s1 = external s.
Proof.
  unfold sample, bind, get_st.
  destruct (find_option _ _ _) as [first|]; [|by intros [= _ <-]].
  destruct (opts (st s) !! first); [by intros [= _ <-]|done].
Qed.

Lemma value_trigger_numerical odesc (o : option_rule) v :
  is_numerical (od_type odesc) = true →
  value_trigger rx odesc o v = Some (bool_decide (numeric_transition o v)).
Proof.
  intros Hnum. unfold value_trigger, numeric_transition. rewrite Hnum. f_equal.
  destruct (Z.eqb_spec (num_value (from_value o)) (num_value (value o))),
           (Z.eqb_spec (num_value (to_value o)) (num_value v)); simpl; symmetry;
    [apply bool_decide_eq_true_2; by split
    |apply bool_decide_eq_false_2; intros [? ?]; congruence..].
Qed.

Lemma stored_lookup (t : thread) si (o : option_rule) v :
  opts t !! si = Some o →
  value <$> opts (stored t si v) !! si = Some v.
Proof. intros Ho. unfold stored. simpl. by rewrite list_lookup_alter_eq, Ho. Qed.

Lemma value_trigger_string odesc (o : option_rule) v from_reg to_reg last current :
  od_type odesc = SANE_TYPE_STRING →
  str_value_reg (from_value o) = Some from_reg →
  str_value_reg (to_value o) = Some to_reg →
  str_value_str (value o) = Some last →
  str_value_str v = Some current →
  value_trigger rx odesc o v
  = Some (bool_decide (regexec rx from_reg last = 0 ∧ regexec rx to_reg current = 0)).
Proof.
  intros Htype Hfrom Hto Hlast Hcurrent. unfold value_trigger.
  rewrite Htype, Hfrom, Hto, Hlast, Hcurrent. simpl.
  destruct (Z.eqb_spec (regexec rx from_reg last) 0) as [Ef|Ef];
    [destruct (Z.eqb_spec (regexec rx to_reg current) 0) as [Et|Et]|];
    f_equal; symmetry;
    [apply bool_decide_eq_true_2; by split
    |apply bool_decide_eq_false_2; by intros [? ?]..].
Qed.

(** The comparison of [sample_and_compare], written out. *)
Lemma sample_and_compare_value odesc si (o : option_rule) (s : PState) v s1 fires :
  value_trigger rx odesc o v = Some fires →
  sample sane si o s = Ok v s1 →
  sample_and_compare sane rx odesc si o s
  = Ok tt (if fires
           then {| world := world s1;
                   st := stored (set_trigger (st s1) true (Z.of_nat si)) si v;
                   trace := trace s1 ++
                            [(EvCondBroadcast, set_trigger (st s1) true (Z.of_nat si))];
                   external := external s1 |}
           else {| world := world s1; st := stored (st s1) si v;
                   trace := trace s1; external := external s1 |}).
Proof.
  intros Hfires Hsample. unfold sample_and_compare, bind. rewrite Hsample.
  unfold compare. rewrite Hfires. by destruct fires.
Qed.

(** With no action active, the poller fires a rule (sets [triggered], with
    the rule's index, and dispatches) exactly when the comparison of the
    last observed value and the current value says so; in both cases the
    current value replaces the last observed one. *)
Lemma rule_fires_iff timeout si (o : option_rule) odesc script_ (s : PState) v s1 fires :
  opts (st s) !! si = Some o →
  get_option_descriptor sane (world s) (h (st s)) (opt_number o) = Some odesc →
  value_trigger rx odesc o v = Some fires →
  script o = Some script_ → script_ ≠ EmptyString →
  triggered (st s) = false →
  sample sane si o s = Ok v s1 →
  ∃ s2, sample_and_compare sane rx odesc si o s = Ok tt s2 ∧
        (triggered (st s2) = true ↔ fires = true) ∧
        (triggered (st s2) = true → triggered_option (st s2) = Z.of_nat si) ∧
        value <$> opts (st s2) !! si = Some v ∧
        Poll_option timeout si s
        = (if triggered (st s2) then Dispatch timeout odesc s2 else Ok tt s2).
Proof.
  intros Ho Hdesc Hfires Hscript Hne Hidle Hsample.
  destruct (sample_st _ _ _ _ _ Hsample) as [Hst _].
  pose proof (sample_and_compare_value _ _ _ _ _ _ _ Hfires Hsample) as Hcmp.
  eexists. split; [exact Hcmp|].
  assert (Poll_option timeout si s
          = bind (sample_and_compare sane rx odesc si o)
              (λ _, bind get_st (λ t', if triggered t' && (0 <=? triggered_option t')
                                       then Dispatch timeout odesc else ret tt)) s) as ->.
  { unfold poll_option. unfold bind at 1 2. unfold get_st at 1, get_world at 1.
    rewrite Ho, Hdesc, Hscript. by rewrite bool_decide_eq_false_2. }
  unfold bind at 1. rewrite Hcmp. unfold bind, get_st.
  destruct fires; cbn [st].
  - simpl. split; [done|]. split; [done|]. split.
    + apply (stored_lookup _ _ o). simpl. by rewrite Hst.
    + by destruct (Z.leb_spec 0 (Z.of_nat si)); [|lia].
  - simpl. rewrite Hst, Hidle.
    split; [done|]. split; [done|]. split; [|done].
    by rewrite list_lookup_alter_eq, Ho.
Qed.

(** For a rule on a numerical option: exactly when the last observed
    value is the rule's from-value and the current value is its
    to-value. *)
Lemma numerical_rule_fires_iff timeout si (o : option_rule) odesc script_ (s : PState) v s1 :
  opts (st s) !! si = Some o →
  get_option_descriptor sane (world s) (h (st s)) (opt_number o) = Some odesc →
  is_numerical (od_type odesc) = true →
  script o = Some script_ → script_ ≠ EmptyString →
  triggered (st s) = false →
  sample sane si o s = Ok v s1 →
  ∃ s2, sample_and_compare sane rx odesc si o s = Ok tt s2 ∧
        (triggered (st s2) = true ↔ numeric_transition o v) ∧
        (triggered (st s2) = true → triggered_option (st s2) = Z.of_nat si) ∧
        value <$> opts (st s2) !! si = Some v ∧
        Poll_option timeout si s
        = (if triggered (st s2) then Dispatch timeout odesc s2 else Ok tt s2).
Proof.
  intros Ho Hdesc Hnum Hscript Hne Hidle Hsample.
  destruct (rule_fires_iff timeout si o odesc script_ s v s1 _ Ho Hdesc
              (value_trigger_numerical _ _ _ Hnum) Hscript Hne Hidle Hsample)
    as (s2 & Hcmp & Hfire & Hindex & Hval & Hpoll).
  exists s2. split; [done|]. split; [|done].
  by rewrite Hfire, bool_decide_eq_true.
Qed.

(** For a rule on a string option: exactly when the rule's from-pattern
    matches the last observed string and its to-pattern matches the
    current string. *)
Lemma string_rule_fires_iff timeout si (o : option_rule) odesc script_ (s : PState) v s1
    from_reg to_reg last current :
  opts (st s) !! si = Some o →
  get_option_descriptor sane (world s) (h (st s)) (opt_number o) = Some odesc →
  od_type odesc = SANE_TYPE_STRING →
  str_value_reg (from_value o) = Some from_reg →
  str_value_reg (to_value o) = Some to_reg →
  str_value_str (value o) = Some last →
  str_value_str v = Some current →
  script o = Some script_ → script_ ≠ EmptyString →
  triggered (st s) = false →
  sample sane si o s = Ok v s1 →
  ∃ s2, sample_and_compare sane rx odesc si o s = Ok tt s2 ∧
        (triggered (st s2) = true ↔
         regexec rx from_reg last = 0 ∧ regexec rx to_reg current = 0) ∧
        (triggered (st s2) = true → triggered_option (st s2) = Z.of_nat si) ∧
        value <$> opts (st s2) !! si = Some v ∧
        Poll_option timeout si s
        = (if triggered (st s2) then Dispatch timeout odesc s2 else Ok tt s2).
Proof.
  intros Ho Hdesc Htype Hfrom Hto Hlast Hcurrent Hscript Hne Hidle Hsample.
  destruct (rule_fires_iff timeout si o odesc script_ s v s1 _ Ho Hdesc
              (value_trigger_string _ _ _ _ _ _ _ Htype Hfrom Hto Hlast Hcurrent)
              Hscript Hne Hidle Hsample)
    as (s2 & Hcmp & Hfire & Hindex & Hval & Hpoll).
  exists s2. split; [done|]. split; [|done].
  by rewrite Hfire, bool_decide_eq_true.
Qed.

End ComparisonFacts.

Section FailedReads.
Context {World Handle regex_t : Type}.
Variable sane : sane_api World Handle.
Variable rx : regex_api regex_t.
Variable os : os_api World.
Variable penv : process_env.
Variable cfg : cfg_t.
Variable SCANBD_NULL_STRING : string.
Variable make_script_path_abs : string → option string.

Notation thread := (sane_thread Handle regex_t).
Notation PState := (PState World Handle regex_t).
Notation option_rule := (sane_dev_option regex_t).
Notation Poll_option :=
  (poll_option sane rx os penv cfg SCANBD_NULL_STRING make_script_path_abs).
Notation Dispatch :=
  (dispatch sane os penv cfg SCANBD_NULL_STRING make_script_path_abs).

(** A failed read of a numerical option yields the value
    [sane_option_value_init] made. *)
Lemma get_sane_option_value_failed w hd index odesc :
  sane_get_option_descriptor sane w hd index = Some odesc →
  is_numerical (od_type odesc) = true →
  status_good (snd (fst (sane_control_option_word sane w hd index))) = false →
  snd (get_sane_option_value (regex_t := regex_t) sane w (Some hd) index)
  = sane_option_value_init.
Proof.
  intros Hdesc Hnum Hbad. unfold get_sane_option_value. rewrite Hdesc, Hnum.
  destruct (_ <=? _); [|done].
  destruct (sane_control_option_word sane w hd index) as [[w' status] v].
  simpl in Hbad. by rewrite Hbad.
Qed.

(** A failed read of a string option yields the number 0 and, as the
    string, the buffer as the backend left it. *)
Lemma get_sane_option_value_failed_string w hd index odesc :
  sane_get_option_descriptor sane w hd index = Some odesc →
  od_type odesc = SANE_TYPE_STRING →
  status_good (snd (fst (sane_control_option_string sane w hd index))) = false →
  snd (get_sane_option_value (regex_t := regex_t) sane w (Some hd) index)
  = {| num_value := 0;
       str_value_str :=
         Some (cstring_of_buffer
                 (string_buffer (od_size odesc)
                    (snd (sane_control_option_string sane w hd index))));
       str_value_reg := None |}.
Proof.
  intros Hdesc Htype Hbad. unfold get_sane_option_value. rewrite Hdesc, Htype. simpl.
  destruct (sane_control_option_string sane w hd index) as [[w' status] written].
  simpl in *. by rewrite Hbad.
Qed.

(** C6, as the code has it: a failed descriptor lookup fails the
    assertion of the poll loop, and a failed read is not skipped: the
    value [get_sane_option_value] returns then takes the place of the
    current value and replaces the last observed one.  For a numerical
    option it is the zero value, so the rule fires exactly when the last
    observed value is its from-value and its to-value is 0; for a string
    option it is the number 0 with the buffer as the backend left it, so
    the rule fires exactly when its from-pattern matches the last
    observed string and its to-pattern matches that buffer. *)
Theorem failed_read_is_compared_as_zero timeout si (o : option_rule) hd script_
    (s : PState) :
  opts (st s) !! si = Some o →
  h (st s) = Some hd →
  script o = Some script_ → script_ ≠ EmptyString →
  triggered (st s) = false →
  (sane_get_option_descriptor sane (world s) hd (opt_number o) = None →
   Poll_option timeout si s = Abort s) ∧
  (∀ odesc,
     sane_get_option_descriptor sane (world s) hd (opt_number o) = Some odesc →
     is_numerical (od_type odesc) = true →
     find_option (opts (st s)) si (opt_number o) = None →
     status_good (snd (fst (sane_control_option_word sane (world s) hd (opt_number o))))
     = false →
     ∃ s1 s2,
       sample sane si o s = Ok sane_option_value_init s1 ∧
       sample_and_compare sane rx odesc si o s = Ok tt s2 ∧
       (triggered (st s2) = true ↔
        num_value (value o) = num_value (from_value o) ∧ 0 = num_value (to_value o)) ∧
       value <$> opts (st s2) !! si = Some sane_option_value_init ∧
       Poll_option timeout si s
       = (if triggered (st s2) then Dispatch timeout odesc s2 else Ok tt s2)) ∧
  (∀ odesc from_reg to_reg last,
     sane_get_option_descriptor sane (world s) hd (opt_number o) = Some odesc →
     od_type odesc = SANE_TYPE_STRING →
     find_option (opts (st s)) si (opt_number o) = None →
     status_good (snd (fst (sane_control_option_string sane (world s) hd (opt_number o))))
     = false →
     str_value_reg (from_value o) = Some from_reg →
     str_value_reg (to_value o) = Some to_reg →
     str_value_str (value o) = Some last →
     let left :=
       cstring_of_buffer
         (string_buffer (od_size odesc)
            (snd (sane_control_option_string sane (world s) hd (opt_number o)))) in
     let v := {| num_value := 0; str_value_str := Some left; str_value_reg := None |} in
     ∃ s1 s2,
       sample sane si o s = Ok v s1 ∧
       sample_and_compare sane rx odesc si o s = Ok tt s2 ∧
       (triggered (st s2) = true ↔
        regexec rx from_reg last = 0 ∧ regexec rx to_reg left = 0) ∧
       value <$> opts (st s2) !! si = Some v ∧
       Poll_option timeout si s
       = (if triggered (st s2) then Dispatch timeout odesc s2 else Ok tt s2)).
Proof.
  intros Ho Hh Hscript Hne Hidle. split; [|split].
  - intros Hdesc. unfold poll_option, bind, get_st, get_world.
    unfold get_option_descriptor. by rewrite Ho, Hh, Hdesc.
  - intros odesc Hdesc Hnum Hfirst Hbad.
    assert (∃ s1, sample sane si o s = Ok sane_option_value_init s1) as [s1 Hsample].
    { unfold sample, bind, get_st. rewrite Hfirst.
      unfold query_option_value, bind, get_st, get_world, emit, put_world, ret.
      cbn [st world]. rewrite Hh.
      rewrite (get_sane_option_value_failed _ _ _ _ Hdesc Hnum Hbad). eauto. }
    destruct (numerical_rule_fires_iff sane rx os penv cfg SCANBD_NULL_STRING
                make_script_path_abs timeout si o odesc script_ s
                sane_option_value_init s1)
      as (s2 & Hcmp & Hfire & _ & Hval & Hpoll); try done.
    { unfold get_option_descriptor. by rewrite Hh. }
    exists s1, s2. split; [done|]. split; [done|]. split; [|done].
    rewrite Hfire. unfold numeric_transition. simpl. intuition.
  - intros odesc from_reg to_reg last Hdesc Htype Hfirst Hbad Hfrom Hto Hlast left v.
    assert (∃ s1, sample sane si o s = Ok v s1) as [s1 Hsample].
    { unfold sample, bind, get_st. rewrite Hfirst.
      unfold query_option_value, bind, get_st, get_world, emit, put_world, ret.
      cbn [st world]. rewrite Hh.
      rewrite (get_sane_option_value_failed_string _ _ _ _ Hdesc Htype Hbad). eauto. }
    destruct (string_rule_fires_iff sane rx os penv cfg SCANBD_NULL_STRING
                make_script_path_abs timeout si o odesc script_ s v s1
                from_reg to_reg last left)
      as (s2 & Hcmp & Hfire & _ & Hval & Hpoll); try done.
    { unfold get_option_descriptor. by rewrite Hh. }
    exists s1, s2. by repeat (split; [done|]).
Qed.

(** The value a function's entry is formatted from when an installed
    action has the same option number: the device is not read, and the
    value is not the action's last observed value but the initial one. *)
Lemma function_value_shared number (s : PState) :
  is_Some (find_option (opts (st s)) (num_of_options_with_scripts (st s)) number) →
  function_value sane number s = Ok sane_option_value_init s.
Proof. intros [o Ho]. unfold function_value, bind, get_st. by rewrite Ho. Qed.

Lemma function_value_not_shared number (s : PState) :
  find_option (opts (st s)) (num_of_options_with_scripts (st s)) number = None →
  function_value sane number s = query_option_value sane number s.
Proof. intros Ho. unfold function_value, bind, get_st. by rewrite Ho. Qed.

(** A positive error code of [regcomp] leaves [valid] true. *)
Lemma string_trigger_valid_nonnegative action_i :
  0 <= fst (regcomp rx (string_from_value action_i)) →
  0 <= fst (regcomp rx (string_to_value action_i)) →
  string_trigger_valid rx action_i = true.
Proof.
  intros Hfrom Hto. unfold string_trigger_valid.
  destruct (Z.ltb_spec (fst (regcomp rx (string_from_value action_i))) 0); [lia|].
  by destruct (Z.ltb_spec (fst (regcomp rx (string_to_value action_i))) 0); [lia|].
Qed.

End FailedReads.

(** ** The scenarios, run *)

Module ScenarioFacts.
Import Bench Scenario.

(** C1: the poller fires a rule on a numerical option exactly when the
    last observed value is the rule's from-value and the current value is
    its to-value, and then replaces the last observed value; so the button
    rule (from 0 to 1), with the button at 0 when the rule is installed
    and reading 0, 0, 1, 1, 0 in five iterations, gives one trigger signal
    and one spawn of the script, in the third iteration. *)
Theorem numerical_trigger_fires_on_transition :
  (∀ (World Handle regex_t : Type) (sane : sane_api World Handle) (rx : regex_api regex_t)
     (os : os_api World) penv cfg NULL_STRING make_abs timeout si
     (o : sane_dev_option regex_t) odesc script_ (s : PState World Handle regex_t) v s1,
     opts (st s) !! si = Some o →
     get_option_descriptor sane (world s) (h (st s)) (opt_number o) = Some odesc →
     is_numerical (od_type odesc) = true →
     script o = Some script_ → script_ ≠ EmptyString →
     triggered (st s) = false →
     sample sane si o s = Ok v s1 →
     ∃ s2, sample_and_compare sane rx odesc si o s = Ok tt s2 ∧
           (triggered (st s2) = true ↔ numeric_transition o v) ∧
           (triggered (st s2) = true → triggered_option (st s2) = Z.of_nat si) ∧
           value <$> opts (st s2) !! si = Some v ∧
           poll_option sane rx os penv cfg NULL_STRING make_abs timeout si s
           = (if triggered (st s2)
              then dispatch sane os penv cfg NULL_STRING make_abs timeout odesc s2
              else Ok tt s2)) ∧
  values_read 3 (events (run_sane_poll button_config 5 button_device))
  = [(0, None); (0, None); (0, None); (1, None); (1, None); (0, None)] ∧
  (λ k, (trigger_signals (iteration_events button_config button_device k),
         spawned (iteration_events button_config button_device k)))
    <$> [1; 2; 3; 4; 5]%nat
  = [(0, []); (0, []); (1, ["/tmp/s.sh"]); (0, []); (0, [])]%nat.
Proof.
  split; [|split; vm_compute; reflexivity].
  intros. by eapply numerical_rule_fires_iff.
Qed.

Lemma numerical_trigger_fires_on_transition_witness :
  ∃ s2, sample_and_compare sane rx button_descriptor 0 button_rule third_iteration
        = Ok tt s2 ∧
        (triggered (st s2) = true ↔ numeric_transition button_rule one) ∧
        (triggered (st s2) = true → triggered_option (st s2) = Z.of_nat 0) ∧
        value <$> opts (st s2) !! 0%nat = Some one ∧
        poll_option sane rx os penv button_config SCANBD_NULL_STRING
          make_script_path_abs 100 0 third_iteration
        = (if triggered (st s2)
           then dispatch sane os penv button_config SCANBD_NULL_STRING
                  make_script_path_abs 100 button_descriptor s2
           else Ok tt s2).
Proof.
  refine (proj1 numerical_trigger_fires_on_transition _ _ _ sane rx os penv button_config
            SCANBD_NULL_STRING make_script_path_abs 100 0%nat button_rule
            button_descriptor "/tmp/s.sh" third_iteration one
            (final (sample sane 0 button_rule third_iteration)) _ _ _ _ _ _ _);
    try (vm_compute; reflexivity).
  discriminate.
Defined.

Lemma trigger_fields_invariant_witness :
  triggered (slot_at button_config button_device 3 12) = true ∧
  trigger_inv (slot_at button_config button_device 3 12).
Proof.
  split; [reflexivity|].
  apply (trigger_fields_invariant sane rx os penv button_config SCANBD_NULL_STRING
           C_TIMEOUT_DEF make_script_path_abs).
  apply (observable_poll sane rx os penv button_config SCANBD_NULL_STRING C_TIMEOUT_DEF
           make_script_path_abs button_device scanner [] 3 12
           (event_at button_config button_device 3 12)).
  vm_compute. reflexivity.
Defined.

Lemma device_closed_while_script_runs_witness :
  event_at button_config button_device 3 18
  = EvFork "/tmp/s.sh"
      [Some "PATH=/usr/bin:/bin"; Some "PWD=/"; Some "USER=root"; Some "HOME=/root";
       Some "SCANBD_DEVICE=test:0"; Some "SCANBD_ACTION=scan"; None] ∧
  h (slot_at button_config button_device 3 18) = None ∧
  script_window
    (poll_trace sane rx os penv button_config SCANBD_NULL_STRING C_TIMEOUT_DEF
       make_script_path_abs button_device scanner [] 3) 18.
Proof.
  split; [vm_compute; reflexivity|].
  destruct (device_closed_while_script_runs sane rx os penv button_config
              SCANBD_NULL_STRING C_TIMEOUT_DEF make_script_path_abs button_device
              scanner [] 3 18 (event_at button_config button_device 3 18)
              (slot_at button_config button_device 3 18)) as [Hh Hwin].
  - vm_compute. reflexivity.
  - vm_compute. reflexivity.
  - split; [exact Hh|]. apply Hwin. vm_compute. reflexivity.
Defined.

Lemma environment_has_F_plus_7_entries_witness :
  event_at resolution_config resolution_device 1 11 = EvFork "/tmp/s.sh" resolution_env ∧
  env_shape sane resolution_config (slot_at resolution_config resolution_device 1 11)
    resolution_env ∧
  ∃ j t',
    (j = 11%nat ∨ 11%nat = (j + 4)%nat) ∧
    poll_trace sane rx os penv resolution_config SCANBD_NULL_STRING C_TIMEOUT_DEF
      make_script_path_abs resolution_device scanner [] 1 !! j
    = Some (EvDbusSignalArgv SCANBD_DBUS_SIGNAL_TRIGGER resolution_env, t') ∧
    env_read sane
      (poll_trace sane rx os penv resolution_config SCANBD_NULL_STRING C_TIMEOUT_DEF
         make_script_path_abs resolution_device scanner [] 1)
      j t' resolution_env.
Proof.
  split; [vm_compute; reflexivity|].
  apply (environment_has_F_plus_7_entries sane rx os penv resolution_config
           SCANBD_NULL_STRING C_TIMEOUT_DEF make_script_path_abs resolution_device
           scanner [] 1 11 (event_at resolution_config resolution_device 1 11)).
  - vm_compute. reflexivity.
  - right. exists "/tmp/s.sh". vm_compute. reflexivity.
Defined.

Lemma sane_trigger_action_sets_trigger_witness :
  sane_trigger_action 0 0
    {| num_devices := 1; sane_poll_threads := None |}
    [{| num_devices := 1; sane_poll_threads := Some 1%nat |}]
    busy_slot [idle_slot]
  = (Triggered (set_trigger idle_slot true 0),
     [TLock sane_mutex; TCondWait sane_cv sane_mutex;
      TLock (device_mutex 0); TCondWait (device_cv 0) (device_mutex 0);
      TSetTriggered 0 0; TCondBroadcast (device_cv 0);
      TUnlock (device_mutex 0); TUnlock sane_mutex]).
Proof.
  refine (sane_trigger_action_sets_trigger 0 0
            {| num_devices := 1; sane_poll_threads := None |}
            [{| num_devices := 1; sane_poll_threads := Some 1%nat |}]
            busy_slot [idle_slot]
            [{| num_devices := 1; sane_poll_threads := None |}]
            {| num_devices := 1; sane_poll_threads := Some 1%nat |} [] 1%nat
            [busy_slot] idle_slot [] _ _ _ _ _ _ _ _ _).
  - simpl. lia.
  - change (num_of_options_with_scripts busy_slot) with 1%nat. lia.
  - reflexivity.
  - repeat constructor.
  - reflexivity.
  - simpl. lia.
  - reflexivity.
  - repeat constructor.
  - reflexivity.
Defined.

(** C4 on a concrete input: the from-pattern [(] does not compile
    ([regcomp] returns [REG_EPAREN]), and yet the rule is installed: the
    number of installed actions grows from 0 to 1, and the installed entry
    holds the pattern and the [regex_t] that was not compiled. *)
Theorem broken_pattern_rule_is_installed :
  fst (regcomp rx "(") = REG_EPAREN ∧
  string_trigger_valid rx
    (string_action "color" "^mode$" "/tmp/s.sh" "(" "^scan-.*") = true ∧
  installed (run_sane_poll broken_pattern_config 0 mode_device)
  = [{| opt_number := 5;
        from_value := {| num_value := 0; str_value_str := Some "(";
                         str_value_reg := Some "(" |};
        to_value := {| num_value := 0; str_value_str := Some "^scan-.*";
                       str_value_reg := Some "^scan-.*" |};
        value := {| num_value := hash "idle"; str_value_str := Some "idle";
                    str_value_reg := None |};
        script := Some "/tmp/s.sh";
        action_name := Some "color" |}].
Proof. repeat split; vm_compute; reflexivity. Qed.

(** C5 on a concrete input: the function and the action are both on the
    button; when the action fires its last observed value is 1, and the
    function's entry of the environment says 0. *)
Theorem shared_function_entry_is_zero :
  last_observed (run_sane_poll shared_config 1 pressed_device) = [(1, None)] ∧
  event_at shared_config pressed_device 1 6
  = EvDbusSignalArgv SCANBD_DBUS_SIGNAL_TRIGGER
      [Some "SCANBD_FUNCTION_BUTTON=0"; Some "PATH=/usr/bin:/bin"; Some "PWD=/";
       Some "USER=root"; Some "HOME=/root"; Some "SCANBD_DEVICE=test:0";
       Some "SCANBD_ACTION=scan"; None] ∧
  (num_value ∘ value) <$> opts (slot_at shared_config pressed_device 1 6) !! 0%nat
  = Some 1 ∧
  values_read 3 (events (run_sane_poll shared_config 1 pressed_device))
  = [(0, None); (1, None)].
Proof. repeat split; vm_compute; reflexivity. Qed.

(** C6 fails on a concrete input: the button is 1 when the rule from 1 to
    0 is installed, the read of the first iteration fails, and the rule
    fires in that iteration; afterwards the last observed value is 0. *)
Lemma failed_read_fires_rule :
  opts (st release_start) !! 0%nat = Some release_rule ∧
  snd (fst (sane_control_option_word sane (world release_start) tt 3))
  = SANE_STATUS_IO_ERROR ∧
  trigger_signals (iteration_events release_config failing_device 1) = 1%nat ∧
  spawned (iteration_events release_config failing_device 1) = ["/tmp/s.sh"] ∧
  last_observed (run_sane_poll release_config 1 failing_device) = [(0, None)].
Proof. repeat split; vm_compute; reflexivity. Qed.

Lemma failed_read_is_compared_as_zero_witness :
  ∃ s1 s2,
    sample sane 0 release_rule release_start = Ok sane_option_value_init s1 ∧
    sample_and_compare sane rx button_descriptor 0 release_rule release_start
    = Ok tt s2 ∧
    (triggered (st s2) = true ↔ 1 = 1 ∧ 0 = 0) ∧
    value <$> opts (st s2) !! 0%nat = Some sane_option_value_init ∧
    poll_option sane rx os penv release_config SCANBD_NULL_STRING
      make_script_path_abs 100 0 release_start
    = (if triggered (st s2)
       then dispatch sane os penv release_config SCANBD_NULL_STRING
              make_script_path_abs 100 button_descriptor s2
       else Ok tt s2).
Proof.
  refine (proj1 (proj2 (failed_read_is_compared_as_zero sane rx os penv release_config
                          SCANBD_NULL_STRING make_script_path_abs 100 0%nat
                          release_rule tt "/tmp/s.sh" release_start _ _ _ _ _))
            button_descriptor _ _ _ _);
    try (vm_compute; reflexivity).
  discriminate.
Defined.

End ScenarioFacts.

Section ReadsFacts.
Context {World Handle regex_t : Type}.
Notation thread := (sane_thread Handle regex_t).
Notation PState := (PState World Handle regex_t).
Notation option_rule := (sane_dev_option regex_t).

Lemma reads_of_app number (tr1 tr2 : list (event * thread)) :
  reads_of number (tr1 ++ tr2) = reads_of number tr1 ++ reads_of number tr2.
Proof. apply omap_app. Qed.

(** [find_option] looks at the option numbers only. *)
Lemma find_option_same_numbers (os os' : list option_rule) limit number :
  opt_number <$> os' = opt_number <$> os →
  find_option os' limit number = find_option os limit number.
Proof.
  intros Hnum. unfold find_option.
  assert (∀ l : list option_rule,
            fst <$> list_find (λ o, opt_number o = number) l
            = fst <$> list_find (λ n, n = number) (opt_number <$> l)) as Hfmap.
  { intros l. rewrite list_find_fmap. by destruct (list_find _ l) as [[? ?]|]. }
  by rewrite !Hfmap, !fmap_take, Hnum.
Qed.

Lemma same_rules_numbers (t t' : thread) :
  same_rules t t' → opt_number <$> opts t' = opt_number <$> opts t.
Proof.
  intros [Hmap _].
  apply (f_equal (fmap fst)) in Hmap. by rewrite <- !list_fmap_compose in Hmap.
Qed.

Lemma same_rules_lookup (t t' : thread) i o' :
  same_rules t t' → opts t' !! i = Some o' →
  ∃ o, opts t !! i = Some o ∧ opt_number o = opt_number o' ∧ script o = script o'.
Proof.
  intros [Hmap _] Ho'.
  assert (((λ o, (opt_number o, script o)) <$> opts t) !! i
          = Some (opt_number o', script o')) as Hi.
  { by rewrite <- Hmap, list_lookup_fmap, Ho'. }
  rewrite list_lookup_fmap in Hi. destruct (opts t !! i) as [o|]; [|done].
  injection Hi as ? ?. eauto.
Qed.

Lemma find_option_Some (os : list option_rule) limit number first :
  find_option os limit number = Some first →
  (first < limit)%nat ∧
  (∃ o, os !! first = Some o ∧ opt_number o = number) ∧
  ∀ j o, (j < first)%nat → os !! j = Some o → opt_number o ≠ number.
Proof.
  unfold find_option. destruct (list_find _ _) as [[i o]|] eqn:Hfind; [|done].
  intros [= <-]. apply list_find_Some in Hfind as (Hi & Ho & Hbefore).
  apply lookup_take_Some in Hi as [Hi Hlt]. split; [done|]. split; [eauto|].
  intros j oj Hj Hoj. apply (Hbefore j oj); [|done].
  apply lookup_take_Some. split; [done|lia].
Qed.

Lemma find_option_None (os : list option_rule) limit number :
  find_option os limit number = None →
  ∀ j o, (j < limit)%nat → os !! j = Some o → opt_number o ≠ number.
Proof.
  unfold find_option. destruct (list_find _ _) as [[i o]|] eqn:Hfind; [done|].
  intros _ j o Hj Ho. apply list_find_None in Hfind.
  rewrite Forall_forall in Hfind. apply Hfind.
  apply list_elem_of_lookup. exists j. apply lookup_take_Some. eauto.
Qed.

(** The search over one more action. *)
Lemma find_option_S (os : list option_rule) k o number :
  os !! k = Some o →
  find_option os (S k) number
  = match find_option os k number with
    | Some first => Some first
    | None => if decide (opt_number o = number) then Some k else None
    end.
Proof.
  intros Ho. unfold find_option. rewrite (take_S_r _ _ _ Ho).
  destruct (list_find _ (take k os)) as [[i x]|] eqn:Hfind.
  - by rewrite (list_find_app_l _ _ _ _ _ Hfind).
  - rewrite list_find_app_r by done. simpl.
    assert (length (take k os) = k) as ->.
    { rewrite length_take. apply lookup_lt_Some in Ho. lia. }
    by destruct (decide (opt_number o = number)).
Qed.

End ReadsFacts.

Section PassFacts.
Context {World Handle regex_t : Type}.
Variable sane : sane_api World Handle.
Variable rx : regex_api regex_t.
Variable os : os_api World.
Variable penv : process_env.
Variable cfg : cfg_t.
Variable SCANBD_NULL_STRING : string.
Variable make_script_path_abs : string → option string.

Notation thread := (sane_thread Handle regex_t).
Notation PState := (PState World Handle regex_t).
Notation option_rule := (sane_dev_option regex_t).
Notation Poll_option :=
  (poll_option sane rx os penv cfg SCANBD_NULL_STRING make_script_path_abs).
Notation Dispatch :=
  (dispatch sane os penv cfg SCANBD_NULL_STRING make_script_path_abs).

Lemma interfere_opts x (t : thread) : opts (interfere x t) = opts t.
Proof.
  destruct x as [|[a|] x]; simpl; try done.
  unfold external_trigger. by destruct (_ && _).
Qed.

Lemma no_polled_read_refl (s : PState) : no_polled_read s s.
Proof.
  split; [done|]. split; [done|]. exists []. split; [by rewrite app_nil_r|done].
Qed.

Lemma no_polled_read_trans (s s1 s2 : PState) :
  no_polled_read s s1 → no_polled_read s1 s2 → no_polled_read s s2.
Proof.
  intros (Ho1 & Hc1 & new1 & Ht1 & Hq1) (Ho2 & Hc2 & new2 & Ht2 & Hq2).
  split; [congruence|]. split; [congruence|].
  exists (new1 ++ new2). split; [by rewrite Ht2, Ht1, app_assoc|].
  intros number Hp. rewrite reads_of_app, Hq1 by done. apply Hq2.
  unfold polled. by rewrite Ho1, Hc1.
Qed.

(** A read of an option that no installed action has. *)
Lemma unpolled_read_quiet (t : thread) index num str number (snap : thread) :
  find_option (opts t) (num_of_options_with_scripts t) index = None →
  polled t number →
  reads_of number [(EvGetValue index num str, snap)] = [].
Proof.
  intros Hnone [first Hfirst]. unfold reads_of. simpl.
  destruct (Nat.eqb_spec index number) as [->|]; [congruence|done].
Qed.

(** Steps that change neither the actions nor read a polled option. *)
Ltac solve_frame :=
  lazymatch goal with
  | |- no_polled_read ?s _ =>
    split; [|split]; cbn [st trace world external];
    [ repeat (progress (simpl; rewrite ?interfere_opts)); reflexivity
    | repeat (progress (simpl; rewrite ?interfere_count)); reflexivity
    | eexists; split;
      [ first [ rewrite <- ?app_assoc; reflexivity | symmetry; apply app_nil_r ]
      | intros ? ?; first [ solve [eauto using unpolled_read_quiet] | reflexivity ] ] ]
  end.

Lemma function_entry_frame odesc e (s : PState) :
  wp (function_entry sane odesc e) (λ _, no_polled_read s) (no_polled_read s) s.
Proof.
  unfold function_entry, function_value. wp_go; solve_frame.
Qed.

Lemma build_env_frame odesc fired (s : PState) :
  wp (build_env sane penv cfg odesc fired) (λ _, no_polled_read s) (no_polled_read s) s.
Proof.
  unfold build_env. cbv zeta. wp_go.
  eapply wp_mono; [apply wp_fold_each with (I := λ _, no_polled_read s)| |done].
  - apply no_polled_read_refl.
  - intros envp e s1 _ Hs1. wp_go.
    eapply wp_mono; [apply function_entry_frame| |].
    + intros entry s2 Hs2. wp_go. by eapply no_polled_read_trans.
    + intros s2 Hs2. by eapply no_polled_read_trans.
  - intros filled s1 Hs1. cbv beta. by wp_go.
Qed.

Lemma dispatch_frame timeout odesc (s : PState) :
  wp (Dispatch timeout odesc) (λ _, no_polled_read s) (no_polled_read s) s.
Proof.
  unfold dispatch. wp_go; try apply no_polled_read_refl.
  eapply wp_mono; [apply build_env_frame| |done].
  intros envp s1 Hs1. cbv beta.
  unfold close_device, run_script, open_device. cbv zeta.
  wp_go; (eapply no_polled_read_trans; [exact Hs1|]); try apply no_polled_read_refl;
    solve_frame.
Qed.

(** *** The invariant of a pass *)

Lemma fmap_alter_same {A B} (g : A → B) (f : A → A) (l : list A) i :
  (∀ x, g (f x) = g x) → g <$> alter f i l = g <$> l.
Proof.
  intros Hg. apply list_eq. intros j. rewrite !list_lookup_fmap.
  destruct (decide (i = j)) as [->|Hne].
  - rewrite list_lookup_alter_eq. destruct (l !! j); simpl; [by rewrite Hg|done].
  - by rewrite list_lookup_alter_ne.
Qed.

Lemma polled_same_rules (t t' : thread) number :
  same_rules t t' → polled t number → polled t' number.
Proof.
  intros Hsame Hp. unfold polled. destruct Hsame as [Hmap Hcount]. rewrite Hcount.
  rewrite (find_option_same_numbers (opts t) (opts t')); [done|].
  by apply same_rules_numbers.
Qed.

Lemma polled_lookup (t : thread) i o :
  (i < num_of_options_with_scripts t)%nat → opts t !! i = Some o →
  polled t (opt_number o).
Proof.
  intros Hi Ho. unfold polled.
  destruct (find_option _ _ _) eqn:Hfind; [done|].
  by destruct (find_option_None _ _ _ Hfind i o Hi Ho).
Qed.

Lemma pass_inv_start (s : PState) : pass_inv s 0 s.
Proof.
  split; [done|]. exists []. split; [by rewrite app_nil_r|].
  intros number _. unfold find_option. by rewrite take_0.
Qed.

Lemma pass_inv_cut (s s' : PState) k : pass_inv s k s' → pass_cut s s'.
Proof.
  intros (_ & new & Htrace & Hreads). exists new. split; [done|].
  intros number Hp. specialize (Hreads number Hp).
  destruct (find_option _ _ _); [destruct Hreads as (r & -> & _)|rewrite Hreads];
    simpl; lia.
Qed.

Lemma pass_inv_frame (s s1 s2 : PState) k :
  pass_inv s k s1 → no_polled_read s1 s2 → pass_inv s k s2.
Proof.
  intros (Hsame & new & Htrace & Hreads) (Hopts & Hcount & new2 & Htrace2 & Hquiet).
  split.
  { destruct Hsame as [Hmap Hc]. split; [by rewrite Hopts|congruence]. }
  exists (new ++ new2). split; [by rewrite Htrace2, Htrace, app_assoc|].
  intros number Hp. specialize (Hreads number Hp).
  rewrite reads_of_app, (Hquiet number), app_nil_r by (by eapply polled_same_rules).
  destruct (find_option _ _ _); [|done].
  destruct Hreads as (r & Hr & Hvalues). exists r. split; [done|].
  intros i o Hi Ho Hno. apply (Hvalues i); [done| |done]. by rewrite <- Hopts.
Qed.

(** The step of the pass over action [k]: its option is read now if no
    earlier action has it, and otherwise the value of the first such
    action is copied. *)
Lemma pass_inv_step (s s' mid : PState) k (ok : option_rule) v ev :
  pass_inv s k s' →
  opts (st s') !! k = Some ok →
  opts (st mid) = alter (λ o, set_value o v) k (opts (st s')) →
  num_of_options_with_scripts (st mid) = num_of_options_with_scripts (st s') →
  trace mid = trace s' ++ ev →
  (find_option (opts (st s')) k (opt_number ok) = None ∧
   reads_of (opt_number ok) ev = [reading_of v] ∧
   (∀ n, n ≠ opt_number ok → reads_of n ev = []))
  ∨ (∃ first earlier,
       find_option (opts (st s')) k (opt_number ok) = Some first ∧
       opts (st s') !! first = Some earlier ∧
       reading_of v = reading_of (value earlier) ∧
       ∀ n, reads_of n ev = []) →
  pass_inv s (S k) mid.
Proof.
  intros (Hsame & new & Htrace & Hreads) Hok Hopts Hcount Hmid Hcase.
  pose proof (same_rules_numbers _ _ Hsame) as Hnumbers.
  destruct (same_rules_lookup _ _ _ _ Hsame Hok) as (o0 & Ho0 & Hn0 & _).
  split.
  { destruct Hsame as [Hmap Hc]. split; [|congruence].
    rewrite Hopts, <- Hmap. by apply fmap_alter_same. }
  exists (new ++ ev). split; [by rewrite Hmid, Htrace, app_assoc|].
  intros number Hp. specialize (Hreads number Hp).
  rewrite (find_option_S _ _ _ _ Ho0), reads_of_app.
  rewrite !(find_option_same_numbers (opts (st s')) (opts (st s))) in * by done.
  assert (∀ i o, (i < k)%nat → opts (st mid) !! i = Some o → opts (st s') !! i = Some o)
    as Hbefore.
  { intros i o Hi. rewrite Hopts, list_lookup_alter_ne by lia. done. }
  assert (∀ o, opts (st mid) !! k = Some o → reading_of (value o) = reading_of v)
    as Hat.
  { intros o. rewrite Hopts, list_lookup_alter_eq, Hok. by intros [= <-]. }
  destruct (decide (opt_number o0 = number)) as [Heq|Hne].
  - (* the option of action [k] *)
    rewrite Hn0 in Heq. subst number.
    destruct Hcase as [(Hnone & Hev & _)|(first & earlier & Hfirst & Hearlier & Hv & Hev)].
    + rewrite Hnone in *. rewrite Hreads, Hev. simpl.
      exists (reading_of v). split; [done|]. intros i o Hi Ho Hno.
      destruct (decide (i = k)) as [->|]; [by apply Hat|].
      destruct (find_option_None _ _ _ Hnone i o); [lia|apply Hbefore; [lia|done]|done].
    + rewrite Hfirst in *. destruct Hreads as (r & Hr & Hvalues).
      rewrite Hr, Hev. exists r. split; [done|]. intros i o Hi Ho Hno.
      destruct (decide (i = k)) as [->|].
      * rewrite (Hat _ Ho), Hv.
        destruct (find_option_Some _ _ _ _ Hfirst) as (Hlt & (e & He & Hen) & _).
        apply (Hvalues first earlier).
        -- exact Hlt.
        -- exact Hearlier.
        -- rewrite Hearlier in He. injection He as <-. exact Hen.
      * apply (Hvalues i o); [lia|apply Hbefore; [lia|done]|done].
  - (* another option *)
    assert (reads_of number ev = []) as ->.
    { destruct Hcase as [(_ & _ & Hev)|(? & ? & _ & _ & _ & Hev)]; [|done].
      apply Hev. congruence. }
    rewrite app_nil_r.
    destruct (find_option (opts (st s')) k number); [|done].
    destruct Hreads as (r & Hr & Hvalues). exists r. split; [done|].
    intros i o Hi Ho Hno. destruct (decide (i = k)) as [->|].
    + rewrite Hopts, list_lookup_alter_eq, Hok in Ho. injection Ho as <-.
      simpl in Hno. congruence.
    + apply (Hvalues i o); [lia|apply Hbefore; [lia|done]|done].
Qed.

(** A pass cut short right after the option of action [k] was read. *)
Lemma pass_cut_read (s s' x : PState) k (ok : option_rule) ev :
  pass_inv s k s' →
  opts (st s') !! k = Some ok →
  find_option (opts (st s')) k (opt_number ok) = None →
  trace x = trace s' ++ ev →
  (length (reads_of (opt_number ok) ev) ≤ 1)%nat →
  (∀ n, n ≠ opt_number ok → reads_of n ev = []) →
  pass_cut s x.
Proof.
  intros (Hsame & new & Htrace & Hreads) Hok Hnone Hx Hlen Hev.
  pose proof (same_rules_numbers _ _ Hsame) as Hnumbers.
  exists (new ++ ev). split; [by rewrite Hx, Htrace, app_assoc|].
  intros number Hp. specialize (Hreads number Hp). rewrite reads_of_app, length_app.
  rewrite <- (find_option_same_numbers (opts (st s')) (opts (st s))) in Hnone by done.
  destruct (decide (number = opt_number ok)) as [->|Hne].
  - rewrite Hnone in Hreads. rewrite Hreads. simpl. lia.
  - rewrite (Hev _ Hne). simpl.
    destruct (find_option _ _ _); [destruct Hreads as (r & -> & _)|rewrite Hreads];
      simpl; lia.
Qed.

Lemma sample_and_compare_pass odesc k (ok : option_rule) (s s' : PState) :
  pass_inv s k s' →
  opts (st s') !! k = Some ok →
  wp (sample_and_compare sane rx odesc k ok) (λ _, pass_inv s (S k)) (pass_cut s) s'.
Proof.
  intros Hinv Hok. unfold sample_and_compare, sample, compare, store_value.
  wp_go.
  all: try (by eapply pass_inv_cut).
  all: try (eapply (pass_inv_step s s' _ k ok);
            [ exact Hinv | exact Hok | reflexivity | reflexivity
            | cbn [trace];
              first [ rewrite <- ?app_assoc; reflexivity | symmetry; apply app_nil_r ]
            | ]).
  all: try (right; eexists _, _; split; [eassumption|]; split; [eassumption|];
            split; [reflexivity|]; intros; reflexivity).
  all: try (left; split; [assumption|]; split;
            [ unfold reads_of; simpl; by rewrite Nat.eqb_refl
            | intros n Hn; unfold reads_of; simpl;
              by destruct (Nat.eqb_spec (opt_number ok) n) ]).
  eapply (pass_cut_read s s' _ k ok);
    [ exact Hinv | exact Hok | assumption | reflexivity
    | unfold reads_of; simpl; by rewrite Nat.eqb_refl
    | intros n Hn; unfold reads_of; simpl;
      by destruct (Nat.eqb_spec (opt_number ok) n) ].
Qed.

Lemma poll_option_pass timeout k (s s' : PState) :
  scripts_present (st s) →
  (k < num_of_options_with_scripts (st s))%nat →
  pass_inv s k s' →
  wp (Poll_option timeout k) (λ _, pass_inv s (S k)) (pass_cut s) s'.
Proof.
  intros Hscripts Hk Hinv. unfold poll_option.
  wp_go; try (by eapply pass_inv_cut);
    lazymatch goal with
       | |- wp _ _ _ _ =>
         eapply wp_mono; [by apply sample_and_compare_pass| |done];
         intros ? sa Hsa; cbv beta in *; wp_go; [|done];
         eapply wp_mono; [apply dispatch_frame| |];
         [ intros ? sb Hsb; by eapply pass_inv_frame
         | intros sb Hsb; eapply pass_inv_cut; by eapply pass_inv_frame ]
       | |- pass_inv _ _ _ =>
         (* no script, or an empty one *)
         exfalso;
         match goal with
         | Ho : opts (st s') !! k = Some ?o |- _ =>
           destruct (same_rules_lookup _ _ _ _ (proj1 Hinv) Ho) as (o0 & Ho0 & _ & Hs0);
           destruct (Hscripts k o0 Hk Ho0) as (script_ & Hscript & Hne)
         end;
         try match goal with
             | Hb : bool_decide _ = true |- _ => apply bool_decide_eq_true in Hb
             end;
         congruence
       end.
Qed.

Lemma pass_reads_once timeout (s : PState) :
  scripts_present (st s) →
  wp (for_each (seq 0 (num_of_options_with_scripts (st s))) (Poll_option timeout))
     (λ _, pass_inv s (num_of_options_with_scripts (st s))) (pass_cut s) s.
Proof.
  intros Hscripts. apply wp_for_each_seq with (I := pass_inv s).
  - apply pass_inv_start.
  - intros k s' Hk Hinv. by apply poll_option_pass.
Qed.

End PassFacts.

(** ** Every installed action has a script

    The rule compiler puts [SCANBD_NULL_STRING] in the place of a missing or
    empty script, so that the scripts of the installed actions are not empty
    as long as that string is not. *)

Section ScriptsInstalled.
Context {World Handle regex_t : Type}.
Variable sane : sane_api World Handle.
Variable rx : regex_api regex_t.
Variable os : os_api World.
Variable penv : process_env.
Variable cfg : cfg_t.
Variable SCANBD_NULL_STRING : string.
Variable C_TIMEOUT_DEF : Z.
Variable make_script_path_abs : string → option string.
Hypothesis null_string_not_empty : SCANBD_NULL_STRING ≠ EmptyString.

Notation thread := (sane_thread Handle regex_t).
Notation PState := (PState World Handle regex_t).
Notation option_rule := (sane_dev_option regex_t).
Notation Scripts := (λ (_ : unit) (s : PState), scripts_present (st s)).
Notation Anything := (λ _ : PState, True).

Lemma script_of_action_not_empty action_i :
  script_of_action SCANBD_NULL_STRING action_i ≠ EmptyString.
Proof.
  unfold script_of_action. destruct (action_script action_i) as [s|]; [|done].
  by case_bool_decide.
Qed.

Lemma scripts_present_none (t : thread) :
  num_of_options_with_scripts t = 0%nat → scripts_present t.
Proof. intros H0 i o Hi. lia. Qed.

Lemma scripts_present_same_opts (t t' : thread) :
  opts t' = opts t →
  num_of_options_with_scripts t' = num_of_options_with_scripts t →
  scripts_present t → scripts_present t'.
Proof. intros Ho Hc Hs i o. rewrite Ho, Hc. apply Hs. Qed.

Lemma scripts_present_same_rules (t t' : thread) :
  same_rules t t' → scripts_present t → scripts_present t'.
Proof.
  intros Hsame Hs i o' Hi Ho'.
  destruct (same_rules_lookup _ _ _ _ Hsame Ho') as (o & Ho & _ & <-).
  destruct Hsame as [_ Hc]. rewrite Hc in Hi. by apply (Hs i).
Qed.

(** [st->opts[n] = o], with the count left alone or advanced past [n]. *)
Lemma scripts_present_insert (t : thread) n (o : option_rule) c :
  scripts_present t →
  (∃ script_, script o = Some script_ ∧ script_ ≠ EmptyString) →
  c = num_of_options_with_scripts t ∨ c = count_after n (num_of_options_with_scripts t) →
  scripts_present (set_opts t (<[n := o]> (opts t)) c).
Proof.
  intros Hs Ho Hc i o' Hi Ho'. simpl in *.
  apply list_lookup_insert_Some in Ho' as [(-> & <- & _)|[Hne Ho']]; [done|].
  apply (Hs i); [|done].
  destruct Hc as [->| ->]; [done|]. unfold count_after in Hi.
  destruct (Nat.eqb_spec n (num_of_options_with_scripts t)); lia.
Qed.

Ltac same_scripts :=
  lazymatch goal with
  | H : scripts_present ?t |- scripts_present _ =>
    first
      [ exact H
      | apply (scripts_present_same_opts t);
        [ repeat (progress (simpl; rewrite ?interfere_opts)); reflexivity
        | repeat (progress (simpl; rewrite ?interfere_count)); reflexivity
        | exact H ] ]
  end.

Ltac installed_script :=
  eexists; split; [reflexivity|apply script_of_action_not_empty].

Lemma install_function_scripts function_i opt (s : PState) :
  scripts_present (st s) →
  wp (install_function function_i opt) Scripts Anything s.
Proof. intros Hs. unfold install_function. cbv zeta. wp_go; first [done|same_scripts]. Qed.

Lemma install_action_scripts action_i title opt odesc (s : PState) :
  scripts_present (st s) →
  wp (install_action sane rx cfg SCANBD_NULL_STRING action_i title opt odesc)
     Scripts Anything s.
Proof.
  intros Hs. unfold install_action. cbv zeta. wp_go; try done.
  - apply scripts_present_insert; [|installed_script|by right].
    apply scripts_present_insert; [done|installed_script|by left].
  - apply scripts_present_insert; [|installed_script|by right].
    apply scripts_present_insert; [done|installed_script|by left].
  - apply scripts_present_insert; [|installed_script|by left].
    apply scripts_present_insert; [done|installed_script|by left].
Qed.

Lemma sane_find_matching_functions_scripts sec (s : PState) :
  scripts_present (st s) →
  wp (sane_find_matching_functions sane rx sec) Scripts Anything s.
Proof.
  intros Hs. unfold sane_find_matching_functions.
  apply wp_for_each with (I := λ s, scripts_present (st s)); [done|].
  intros function_i s1 _ Hs1. cbv zeta.
  wp_go; [done|].
  apply wp_for_each with (I := λ s, scripts_present (st s)); [done|].
  intros opt s2 _ Hs2.
  wp_go; [|done]. by apply install_function_scripts.
Qed.

Lemma sane_find_matching_options_scripts sec (s : PState) :
  scripts_present (st s) →
  wp (sane_find_matching_options sane rx cfg SCANBD_NULL_STRING sec) Scripts Anything s.
Proof.
  intros Hs. unfold sane_find_matching_options.
  apply wp_for_each with (I := λ s, scripts_present (st s)); [done|].
  intros action_i s1 _ Hs1. cbv zeta.
  wp_go; [done|].
  apply wp_for_each with (I := λ s, scripts_present (st s)); [done|].
  intros opt s2 _ Hs2.
  wp_go; [|done]. by apply install_action_scripts.
Qed.

Lemma sane_poll_startup_scripts (s : PState) :
  wp (sane_poll_startup sane rx cfg SCANBD_NULL_STRING C_TIMEOUT_DEF)
     (λ _ s', scripts_present (st s')) Anything s.
Proof.
  unfold sane_poll_startup, open_device, allocate_rules. cbv zeta.
  wp_go; try done.
  eapply wp_mono;
    [apply sane_find_matching_options_scripts; by apply scripts_present_none| |done].
  intros ? s1 Hs1. cbv beta. wp_go.
  eapply wp_mono; [by apply sane_find_matching_functions_scripts| |done].
  intros ? s2 Hs2. cbv beta. wp_go.
  eapply wp_mono;
    [apply wp_for_each with (I := λ s, scripts_present (st s)); [done|]
    |intros ? s3 Hs3; by apply wp_ret
    |done].
  intros loc_i s3 _ Hs3. wp_go; try done.
  eapply wp_mono; [by apply sane_find_matching_options_scripts| |done].
  intros ? s4 Hs4. by apply sane_find_matching_functions_scripts.
Qed.

Lemma sane_poll_iteration_scripts timeout (s : PState) :
  scripts_present (st s) →
  wp (sane_poll_iteration sane rx os penv cfg SCANBD_NULL_STRING make_script_path_abs
        timeout)
     Scripts Anything s.
Proof.
  intros Hs. unfold sane_poll_iteration. wp_go.
  eapply wp_mono; [by apply pass_reads_once| |done].
  intros ? s1 [Hsame _]. cbv beta.
  pose proof (scripts_present_same_rules _ _ Hsame Hs) as Hs1.
  wp_go. same_scripts.
Qed.

Lemma sane_poll_loop_scripts iterations timeout (s : PState) :
  scripts_present (st s) →
  wp (sane_poll_loop sane rx os penv cfg SCANBD_NULL_STRING make_script_path_abs
        iterations timeout)
     Scripts Anything s.
Proof.
  revert s. induction iterations as [|n IH]; intros s Hs; simpl; [done|].
  apply wp_bind. eapply wp_mono; [by apply sane_poll_iteration_scripts| |done].
  intros ? s1 Hs1. by apply IH.
Qed.

(** X7: when [SCANBD_NULL_STRING] is not empty, each pass of the loop of
    [sane_poll] starts in a state in which every installed action has a
    script that is not empty (the compiler puts [SCANBD_NULL_STRING] in the
    place of a missing or empty one): the state in which the thread is
    after its start and any number of iterations. *)
Lemma sane_poll_scripts_present iterations (s s' : PState) :
  sane_poll sane rx os penv cfg SCANBD_NULL_STRING C_TIMEOUT_DEF make_script_path_abs
    iterations s = Ok tt s' →
  scripts_present (st s').
Proof.
  intros Hrun.
  assert (wp (sane_poll sane rx os penv cfg SCANBD_NULL_STRING C_TIMEOUT_DEF
                make_script_path_abs iterations)
             Scripts Anything s) as Hwp.
  { unfold sane_poll. apply wp_bind.
    eapply wp_mono; [apply sane_poll_startup_scripts| |done].
    intros timeout s1 Hs1. cbv beta. by apply sane_poll_loop_scripts. }
  unfold wp in Hwp. by rewrite Hrun in Hwp.
Qed.

End ScriptsInstalled.

Section PassClaim.
Context {World Handle regex_t : Type}.
Variable sane : sane_api World Handle.
Variable rx : regex_api regex_t.
Variable os : os_api World.
Variable penv : process_env.
Variable cfg : cfg_t.
Variable SCANBD_NULL_STRING : string.
Variable make_script_path_abs : string → option string.

Notation thread := (sane_thread Handle regex_t).
Notation PState := (PState World Handle regex_t).
Notation option_rule := (sane_dev_option regex_t).
Notation Poll_option :=
  (poll_option sane rx os penv cfg SCANBD_NULL_STRING make_script_path_abs).

(** C8: in one pass of the loop over the installed actions, an action
    whose option no earlier action has reads the option through
    [get_sane_option_value]; an action whose option an earlier action has
    copies the value of the first such action (number and string) without
    touching the device; so when the pass is over the option of every
    action was read exactly once and every action with that option holds
    the value of that read, and in a pass that is cut short no such option
    was read twice.  The pass starts in a state in which every installed
    action has a script, as it does in every run of [sane_poll] in which
    [SCANBD_NULL_STRING] is not the empty string
    ([sane_poll_scripts_present]). *)
Theorem option_read_once_per_pass timeout (s : PState) :
  scripts_present (st s) →
  (∀ (s1 : PState) si (o : option_rule),
     find_option (opts (st s1)) si (opt_number o) = None →
     sample sane si o s1 = query_option_value sane (opt_number o) s1) ∧
  (∀ (s1 : PState) si (o : option_rule) first earlier,
     find_option (opts (st s1)) si (opt_number o) = Some first →
     opts (st s1) !! first = Some earlier →
     sample sane si o s1 = Ok (copy_value (value earlier)) s1) ∧
  read_once s
    (for_each (seq 0 (num_of_options_with_scripts (st s))) (Poll_option timeout) s).
Proof.
  intros Hscripts. split; [|split].
  - intros s1 si o Hnone. unfold sample, bind, get_st. by rewrite Hnone.
  - intros s1 si o first earlier Hfirst Hearlier.
    unfold sample, bind, get_st. by rewrite Hfirst, Hearlier.
  - pose proof (pass_reads_once sane rx os penv cfg SCANBD_NULL_STRING
                  make_script_path_abs timeout s Hscripts) as Hwp.
    unfold wp in Hwp. unfold read_once.
    destruct (for_each _ _ s) as [[] s'|s'|s'].
    + destruct Hwp as (_ & new & Htrace & Hreads). exists new. split; [done|].
      intros si o Hsi Ho.
      pose proof (polled_lookup _ _ _ Hsi Ho) as Hp.
      specialize (Hreads _ Hp). destruct Hp as [first Hfirst].
      by rewrite Hfirst in Hreads.
    + destruct Hwp as (new & Htrace & Hreads). exists new. split; [done|].
      intros si o Hsi Ho. apply Hreads. by eapply polled_lookup.
    + destruct Hwp as (new & Htrace & Hreads). exists new. split; [done|].
      intros si o Hsi Ho. apply Hreads. by eapply polled_lookup.
Qed.

End PassClaim.

Module PassScenario.
Import Bench Scenario.

Lemma multiple_start_scripts : scripts_present (st multiple_start).
Proof.
  intros i o Hi Ho.
  assert (num_of_options_with_scripts (st multiple_start) = 3%nat) as Hcount
    by (vm_compute; reflexivity).
  assert (script <$> opts (st multiple_start)
          = [Some "/tmp/a.sh"; Some "/tmp/b.sh"; Some "/tmp/c.sh"; None; None; None])
    as Hscripts by (vm_compute; reflexivity).
  assert ((script <$> opts (st multiple_start)) !! i = Some (script o)) as Hi'
    by (by rewrite list_lookup_fmap, Ho).
  rewrite Hcount in Hi. rewrite Hscripts in Hi'.
  destruct i as [|[|[|i]]]; [| | |lia]; simpl in Hi'; injection Hi' as <-;
    eexists; (split; [reflexivity|discriminate]).
Qed.

Lemma option_read_once_per_pass_witness :
  values_read 3 (events (for_each [0; 1; 2]%nat
                           (poll_option sane rx os penv multiple_config SCANBD_NULL_STRING
                              make_script_path_abs 100) multiple_start))
  = [(0, None); (0, None); (1, None)] ∧
  read_once multiple_start
    (for_each (seq 0 (num_of_options_with_scripts (st multiple_start)))
       (poll_option sane rx os penv multiple_config SCANBD_NULL_STRING
          make_script_path_abs 100) multiple_start).
Proof.
  split; [vm_compute; reflexivity|].
  exact (proj2 (proj2 (option_read_once_per_pass sane rx os penv multiple_config
                         SCANBD_NULL_STRING make_script_path_abs 100 multiple_start
                         multiple_start_scripts))).
Defined.

End PassScenario.

(** ** More about get_sane_option_value *)

Section SamplerFacts.
Context {World Handle regex_t : Type}.
Variable sane : sane_api World Handle.

Lemma cstring_of_buffer_length buf : (String.length (cstring_of_buffer buf) ≤ length buf)%nat.
Proof.
  induction buf as [|c buf IH]; simpl; [done|].
  destruct (is_nul c); simpl; lia.
Qed.

(** The buffer of a string option, terminated at [n]: the C string it
    holds is the one of the first [n] bytes the backend wrote. *)
Lemma terminated_buffer_cstring n : ∀ m (written : list ascii),
  (n < m)%nat →
  cstring_of_buffer (<[n := NUL]> (take (S n) (written ++ replicate m NUL)))
  = cstring_of_buffer (take n written).
Proof.
  induction n as [|n IH]; intros m written Hm.
  - destruct written as [|x w]; destruct m; try lia; done.
  - destruct written as [|x w].
    + destruct m; [lia|]. done.
    + cbn [app take]. cbn [insert list_insert]. cbn [cstring_of_buffer].
      destruct (is_nul x); [done|]. f_equal. apply IH. lia.
Qed.

(** X1: the string of a string option that is read successfully is the
    C string of the first [size] bytes the backend wrote, so it is never
    longer than the [size] of the option's descriptor ([str[size]] is set
    to NUL). *)
Theorem get_sane_option_value_string_bound w hd index odesc :
  sane_get_option_descriptor sane w hd index = Some odesc →
  od_type odesc = SANE_TYPE_STRING →
  0 <= od_size odesc →
  status_good (snd (fst (sane_control_option_string sane w hd index))) = true →
  ∃ s, str_value_str (snd (get_sane_option_value (regex_t := regex_t) sane w (Some hd) index))
       = Some s ∧
       s = cstring_of_buffer
             (take (Z.to_nat (od_size odesc))
                (snd (sane_control_option_string sane w hd index))) ∧
       Z.of_nat (String.length s) <= od_size odesc.
Proof.
  intros Hdesc Htype Hsize Hgood. unfold get_sane_option_value.
  rewrite Hdesc, Htype. simpl.
  destruct (sane_control_option_string sane w hd index) as [[w' status] written].
  simpl in *. rewrite Hgood. simpl. eexists. split; [done|].
  unfold string_buffer.
  replace (Z.to_nat (od_size odesc) + 1)%nat with (S (Z.to_nat (od_size odesc))) by lia.
  rewrite terminated_buffer_cstring by lia. split; [done|].
  pose proof (cstring_of_buffer_length (take (Z.to_nat (od_size odesc)) written)) as Hlen.
  rewrite length_take in Hlen. lia.
Qed.

(** X2: [get_sane_option_value] returns the zero value without asking the
    device when the option has no descriptor, when a numerical option has
    a size that is negative (the cast to [unsigned int] makes it large)
    or greater than [sizeof(long)], and when the type of the option is
    none of the five it knows. *)
Theorem get_sane_option_value_not_read w hd index :
  match sane_get_option_descriptor sane w hd index with
  | None => True
  | Some odesc =>
    -2 ^ 31 <= od_size odesc < 2 ^ 31 ∧
    if is_numerical (od_type odesc)
    then od_size odesc < 0 ∨ SIZEOF_LONG < od_size odesc
    else od_type odesc = SANE_TYPE_GROUP
  end →
  get_sane_option_value (regex_t := regex_t) sane w (Some hd) index
  = (w, sane_option_value_init).
Proof.
  unfold get_sane_option_value.
  destruct (sane_get_option_descriptor sane w hd index) as [odesc|]; [|done].
  intros [Hrange Hcase]. destruct (is_numerical (od_type odesc)) eqn:Hnum.
  - destruct (Z.leb_spec (od_size odesc mod 2 ^ 32) SIZEOF_LONG) as [Hle|]; [|done].
    exfalso. unfold SIZEOF_LONG in *. destruct Hcase as [Hneg|Hbig].
    + replace (od_size odesc) with (od_size odesc + 2 ^ 32 + (-1) * 2 ^ 32) in Hle by lia.
      rewrite Z.mod_add, Z.mod_small in Hle by lia. lia.
    + rewrite Z.mod_small in Hle by lia. lia.
  - by rewrite Hcase.
Qed.


End SamplerFacts.

(** ** sane_trigger_action keeps the locking strategy *)

Section LockingFacts.
Context {Handle regex_t : Type}.
Notation thread := (sane_thread Handle regex_t).



End LockingFacts.

(** ** Every run: the device, the scripts and the environment *)

Section FormatFacts.

Lemma substring_length n : ∀ s, (String.length (String.substring 0 n s) ≤ n)%nat.
Proof.
  induction n as [|n IH]; intros [|c s]; simpl; try lia.
  specialize (IH s). lia.
Qed.

Lemma snprintf_NAME_MAX_fits s : (String.length (snprintf_NAME_MAX s) < NAME_MAX)%nat.
Proof.
  unfold snprintf_NAME_MAX.
  pose proof (substring_length (NAME_MAX - 1) s). unfold NAME_MAX in *. lia.
Qed.

Lemma format_env_s_fits name v : entry_fits (Some (format_env_s name v)).
Proof. intros entry [= <-]. apply snprintf_NAME_MAX_fits. Qed.

Lemma format_env_lu_fits name v : entry_fits (Some (format_env_lu name v)).
Proof. intros entry [= <-]. apply snprintf_NAME_MAX_fits. Qed.

Lemma entry_fits_None : entry_fits None.
Proof. by intros entry. Qed.

Lemma entry_fits_empty : entry_fits (Some EmptyString).
Proof. intros entry [= <-]. unfold NAME_MAX. simpl. lia. Qed.

End FormatFacts.

Section EnvFits.
Context {Handle regex_t : Type}.
Variable penv : process_env.
Variable cfg : cfg_t.
Notation thread := (sane_thread Handle regex_t).

Lemma put_entry_fits a entry :
  Forall entry_fits (fst a) → entry_fits (Some entry) →
  Forall entry_fits (fst (put_entry a entry)).
Proof. intros Ha He. simpl. by apply Forall_insert. Qed.

Lemma finish_env_fits (t : thread) fired filled envp :
  Forall entry_fits filled →
  finish_env penv cfg t fired filled = Some envp →
  Forall entry_fits envp.
Proof.
  intros Hfilled. unfold finish_env.
  set (F := num_of_options_with_functions t).
  destruct (env_PATH_put penv (filled, F)) as [vpath ->].
  assert (Forall entry_fits
            (fst (env_PWD penv (put_entry (filled, F)
                                  (format_env_s (Some "PATH") (Some vpath)))))) as H2.
  { destruct (env_PWD_put penv (put_entry (filled, F)
                                  (format_env_s (Some "PATH") (Some vpath))))
      as [->|[vpwd ->]];
      repeat (apply put_entry_fits; [|apply format_env_s_fits]); done. }
  destruct (env_USER penv _) as [a3|] eqn:H3; [|done].
  apply env_USER_put in H3 as [vuser ->].
  destruct (env_HOME penv _) as [a4|] eqn:H4; [|done].
  apply env_HOME_put in H4 as [vhome ->].
  cbv zeta. destruct (_ =? _)%nat; [|done]. intros [= <-].
  apply Forall_insert; [|apply entry_fits_None].
  unfold env_configured.
  destruct (cfg_environment_action cfg), (cfg_environment_device cfg);
    repeat (apply put_entry_fits; [|apply format_env_s_fits]); done.
Qed.

End EnvFits.

Section PollerFine.
Context {World Handle regex_t : Type}.
Variable sane : sane_api World Handle.
Variable rx : regex_api regex_t.
Variable os : os_api World.
Variable penv : process_env.
Variable cfg : cfg_t.
Variable SCANBD_NULL_STRING : string.
Variable C_TIMEOUT_DEF : Z.
Variable make_script_path_abs : string → option string.

Notation thread := (sane_thread Handle regex_t).
Notation PState := (PState World Handle regex_t).
Notation Fine :=
  (λ s : PState, events_fine SCANBD_NULL_STRING make_script_path_abs (trace s)).

Lemma get_option_descriptor_open w (hd : option Handle) n odesc :
  get_option_descriptor sane w hd n = Some odesc → is_Some hd.
Proof. destruct hd; [by eexists|done]. Qed.

Lemma match_option_open creg w (t : thread) opt odesc :
  match_option sane rx creg w t opt = Some odesc → is_Some (h t).
Proof.
  unfold match_option.
  destruct (get_option_descriptor sane w (h t) opt) eqn:Hd; [|done].
  intros _. by eapply get_option_descriptor_open.
Qed.

Lemma events_fine_snoc (tr : list (event * thread)) e t :
  events_fine SCANBD_NULL_STRING make_script_path_abs tr →
  event_fine SCANBD_NULL_STRING make_script_path_abs e t →
  events_fine SCANBD_NULL_STRING make_script_path_abs (tr ++ [(e, t)]).
Proof. intros Htr He. apply Forall_app. split; [done|]. by repeat constructor. Qed.

Ltac solve_fine :=
  cbn [st trace world external] in *;
  repeat match goal with
         | |- events_fine _ _ (_ ++ [_]) => apply events_fine_snoc
         | |- event_fine _ _ _ _ => cbn [event_fine]
         | |- _ ∧ _ => split
         | |- _ => done
         | |- _ => eassumption
         | |- is_Some (h _) => progress simpl
         end.

Lemma install_action_fine action_i title opt odesc (s : PState) :
  is_Some (h (st s)) → Fine s →
  wp (install_action sane rx cfg SCANBD_NULL_STRING action_i title opt odesc)
     (λ _, Fine) Fine s.
Proof. intros Hh Hs. unfold install_action. cbv zeta. wp_go; solve_fine. Qed.

Lemma install_function_fine function_i opt (s : PState) :
  Fine s → wp (install_function function_i opt) (λ _, Fine) Fine s.
Proof. intros Hs. unfold install_function. cbv zeta. wp_go; solve_fine. Qed.

Lemma sane_find_matching_functions_fine sec (s : PState) :
  Fine s → wp (sane_find_matching_functions sane rx sec) (λ _, Fine) Fine s.
Proof.
  intros Hs. unfold sane_find_matching_functions.
  apply wp_for_each with (I := Fine) (E := Fine); [done|].
  intros function_i s1 _ Hs1. cbv zeta.
  wp_go; [done|].
  apply wp_for_each with (I := Fine) (E := Fine); [done|].
  intros opt s2 _ Hs2.
  wp_go; [|done]. by apply install_function_fine.
Qed.

Lemma sane_find_matching_options_fine sec (s : PState) :
  Fine s →
  wp (sane_find_matching_options sane rx cfg SCANBD_NULL_STRING sec) (λ _, Fine) Fine s.
Proof.
  intros Hs. unfold sane_find_matching_options.
  apply wp_for_each with (I := Fine) (E := Fine); [done|].
  intros action_i s1 _ Hs1. cbv zeta.
  wp_go; [done|].
  apply wp_for_each with (I := Fine) (E := Fine); [done|].
  intros opt s2 _ Hs2.
  wp_go; [|done]. apply install_action_fine; [|done].
  by eapply match_option_open.
Qed.

Lemma sane_poll_startup_fine (s : PState) :
  Fine s →
  wp (sane_poll_startup sane rx cfg SCANBD_NULL_STRING C_TIMEOUT_DEF) (λ _, Fine) Fine s.
Proof.
  intros Hs. unfold sane_poll_startup, open_device, allocate_rules. cbv zeta.
  wp_go; try solve [solve_fine].
  eapply wp_mono; [apply sane_find_matching_options_fine; solve_fine| |done].
  intros ? s1 Hs1. cbv beta. wp_go.
  eapply wp_mono; [by apply sane_find_matching_functions_fine| |done].
  intros ? s2 Hs2. cbv beta. wp_go.
  eapply wp_mono;
    [apply wp_for_each with (I := Fine) (E := Fine); [done|]
    |intros ? s3 Hs3; by apply wp_ret
    |done].
  intros loc_i s3 _ Hs3. wp_go; try done.
  eapply wp_mono; [by apply sane_find_matching_options_fine| |done].
  intros ? s4 Hs4. by apply sane_find_matching_functions_fine.
Qed.

Lemma function_entry_fine odesc e (s : PState) :
  Fine s →
  wp (function_entry sane odesc e)
     (λ entry s', Fine s' ∧ st s' = st s ∧ entry_fits (Some entry)) Fine s.
Proof.
  intros Hs. unfold function_entry, function_value.
  wp_go; solve_fine;
    first [ by eapply get_option_descriptor_open
          | apply format_env_lu_fits | apply format_env_s_fits ].
Qed.

Lemma build_env_fine odesc fired (s : PState) :
  Fine s →
  wp (build_env sane penv cfg odesc fired)
     (λ envp s', Fine s' ∧ st s' = st s ∧ Forall entry_fits envp) Fine s.
Proof.
  intros Hs. unfold build_env. cbv zeta. wp_go.
  eapply wp_mono;
    [apply wp_fold_each with
       (I := λ envp s', Fine s' ∧ st s' = st s ∧ Forall entry_fits envp)
       (E := Fine)| |done].
  - split; [done|]. split; [done|]. apply Forall_replicate, entry_fits_empty.
  - intros envp e s1 _ (Hs1 & Hst & Hfits). wp_go.
    eapply wp_mono; [by apply function_entry_fine| |done].
    intros entry s2 (Hs2 & Hst2 & Hentry). wp_go.
    split; [done|]. split; [congruence|]. by apply Forall_insert.
  - intros filled s1 (Hs1 & Hst & Hfits). cbv beta.
    destruct (finish_env penv cfg (st s) fired filled) as [envp|] eqn:Hfin; wp_go; [|done].
    split; [done|]. split; [done|]. by eapply finish_env_fits.
Qed.

Lemma dispatch_fine timeout odesc (s : PState) :
  Fine s → is_Some (h (st s)) → triggered (st s) = true →
  wp (dispatch sane os penv cfg SCANBD_NULL_STRING make_script_path_abs timeout odesc)
     (λ _, Fine) Fine s.
Proof.
  intros Hs Hh Htrig. unfold dispatch. wp_go; try done.
  eapply wp_mono; [by apply build_env_fine| |done].
  intros envp s1 (Hs1 & Hst & Hfits). cbv beta.
  unfold close_device, run_script, open_device. cbv zeta.
  wp_go; rewrite ?Hst in *; solve_fine;
    (split;
     [ match goal with
       | Hb : bool_decide (_ = SCANBD_NULL_STRING) = false |- _ =>
         by apply bool_decide_eq_false in Hb
       end
     | eexists _, _; split; [simpl; eassumption|]; split; eassumption ]).
Qed.

Lemma poll_option_fine timeout si (s : PState) :
  Fine s →
  wp (poll_option sane rx os penv cfg SCANBD_NULL_STRING make_script_path_abs timeout si)
     (λ _, Fine) Fine s.
Proof.
  intros Hs. unfold poll_option, sample_and_compare, sample, compare, store_value.
  wp_go; try done;
    try match goal with
        | Hd : get_option_descriptor sane _ (h (st s)) _ = Some _ |- _ =>
          pose proof (get_option_descriptor_open _ _ _ _ Hd) as Hopen
        end;
    try match goal with
        | Ht : _ && _ = true |- _ => apply andb_true_iff in Ht as [Ht _]
        end;
    try (apply dispatch_fine);
    solve_fine.
Qed.

Lemma sane_poll_iteration_fine timeout (s : PState) :
  Fine s →
  wp (sane_poll_iteration sane rx os penv cfg SCANBD_NULL_STRING make_script_path_abs
        timeout)
     (λ _, Fine) Fine s.
Proof.
  intros Hs. unfold sane_poll_iteration. wp_go.
  eapply wp_mono; [apply wp_for_each with (I := Fine) (E := Fine); [done|]| |done].
  - intros si s1 Hsi Hs1. by apply poll_option_fine.
  - intros ? s1 Hs1. cbv beta in *. wp_go. solve_fine.
Qed.

Lemma sane_poll_loop_fine iterations timeout (s : PState) :
  Fine s →
  wp (sane_poll_loop sane rx os penv cfg SCANBD_NULL_STRING make_script_path_abs
        iterations timeout)
     (λ _, Fine) Fine s.
Proof.
  revert s. induction iterations as [|n IH]; intros s Hs; simpl; [done|].
  apply wp_bind. eapply wp_mono; [by apply sane_poll_iteration_fine| |done].
  intros ? s1 Hs1. by apply IH.
Qed.

Lemma sane_poll_fine iterations (s : PState) :
  Fine s →
  Fine (final (sane_poll sane rx os penv cfg SCANBD_NULL_STRING C_TIMEOUT_DEF
                 make_script_path_abs iterations s)).
Proof.
  intros Hs.
  assert (wp (sane_poll sane rx os penv cfg SCANBD_NULL_STRING C_TIMEOUT_DEF
                make_script_path_abs iterations)
             (λ _, Fine) Fine s) as Hwp.
  { unfold sane_poll. apply wp_bind.
    eapply wp_mono; [by apply sane_poll_startup_fine| |done].
    intros timeout s1 Hs1. cbv beta. by apply sane_poll_loop_fine. }
  unfold wp in Hwp. by destruct (sane_poll _ _ _ _ _ _ _ _ _ s).
Qed.

(** Every event of a run of [sane_poll] satisfies [event_fine]. *)
Lemma poll_trace_event_fine w d requests iterations i e (t : thread) :
  poll_trace sane rx os penv cfg SCANBD_NULL_STRING C_TIMEOUT_DEF make_script_path_abs
    w d requests iterations !! i = Some (e, t) →
  event_fine SCANBD_NULL_STRING make_script_path_abs e t.
Proof.
  intros Hi.
  pose proof (sane_poll_fine iterations (started w d requests) (Forall_nil_2 _))
    as Hfine.
  unfold events_fine in Hfine. rewrite Forall_lookup in Hfine.
  apply (Hfine i (e, t) Hi).
Qed.

End PollerFine.

Section RunFacts.
Context {World Handle regex_t : Type}.
Variable sane : sane_api World Handle.
Variable rx : regex_api regex_t.
Variable os : os_api World.
Variable penv : process_env.
Variable cfg : cfg_t.
Variable SCANBD_NULL_STRING : string.
Variable C_TIMEOUT_DEF : Z.
Variable make_script_path_abs : string → option string.

Notation thread := (sane_thread Handle regex_t).
Notation Poll_trace :=
  (poll_trace sane rx os penv cfg SCANBD_NULL_STRING C_TIMEOUT_DEF make_script_path_abs).


(** X10: in every run of the polling thread, the program that is forked
    is the script of the action that [triggered_option] points to, made
    absolute by [make_script_path_abs], and it is not
    [SCANBD_NULL_STRING]. *)
Theorem script_is_of_triggered_action w d requests iterations i path envp (t : thread) :
  Poll_trace w d requests iterations !! i = Some (EvFork path envp, t) →
  spawned_from SCANBD_NULL_STRING make_script_path_abs t path.
Proof.
  intros Hi.
  pose proof (poll_trace_event_fine sane rx os penv cfg SCANBD_NULL_STRING C_TIMEOUT_DEF
                make_script_path_abs _ _ _ _ _ _ _ Hi) as Hfine.
  by destruct Hfine as (_ & ? & _).
Qed.

(** X11: in every run of the polling thread, [triggered] is set when the
    [trigger] signal is sent and while the child process of a script runs
    (this is what [sane_trigger_action] and [stop_sane_threads] wait
    for). *)
Theorem triggered_while_script_runs w d requests iterations i e (t : thread) :
  Poll_trace w d requests iterations !! i = Some (e, t) →
  child_running e = true ∨ (∃ sig envp, e = EvDbusSignalArgv sig envp) →
  triggered t = true.
Proof.
  intros Hi He.
  pose proof (poll_trace_event_fine sane rx os penv cfg SCANBD_NULL_STRING C_TIMEOUT_DEF
                make_script_path_abs _ _ _ _ _ _ _ Hi) as Hfine.
  destruct He as [He|(sig & envp & ->)]; [|by destruct Hfine].
  destruct e; try done. by destruct Hfine.
Qed.


End RunFacts.

(** ** A trigger that another thread has set *)

Section PendingTrigger.
Context {World Handle regex_t : Type}.
Variable sane : sane_api World Handle.
Variable rx : regex_api regex_t.
Variable os : os_api World.
Variable penv : process_env.
Variable cfg : cfg_t.
Variable SCANBD_NULL_STRING : string.
Variable make_script_path_abs : string → option string.

Notation PState := (PState World Handle regex_t).
Notation option_rule := (sane_dev_option regex_t).
Notation Poll_option :=
  (poll_option sane rx os penv cfg SCANBD_NULL_STRING make_script_path_abs).
Notation Dispatch :=
  (dispatch sane os penv cfg SCANBD_NULL_STRING make_script_path_abs).

(** X13: when the loop comes to a rule while a trigger that another
    thread has set is pending, it samples and stores the value of the rule
    as always and then dispatches in any case: the action of the pending
    trigger if the comparison of the rule does not fire, and the rule
    itself if it does (its index takes the place of the pending one). *)
Theorem pending_trigger_is_dispatched timeout si (o : option_rule) odesc script_
    (s : PState) v s1 fires :
  opts (st s) !! si = Some o →
  get_option_descriptor sane (world s) (h (st s)) (opt_number o) = Some odesc →
  value_trigger rx odesc o v = Some fires →
  script o = Some script_ → script_ ≠ EmptyString →
  triggered (st s) = true → 0 <= triggered_option (st s) →
  sample sane si o s = Ok v s1 →
  ∃ s2, sample_and_compare sane rx odesc si o s = Ok tt s2 ∧
        triggered (st s2) = true ∧
        triggered_option (st s2)
        = (if fires then Z.of_nat si else triggered_option (st s)) ∧
        value <$> opts (st s2) !! si = Some v ∧
        Poll_option timeout si s = Dispatch timeout odesc s2.
Proof.
  intros Ho Hdesc Hfires Hscript Hne Htrig Hoption Hsample.
  destruct (sample_st sane _ _ _ _ _ Hsample) as [Hst _].
  pose proof (sample_and_compare_value sane rx _ _ _ _ _ _ _ Hfires Hsample) as Hcmp.
  eexists. split; [exact Hcmp|].
  assert (Poll_option timeout si s
          = bind (sample_and_compare sane rx odesc si o)
              (λ _, bind get_st (λ t', if triggered t' && (0 <=? triggered_option t')
                                       then Dispatch timeout odesc else ret tt)) s) as ->.
  { unfold poll_option. unfold bind at 1 2. unfold get_st at 1, get_world at 1.
    rewrite Ho, Hdesc, Hscript. by rewrite bool_decide_eq_false_2. }
  unfold bind at 1. rewrite Hcmp. unfold bind, get_st.
  destruct fires; cbn [st].
  - simpl. split; [done|]. split; [done|]. split.
    + apply (stored_lookup _ _ o). simpl. by rewrite Hst.
    + by destruct (Z.leb_spec 0 (Z.of_nat si)); [|lia].
  - simpl. rewrite Hst, Htrig.
    split; [done|]. split; [done|]. split.
    + by rewrite list_lookup_alter_eq, Ho.
    + by destruct (Z.leb_spec 0 (triggered_option (st s))); [|lia].
Qed.

End PendingTrigger.

(** ** When the environment can be assembled *)

Section EnvTotal.
Context {Handle regex_t : Type}.
Variable penv : process_env.
Variable cfg : cfg_t.
Notation thread := (sane_thread Handle regex_t).

End EnvTotal.

(** ** The properties above on the scenarios *)

Module CoverageFacts.
Import Bench Scenario.

Lemma get_sane_option_value_string_bound_witness :
  ∃ s, str_value_str (snd (get_sane_option_value (regex_t := string) sane mode_device
                             (Some tt) 5))
       = Some s ∧
       s = cstring_of_buffer
             (take 32 (snd (sane_control_option_string sane mode_device tt 5))) ∧
       Z.of_nat (String.length s) <= 32.
Proof.
  refine (get_sane_option_value_string_bound (regex_t := string) sane mode_device tt 5
            {| od_name := Some "mode"; od_type := SANE_TYPE_STRING; od_size := 32;
               od_cap := 5 |} _ _ _ _);
    first [reflexivity | simpl; lia].
Defined.

Lemma get_sane_option_value_not_read_witness :
  get_sane_option_value (regex_t := string) sane mode_device (Some tt) 4
  = (mode_device, sane_option_value_init).
Proof.
  apply (get_sane_option_value_not_read (regex_t := string) sane mode_device tt 4).
  simpl. split; [lia|reflexivity].
Defined.

Lemma sane_trigger_action_validates_witness :
  0 <= 0 < num_devices {| num_devices := 1; sane_poll_threads := None |} ∧
  0 <= 0 < Z.of_nat (num_of_options_with_scripts busy_slot).
Proof.
  apply (sane_trigger_action_validates 0 0
           {| num_devices := 1; sane_poll_threads := None |}
           [{| num_devices := 1; sane_poll_threads := Some 1%nat |}]
           busy_slot [idle_slot] (set_trigger idle_slot true 0)
           [TLock sane_mutex; TCondWait sane_cv sane_mutex;
            TLock (device_mutex 0); TCondWait (device_cv 0) (device_mutex 0);
            TSetTriggered 0 0; TCondBroadcast (device_cv 0);
            TUnlock (device_mutex 0); TUnlock sane_mutex]).
  vm_compute. reflexivity.
Defined.


Lemma sane_poll_scripts_present_witness :
  scripts_present (st multiple_start).
Proof.
  apply (sane_poll_scripts_present sane rx os penv multiple_config SCANBD_NULL_STRING
           C_TIMEOUT_DEF make_script_path_abs) with (iterations := 0%nat)
           (s := initial multiple_device).
  - discriminate.
  - vm_compute. reflexivity.
Defined.


Lemma script_is_of_triggered_action_witness :
  spawned_from SCANBD_NULL_STRING make_script_path_abs
    (slot_at resolution_config resolution_device 1 11) "/tmp/s.sh".
Proof.
  apply (script_is_of_triggered_action sane rx os penv resolution_config
           SCANBD_NULL_STRING C_TIMEOUT_DEF make_script_path_abs resolution_device
           scanner [] 1 11 "/tmp/s.sh" resolution_env).
  vm_compute. reflexivity.
Defined.

Lemma triggered_while_script_runs_witness :
  event_at resolution_config resolution_device 1 12 = EvWaitpid ∧
  triggered (slot_at resolution_config resolution_device 1 12) = true.
Proof.
  split; [vm_compute; reflexivity|].
  apply (triggered_while_script_runs sane rx os penv resolution_config
           SCANBD_NULL_STRING C_TIMEOUT_DEF make_script_path_abs resolution_device
           scanner [] 1 12 (event_at resolution_config resolution_device 1 12)).
  - vm_compute. reflexivity.
  - left. vm_compute. reflexivity.
Defined.


Lemma pending_trigger_is_dispatched_witness :
  ∃ s2, sample_and_compare sane rx button_descriptor 0 button_rule requested = Ok tt s2 ∧
        triggered (st s2) = true ∧
        triggered_option (st s2) = 0 ∧
        value <$> opts (st s2) !! 0%nat = Some sane_option_value_init ∧
        poll_option sane rx os penv button_config SCANBD_NULL_STRING
          make_script_path_abs 100 0 requested
        = dispatch sane os penv button_config SCANBD_NULL_STRING
            make_script_path_abs 100 button_descriptor s2.
Proof.
  refine (pending_trigger_is_dispatched sane rx os penv button_config
            SCANBD_NULL_STRING make_script_path_abs 100 0%nat button_rule
            button_descriptor "/tmp/s.sh" requested sane_option_value_init
            (final (sample sane 0 button_rule requested)) false _ _ _ _ _ _ _ _);
    try (vm_compute; reflexivity).
  - discriminate.
  - vm_compute. discriminate.
Defined.

End CoverageFacts.

(** ** The compilers of the rules stay within the arrays *)

Section TableLists.
Context {A : Type}.
Variable number : A → nat.

(** Numbers that are different and lie from 1 to [n - 1] are fewer than
    [n]. *)
Lemma distinct_numbers_bound (l : list nat) n :
  NoDup l → Forall (λ x, 1 ≤ x < n)%nat l → (length l < n ∨ l = [])%nat.
Proof.
  intros Hnd Hall. destruct l as [|x l]; [by right|]. left.
  assert (x :: l ⊆+ seq 1 (n - 1)) as Hsub.
  { apply NoDup_submseteq; [done|]. intros y Hy.
    rewrite Forall_forall in Hall. specialize (Hall y Hy).
    apply elem_of_seq. lia. }
  apply submseteq_length in Hsub. rewrite length_seq in Hsub.
  inversion Hall; subst. lia.
Qed.

(** An entry that is overwritten with one of the same number. *)
Lemma numbers_insert_same (l : list A) c n x old :
  l !! n = Some old → number x = number old →
  number <$> take c (<[n:=x]> l) = number <$> take c l.
Proof.
  intros Hold Hnum. rewrite take_insert. destruct (decide (n < c)%nat) as [Hlt|]; [|done].
  rewrite list_fmap_insert, Hnum. apply list_insert_id.
  rewrite list_lookup_fmap, lookup_take_lt by done. by rewrite Hold.
Qed.

(** An entry that is appended. *)
Lemma numbers_insert_new (l : list A) c x :
  (c < length l)%nat →
  number <$> take (S c) (<[c:=x]> l) = (number <$> take c l) ++ [number x].
Proof.
  intros Hc. rewrite (take_S_r _ _ x) by by apply list_lookup_insert_eq.
  by rewrite fmap_app, take_insert_ge by done.
Qed.

Lemma numbers_elem_of (l : list A) c x :
  x ∈ number <$> take c l ↔ ∃ i a, (i < c)%nat ∧ l !! i = Some a ∧ number a = x.
Proof.
  rewrite list_elem_of_fmap. split.
  - intros (a & -> & Ha). apply elem_of_take in Ha as (i & Hi & Hlt). eauto.
  - intros (i & a & Hlt & Hi & <-). exists a. split; [done|].
    apply elem_of_take. eauto.
Qed.
End TableLists.

Section TableFacts.
Context {World Handle regex_t : Type}.
Variable sane : sane_api World Handle.
Variable rx : regex_api regex_t.
Variable cfg : cfg_t.
Variable SCANBD_NULL_STRING : string.

Notation thread := (sane_thread Handle regex_t).
Notation PState := (PState World Handle regex_t).
Notation option_rule := (sane_dev_option regex_t).

Notation Tables := (tables_inv cfg).
Notation Nowhere := (λ _ : PState, False).

Lemma tables_snoc (before : Prop) (tr : list (event * thread)) e t :
  (before → Forall (λ et, tables_ok cfg (snd et)) tr) → tables_ok cfg t →
  before → Forall (λ et, tables_ok cfg (snd et)) (tr ++ [(e, t)]).
Proof.
  intros Htr Ht Hb. apply Forall_app. split; [by apply Htr|]. by apply Forall_singleton.
Qed.

Lemma function_count_bound (t : thread) number :
  tables_ok cfg t → option_number_ok t number → number ∉ function_numbers t →
  (num_of_options_with_functions t < length (functions t))%nat.
Proof.
  intros (_ & Hlen & _ & Hle & _ & Hrange & Hnodup & _) Hnumber Hnew.
  destruct (distinct_numbers_bound (number :: function_numbers t) (num_of_options t))
    as [Hlt|?]; [by constructor|by constructor| |done].
  simpl in Hlt. unfold function_numbers in Hlt.
  rewrite length_fmap, length_take in Hlt. lia.
Qed.

Lemma install_function_tables before function_i opt (s : PState) :
  Tables before s → option_number_ok (st s) opt →
  wp (install_function function_i opt)
     (λ _ s', Tables before s' ∧ num_of_options (st s') = num_of_options (st s)) Nowhere s.
Proof.
  intros [Hs Htr] Hopt. unfold install_function. cbv zeta. wp_step. wp_step.
  pose proof Hs as (Hlo & Hlf & Hcs & Hcf & Hra & Hrf & Hnd & Hmult).
  destruct (find_function _ _ _) as [n|] eqn:Hfind; simpl.
  - unfold find_function in Hfind.
    destruct (list_find _ _) as [[i f]|] eqn:Hlist; [|done].
    simpl in Hfind. injection Hfind as ->.
    apply list_find_Some in Hlist as (Hn & Hf & _).
    apply lookup_take_Some in Hn as [Hn Hlt].
    destruct (Nat.ltb_spec n (length (functions (st s)))); [|lia].
    wp_step. destruct (Nat.eqb_spec n (num_of_options_with_functions (st s))); [lia|].
    split; [|done]. split; [|done].
    unfold tables_ok, function_numbers, action_numbers, option_number_ok in *. simpl.
    rewrite length_insert, (numbers_insert_same _ _ _ _ _ f) by done. done.
  - assert (opt ∉ function_numbers (st s)) as Hnew.
    { unfold find_function in Hfind.
      destruct (list_find _ _) as [[i f]|] eqn:Hlist; [done|].
      apply list_find_None in Hlist. rewrite Forall_forall in Hlist.
      intros Hin. apply list_elem_of_fmap in Hin as (f & -> & Hf). by apply (Hlist f). }
    pose proof (function_count_bound _ _ Hs Hopt Hnew) as Hroom.
    destruct (Nat.ltb_spec (num_of_options_with_functions (st s))
                (length (functions (st s)))); [|lia].
    wp_step. rewrite Nat.eqb_refl.
    split; [|done]. split; [|done].
    unfold tables_ok, function_numbers, action_numbers, option_number_ok in *. simpl.
    rewrite length_insert, numbers_insert_new by done. simpl.
    split; [done|]. split; [done|]. split; [done|]. split; [lia|]. split; [done|].
    split; [apply Forall_app; split; [done|by apply Forall_singleton]|].
    split; [|done]. apply NoDup_app. split; [done|]. split; [|apply NoDup_singleton].
    intros x Hx ->%list_elem_of_singleton. done.
Qed.

Lemma sane_find_matching_functions_tables before sec (s : PState) :
  Tables before s →
  wp (sane_find_matching_functions sane rx sec)
     (λ _ s', Tables before s' ∧ num_of_options (st s') = num_of_options (st s)) Nowhere s.
Proof.
  intros Hs. unfold sane_find_matching_functions.
  apply wp_for_each
    with (I := λ s', Tables before s' ∧ num_of_options (st s') = num_of_options (st s))
         (E := Nowhere); [done|].
  intros function_i s1 _ [Hs1 Hn1]. cbv zeta.
  wp_go; [done|].
  eapply wp_mono;
    [apply wp_for_each
       with (I := λ s', Tables before s' ∧ num_of_options (st s') = num_of_options (st s1))
            (E := Nowhere); [done|]
    | intros ? s2 [Hs2 Hn2]; split; [done|congruence]
    | done ].
  intros opt s2 Hopt [Hs2 Hn2].
  wp_go; [|done].
  eapply wp_mono; [apply install_function_tables; [done|]| |done].
  - apply elem_of_seq in Hopt. unfold option_number_ok. lia.
  - intros ? s3 [Hs3 Hn3]. split; [done|congruence].
Qed.

Lemma find_action_slot_slot (t : thread) opt :
  tables_ok cfg t → slot_for cfg t (find_action_slot cfg t opt) opt.
Proof.
  intros (_ & _ & Hcs & _). unfold find_action_slot, slot_for.
  destruct (find_option _ _ _) as [n|] eqn:Hfind.
  - apply find_option_Some in Hfind as (Hlt & (old & Hold & Hnum) & _).
    destruct (cfg_multiple_actions cfg); [|right; eauto].
    destruct (Nat.ltb_spec n (num_of_options t)); [|lia]. by left.
  - left. split; [done|]. intros _ Hin.
    apply numbers_elem_of in Hin as (i & o & Hi & Ho & Hnum).
    by apply (find_option_None _ _ _ Hfind i o).
Qed.

(** The first of the two writes to [st->opts[n]], which leaves the count
    as it is. *)
Lemma tables_ok_write (t : thread) n (o : option_rule) :
  tables_ok cfg t → slot_for cfg t n (opt_number o) → (n < num_of_options t)%nat →
  let t1 := set_opts t (<[n:=o]> (opts t)) (num_of_options_with_scripts t) in
  tables_ok cfg t1 ∧ slot_for cfg t1 n (opt_number o).
Proof.
  intros (Hlo & Hlf & Hcs & Hcf & Hra & Hrf & Hnd & Hmult) Hslot Hn.
  assert (opt_number <$> take (num_of_options_with_scripts t) (<[n:=o]> (opts t))
          = action_numbers t) as Hsame.
  { destruct Hslot as [[-> _]|[Hlt (old & Hold & Hnum)]].
    - by rewrite take_insert_ge.
    - by apply numbers_insert_same with (old := old). }
  cbv zeta. split.
  - unfold tables_ok, action_numbers, function_numbers, option_number_ok in *. simpl.
    rewrite length_insert, Hsame. done.
  - unfold slot_for, action_numbers in *. simpl. rewrite Hsame.
    destruct Hslot as [?|[Hlt _]]; [by left|right]. split; [done|].
    exists o. split; [|done]. apply list_lookup_insert_eq. lia.
Qed.

(** The second write, with
    [if (n == st->num_of_options_with_scripts) st->num_of_options_with_scripts += 1]. *)
Lemma tables_ok_install (t : thread) n (o : option_rule) :
  tables_ok cfg t → slot_for cfg t n (opt_number o) → (n < num_of_options t)%nat →
  option_number_ok t (opt_number o) →
  tables_ok cfg
    (set_opts t (<[n:=o]> (opts t)) (count_after n (num_of_options_with_scripts t))).
Proof.
  intros Ht Hslot Hn Hnumber. unfold count_after.
  destruct (Nat.eqb_spec n (num_of_options_with_scripts t)) as [->|Hne];
    [|by apply tables_ok_write].
  destruct Hslot as [[_ Hnew]|[Hlt _]]; [|lia].
  destruct Ht as (Hlo & Hlf & Hcs & Hcf & Hra & Hrf & Hnd & Hmult).
  unfold tables_ok, action_numbers, function_numbers, option_number_ok in *. simpl.
  rewrite length_insert, numbers_insert_new by lia.
  split; [done|]. split; [done|]. split; [lia|]. split; [done|].
  split; [apply Forall_app; split; [done|by apply Forall_singleton]|].
  split; [done|]. split; [done|]. intros Hsingle.
  apply NoDup_app. split; [by apply Hmult|]. split; [|apply NoDup_singleton].
  intros x Hx ->%list_elem_of_singleton. by apply Hnew.
Qed.

Lemma install_action_tables before action_i title opt odesc (s : PState) :
  Tables before s → option_number_ok (st s) opt →
  is_numerical (od_type odesc) || is_string (od_type odesc) = true →
  wp (install_action sane rx cfg SCANBD_NULL_STRING action_i title opt odesc)
     (λ _ s', Tables before s' ∧ num_of_options (st s') = num_of_options (st s)) Nowhere s.
Proof.
  intros [Hs Htr] Hopt Htype. unfold install_action. cbv zeta. wp_step. wp_step.
  pose proof (find_action_slot_slot _ opt Hs) as Hslot.
  destruct (Nat.eqb_spec (find_action_slot cfg (st s) opt) (num_of_options (st s)))
    as [Hfull|Hroom]; [by wp_step|].
  assert (find_action_slot cfg (st s) opt < num_of_options (st s))%nat as Hn.
  { destruct Hs as (_ & _ & Hcs & _).
    destruct Hslot as [[Heq _]|[Hlt _]]; lia. }
  destruct (opts (st s) !! find_action_slot cfg (st s) opt) as [old|] eqn:Hold.
  2:{ apply lookup_ge_None in Hold. destruct Hs as (Hlo & _). lia. }
  set (n := find_action_slot cfg (st s) opt) in *.
  destruct (is_numerical (od_type odesc)) eqn:Hnum.
  - pose proof (tables_ok_write (st s) n
                  (numerical_option (cleared_option SCANBD_NULL_STRING old opt action_i title)
                     action_i) Hs Hslot Hn) as [Ht1 Hslot1].
    wp_go. split; [|done]. split; [|by apply tables_snoc]. cbn [st].
    match goal with
    | |- tables_ok _ (set_opts ?t1 (<[_:=?o]> _) _) => by apply (tables_ok_install t1 n o)
    end.
  - simpl in Htype. rewrite Htype.
    pose proof (tables_ok_write (st s) n
                  (textual_option rx (cleared_option SCANBD_NULL_STRING old opt action_i title)
                     action_i) Hs Hslot Hn) as [Ht1 Hslot1].
    wp_go; (split; [|done]); (split; [|by apply tables_snoc]); cbn [st].
    + match goal with
      | |- tables_ok _ (set_opts ?t1 (<[_:=?o]> _) _) => by apply (tables_ok_install t1 n o)
      end.
    + match goal with
      | |- tables_ok _ (set_opts ?t1 (<[_:=?o]> _) _) => by apply (tables_ok_write t1 n o)
      end.
Qed.

Lemma match_option_type creg w (t : thread) opt odesc :
  match_option sane rx creg w t opt = Some odesc →
  is_numerical (od_type odesc) || is_string (od_type odesc) = true.
Proof.
  unfold match_option. intros Hmatch.
  destruct (get_option_descriptor _ _ _ _) as [d|]; [|done].
  destruct (negb (SANE_OPTION_IS_ACTIVE _)); [done|].
  destruct (od_name d); [|done].
  destruct (is_numerical (od_type d) || is_string (od_type d)) eqn:Htype; [|done].
  simpl in Hmatch. destruct (negb _); [done|]. by injection Hmatch as <-.
Qed.

Lemma sane_find_matching_options_tables before sec (s : PState) :
  Tables before s →
  wp (sane_find_matching_options sane rx cfg SCANBD_NULL_STRING sec)
     (λ _ s', Tables before s' ∧ num_of_options (st s') = num_of_options (st s)) Nowhere s.
Proof.
  intros Hs. unfold sane_find_matching_options.
  apply wp_for_each
    with (I := λ s', Tables before s' ∧ num_of_options (st s') = num_of_options (st s))
         (E := Nowhere); [done|].
  intros action_i s1 _ [Hs1 Hn1]. cbv zeta.
  wp_go; [done|].
  eapply wp_mono;
    [apply wp_for_each
       with (I := λ s', Tables before s' ∧ num_of_options (st s') = num_of_options (st s1))
            (E := Nowhere); [done|]
    | intros ? s2 [Hs2 Hn2]; split; [done|congruence]
    | done ].
  intros opt s2 Hopt [Hs2 Hn2].
  wp_go; [|done].
  eapply wp_mono; [apply install_action_tables; [done| |]| |done].
  - apply elem_of_seq in Hopt. unfold option_number_ok. lia.
  - by eapply match_option_type.
  - intros ? s3 [Hs3 Hn3]. split; [done|congruence].
Qed.

(** What the polling loop writes to the slot leaves the arrays as they
    are, but for the values of the actions. *)
Lemma tables_ok_set_h (t : thread) hd : tables_ok cfg t → tables_ok cfg (set_h t hd).
Proof. done. Qed.

Lemma tables_ok_set_trigger (t : thread) b o :
  tables_ok cfg t → tables_ok cfg (set_trigger t b o).
Proof. done. Qed.

Lemma tables_ok_interfere x (t : thread) : tables_ok cfg t → tables_ok cfg (interfere x t).
Proof.
  intros Ht. destruct x as [|[a|] x]; simpl; try done.
  unfold external_trigger. by destruct (_ && _).
Qed.

Lemma tables_ok_store (t : thread) si v :
  tables_ok cfg t →
  tables_ok cfg (set_opts t (alter (λ o, set_value o v) si (opts t))
                   (num_of_options_with_scripts t)).
Proof.
  intros Ht. unfold tables_ok, action_numbers, function_numbers, option_number_ok in *.
  simpl. rewrite length_alter, take_alter.
  destruct (decide (si < num_of_options_with_scripts t)%nat); [|done].
  by rewrite (fmap_alter_same opt_number).
Qed.

Lemma tables_ok_allocate (t : thread) n :
  tables_ok cfg
    (set_functions (set_opts (set_num_of_options t n) (replicate n zero_option) 0%nat)
       (replicate n zero_function) 0%nat).
Proof.
  unfold tables_ok, action_numbers, function_numbers. simpl.
  rewrite !length_replicate.
  repeat (split; [first [done | lia | constructor]|]). intros _. constructor.
Qed.

Ltac solve_tables :=
  cbn [st trace world external] in *;
  repeat match goal with
         | |- Tables _ _ => split; cbn [st trace world external]
         | |- _ ∧ _ => split
         | |- _ → Forall _ (_ ++ [_]) => apply tables_snoc
         | |- tables_ok _ (set_h _ _) => apply tables_ok_set_h
         | |- tables_ok _ (set_trigger _ _ _) => apply tables_ok_set_trigger
         | |- tables_ok _ (interfere _ _) => apply tables_ok_interfere
         | |- tables_ok _ (set_opts _ (alter _ _ _) _) => apply tables_ok_store
         | |- tables_ok _ (set_functions _ _ _) => apply tables_ok_allocate
         | |- _ => done
         | |- _ => eassumption
         end.

Section Run.
Variable os : os_api World.
Variable penv : process_env.
Variable C_TIMEOUT_DEF : Z.
Variable make_script_path_abs : string → option string.
Variable before : Prop.

Lemma sane_poll_startup_tables (s : PState) :
  Tables before s →
  wp (sane_poll_startup sane rx cfg SCANBD_NULL_STRING C_TIMEOUT_DEF)
     (λ _, Tables before) (Tables before) s.
Proof.
  intros [Hs Htr]. unfold sane_poll_startup, open_device, allocate_rules. cbv zeta.
  wp_go; try solve [solve_tables].
  eapply wp_mono; [apply (sane_find_matching_options_tables before); solve_tables| |done].
  intros ? s1 [Hs1 _]. cbv beta. wp_go.
  eapply wp_mono; [by apply (sane_find_matching_functions_tables before)| |done].
  intros ? s2 [Hs2 _]. cbv beta. wp_go.
  eapply wp_mono;
    [apply wp_for_each with (I := Tables before) (E := Tables before); [done|]
    |intros ? s3 Hs3; by apply wp_ret
    |done].
  intros loc_i s3 _ Hs3. wp_go; try done.
  eapply wp_mono; [by apply (sane_find_matching_options_tables before)| |done].
  intros ? s4 [Hs4 _].
  eapply wp_mono; [by apply (sane_find_matching_functions_tables before)| |done].
  by intros ? s5 [Hs5 _].
Qed.

Lemma function_entry_tables odesc e (s : PState) :
  Tables before s →
  wp (function_entry sane odesc e) (λ _, Tables before) (Tables before) s.
Proof.
  intros [Hs Htr]. unfold function_entry, function_value. wp_go; solve_tables.
Qed.

Lemma build_env_tables odesc fired (s : PState) :
  Tables before s →
  wp (build_env sane penv cfg odesc fired) (λ _, Tables before) (Tables before) s.
Proof.
  intros Hs. unfold build_env. cbv zeta. wp_go.
  eapply wp_mono;
    [apply wp_fold_each with (I := λ _, Tables before) (E := Tables before)| |done].
  - done.
  - intros envp e s1 _ Hs1. wp_go.
    eapply wp_mono; [by apply function_entry_tables| |done].
    intros entry s2 Hs2. by wp_go.
  - intros filled s1 Hs1. cbv beta.
    by destruct (finish_env penv cfg (st s) fired filled); wp_go.
Qed.

Lemma dispatch_tables timeout odesc (s : PState) :
  Tables before s →
  wp (dispatch sane os penv cfg SCANBD_NULL_STRING make_script_path_abs timeout odesc)
     (λ _, Tables before) (Tables before) s.
Proof.
  intros [Hs Htr]. unfold dispatch. wp_go; try done.
  eapply wp_mono; [by apply build_env_tables| |done].
  intros envp s1 [Hs1 Htr1]. cbv beta.
  unfold close_device, run_script, open_device. cbv zeta.
  wp_go; solve_tables.
Qed.

Lemma poll_option_tables timeout si (s : PState) :
  Tables before s →
  wp (poll_option sane rx os penv cfg SCANBD_NULL_STRING make_script_path_abs timeout si)
     (λ _, Tables before) (Tables before) s.
Proof.
  intros [Hs Htr]. unfold poll_option, sample_and_compare, sample, compare, store_value.
  wp_go; try done; try (apply dispatch_tables); solve_tables.
Qed.

Lemma sane_poll_iteration_tables timeout (s : PState) :
  Tables before s →
  wp (sane_poll_iteration sane rx os penv cfg SCANBD_NULL_STRING make_script_path_abs
        timeout)
     (λ _, Tables before) (Tables before) s.
Proof.
  intros Hs. unfold sane_poll_iteration. wp_go.
  eapply wp_mono;
    [apply wp_for_each with (I := Tables before) (E := Tables before); [done|]| |done].
  - intros si s1 Hsi Hs1. by apply poll_option_tables.
  - intros ? s1 [Hs1 Htr1]. cbv beta in *. wp_go. solve_tables.
Qed.

Lemma sane_poll_loop_tables iterations timeout (s : PState) :
  Tables before s →
  wp (sane_poll_loop sane rx os penv cfg SCANBD_NULL_STRING make_script_path_abs
        iterations timeout)
     (λ _, Tables before) (Tables before) s.
Proof.
  revert s. induction iterations as [|n IH]; intros s Hs; simpl; [done|].
  apply wp_bind. eapply wp_mono; [by apply sane_poll_iteration_tables| |done].
  intros ? s1 Hs1. by apply IH.
Qed.

Lemma sane_poll_tables iterations (s : PState) :
  Tables before s →
  Tables before (final (sane_poll sane rx os penv cfg SCANBD_NULL_STRING C_TIMEOUT_DEF
                          make_script_path_abs iterations s)).
Proof.
  intros Hs.
  assert (wp (sane_poll sane rx os penv cfg SCANBD_NULL_STRING C_TIMEOUT_DEF
                make_script_path_abs iterations)
             (λ _, Tables before) (Tables before) s) as Hwp.
  { unfold sane_poll. apply wp_bind.
    eapply wp_mono; [by apply sane_poll_startup_tables| |done].
    intros timeout s1 Hs1. cbv beta. by apply sane_poll_loop_tables. }
  unfold wp in Hwp. by destruct (sane_poll _ _ _ _ _ _ _ _ _ s).
Qed.
End Run.

(** X14: started with arrays as [tables_ok] says, both compilers of the
    rules of a section return, without a failed assertion and without a
    write outside the arrays [opts] and [functions], and leave the arrays
    as [tables_ok] says: each matching option takes the slot of the rule
    it overrides or the first free slot, and there is a free slot
    whenever one is needed. *)
Theorem rule_compilers_stay_in_arrays sec (s : PState) :
  tables_ok cfg (st s) →
  (∃ s', sane_find_matching_options sane rx cfg SCANBD_NULL_STRING sec s = Ok tt s' ∧
         tables_ok cfg (st s') ∧ num_of_options (st s') = num_of_options (st s)) ∧
  (∃ s', sane_find_matching_functions sane rx sec s = Ok tt s' ∧
         tables_ok cfg (st s') ∧ num_of_options (st s') = num_of_options (st s)).
Proof.
  intros Hs. assert (Tables False s) as Hinv by by split.
  split.
  - pose proof (sane_find_matching_options_tables False sec s Hinv) as Hwp.
    unfold wp in Hwp.
    destruct (sane_find_matching_options _ _ _ _ _ s) as [[] s'|s'|s']; [|done..].
    destruct Hwp as [[Hs' _] Hn]. eauto.
  - pose proof (sane_find_matching_functions_tables False sec s Hinv) as Hwp.
    unfold wp in Hwp.
    destruct (sane_find_matching_functions _ _ _ s) as [[] s'|s'|s']; [|done..].
    destruct Hwp as [[Hs' _] Hn]. eauto.
Qed.

(** X15: in every run of the polling thread the arrays are as
    [tables_ok] says whenever the thread does something that is
    observed, and the array of the functions is never full (no function
    is installed for option 0). *)
Theorem arrays_stay_in_bounds os penv C_TIMEOUT_DEF make_script_path_abs
    w d requests iterations i e (t : thread) :
  poll_trace sane rx os penv cfg SCANBD_NULL_STRING C_TIMEOUT_DEF make_script_path_abs
    w d requests iterations !! i = Some (e, t) →
  tables_ok cfg t ∧
  (num_of_options t = 0 ∨ num_of_options_with_functions t < num_of_options t)%nat.
Proof.
  intros Hi.
  assert (Tables True (started w d requests : PState)) as Hstart.
  { split; [|by intros _; constructor].
    unfold tables_ok, action_numbers, function_numbers. simpl.
    repeat (split; [first [done | lia | constructor]|]). intros _. constructor. }
  pose proof (sane_poll_tables os penv C_TIMEOUT_DEF make_script_path_abs True iterations
                _ Hstart) as [_ Htr].
  specialize (Htr I). rewrite Forall_lookup in Htr.
  pose proof (Htr i (e, t) Hi) as Ht. simpl in Ht. split; [done|].
  destruct Ht as (_ & Hlf & _ & Hcf & _ & Hrf & Hnd & _).
  destruct (distinct_numbers_bound (function_numbers t) (num_of_options t) Hnd Hrf)
    as [Hlt|Hnil].
  - right. unfold function_numbers in Hlt. rewrite length_fmap, length_take in Hlt. lia.
  - apply (f_equal length) in Hnil. unfold function_numbers in Hnil.
    rewrite length_fmap, length_take in Hnil. simpl in Hnil. lia.
Qed.
End TableFacts.

Module TableScenario.
Import Bench Scenario.

Lemma rule_compilers_stay_in_arrays_witness :
  (∃ s', sane_find_matching_options sane rx resolution_config SCANBD_NULL_STRING
           (cfg_global resolution_config)
           (final (run_sane_poll resolution_config 0 resolution_device)) = Ok tt s' ∧
         tables_ok resolution_config (st s') ∧
         num_of_options (st s')
         = num_of_options (st (final (run_sane_poll resolution_config 0 resolution_device)))) ∧
  (∃ s', sane_find_matching_functions sane rx (cfg_global resolution_config)
           (final (run_sane_poll resolution_config 0 resolution_device)) = Ok tt s' ∧
         tables_ok resolution_config (st s') ∧
         num_of_options (st s')
         = num_of_options (st (final (run_sane_poll resolution_config 0 resolution_device)))).
Proof.
  apply (rule_compilers_stay_in_arrays sane rx resolution_config SCANBD_NULL_STRING
           (cfg_global resolution_config)
           (final (run_sane_poll resolution_config 0 resolution_device))).
  apply (bool_decide_unpack _). vm_compute. exact I.
Defined.

Lemma arrays_stay_in_bounds_witness :
  tables_ok resolution_config (slot_at resolution_config resolution_device 1 11) ∧
  (num_of_options (slot_at resolution_config resolution_device 1 11) = 0 ∨
   num_of_options_with_functions (slot_at resolution_config resolution_device 1 11)
   < num_of_options (slot_at resolution_config resolution_device 1 11))%nat.
Proof.
  apply (arrays_stay_in_bounds sane rx resolution_config SCANBD_NULL_STRING os penv
           C_TIMEOUT_DEF make_script_path_abs resolution_device scanner [] 1 11
           (event_at resolution_config resolution_device 1 11)).
  vm_compute. reflexivity.
Defined.
End TableScenario.

